(** * Plinko provable-fairness engine: outcome derivation, verification and
      the per-connection session handlers.

    The development embeds

    - [server/src/utils/provableFairness.ts]: [deterministicRandom],
      [calculatePath], [calculateFinalBin], [calculateGameResult],
      [verifyGameResult], [hashServerSeed] and the [MULTIPLIERS] tables;
    - [server/src/index.ts]: the socket handlers [game:new-server-seed],
      [game:new-client-seed], [game:play] and [disconnect] acting on the
      [userStates] map;
    - [app/utils/plinkoService.ts]: the client copy of [MULTIPLIERS].

    The pieces of the JavaScript runtime the code relies on are modelled
    first: SHA-256 (FIPS 180-4), IEEE-754 binary64 rounding, [parseInt]
    with radix 16, number-to-string conversion and [JSON.stringify] on
    arrays of integers. *)

From stdpp Require Import base strings list gmap.
From Stdlib Require Import ZArith QArith Qround Lia String Ascii List Bool.
From Stdlib Require Import SpecFloat.
From Stdlib Require Import DecimalString DecimalPos DecimalZ Sorted.
Import ListNotations.

Open Scope Z_scope.

(* ===================================================================== *)
(** ** SHA-256 (the [crypto.createHash('sha256')] of the runtime)        *)
(* ===================================================================== *)

Module SHA256.

(** 32-bit words are integers of [Z] reduced modulo [2^32]. *)
Definition wmod : Z := 2 ^ 32.
Definition add32 (x y : Z) : Z := (x + y) mod wmod.
Definition rotr (n x : Z) : Z :=
  Z.lor (Z.shiftr x n) (Z.shiftl x (32 - n) mod wmod).
Definition not32 (x : Z) : Z := wmod - 1 - x.

Definition Ch (x y z : Z) : Z := Z.lxor (Z.land x y) (Z.land (not32 x) z).
Definition Maj (x y z : Z) : Z :=
  Z.lxor (Z.lxor (Z.land x y) (Z.land x z)) (Z.land y z).
Definition bsig0 (x : Z) : Z := Z.lxor (Z.lxor (rotr 2 x) (rotr 13 x)) (rotr 22 x).
Definition bsig1 (x : Z) : Z := Z.lxor (Z.lxor (rotr 6 x) (rotr 11 x)) (rotr 25 x).
Definition ssig0 (x : Z) : Z := Z.lxor (Z.lxor (rotr 7 x) (rotr 18 x)) (Z.shiftr x 3).
Definition ssig1 (x : Z) : Z := Z.lxor (Z.lxor (rotr 17 x) (rotr 19 x)) (Z.shiftr x 10).

(** The round constants and the initial state are, as FIPS 180-4 defines
    them, the first 32 fractional bits of the cube (square) roots of the
    first 64 (8) primes; they are computed here rather than tabulated. *)
Fixpoint has_divisor (fuel : nat) (d n : Z) : bool :=
  match fuel with
  | O => false
  | S f => if n <? d * d then false
           else if n mod d =? 0 then true else has_divisor f (d + 1) n
  end.
Definition is_prime (n : Z) : bool := (2 <=? n) && negb (has_divisor 20 2 n).

Definition primes64 : list Z :=
  Eval vm_compute in
    List.filter is_prime (List.map Z.of_nat (seq 2 310)).

(** Integer cube root by bisection on [lo <= r < hi]. *)
Fixpoint icbrt_between (fuel : nat) (lo hi n : Z) : Z :=
  match fuel with
  | O => lo
  | S f =>
      if hi - lo <=? 1 then lo
      else let mid := (lo + hi) / 2 in
           if mid * mid * mid <=? n then icbrt_between f mid hi n
           else icbrt_between f lo mid n
  end.
Definition icbrt (n : Z) : Z := icbrt_between 200 0 (2 ^ 40) n.

Definition K : list Z :=
  Eval vm_compute in
    List.map (fun p => icbrt (p * 2 ^ 96) mod wmod) primes64.

Definition word8 : Type := (Z * Z * Z * Z * Z * Z * Z * Z)%type.

Definition H0 : word8 :=
  Eval vm_compute in
    let f p := Z.sqrt (p * 2 ^ 64) mod wmod in
    (f 2, f 3, f 5, f 7, f 11, f 13, f 17, f 19).

(** Padding: the message, a single [0x80], zeros up to 56 modulo 64, and
    the bit length as a 64-bit big-endian integer. *)
Fixpoint be_bytes (width : nat) (n : Z) : list Z :=
  match width with
  | O => []
  | S w => (n / 256 ^ Z.of_nat w) mod 256 :: be_bytes w n
  end.

Definition pad (msg : list Z) : list Z :=
  let len := Z.of_nat (List.length msg) in
  msg ++ [128] ++ List.repeat 0 (Z.to_nat ((55 - len) mod 64))
      ++ be_bytes 8 (8 * len).

Fixpoint be_words (bytes : list Z) : list Z :=
  match bytes with
  | b0 :: b1 :: b2 :: b3 :: rest =>
      (((b0 * 256 + b1) * 256 + b2) * 256 + b3) :: be_words rest
  | _ => []
  end.

Fixpoint blocks (fuel : nat) (ws : list Z) : list (list Z) :=
  match fuel with
  | O => []
  | S f => match ws with
           | [] => []
           | _ => firstn 16 ws :: blocks f (skipn 16 ws)
           end
  end.

(** Message schedule: [W_t] for [t < 16] is the block, afterwards
    [ssig1 W_(t-2) + W_(t-7) + ssig0 W_(t-15) + W_(t-16)].  The schedule
    is kept newest-first while it is extended. *)
Definition schedule_step (rev_w : list Z) : list Z :=
  let at_back k := nth k rev_w 0 in
  add32 (add32 (add32 (ssig1 (at_back 1%nat)) (at_back 6%nat))
               (ssig0 (at_back 14%nat))) (at_back 15%nat) :: rev_w.

Definition schedule (block : list Z) : list Z :=
  rev (Nat.iter 48 schedule_step (rev block)).

Definition round (s : word8) (kw : Z * Z) : word8 :=
  let '(a, b, c, d, e, f, g, h) := s in
  let '(k, w) := kw in
  let t1 := add32 (add32 (add32 (add32 h (bsig1 e)) (Ch e f g)) k) w in
  let t2 := add32 (bsig0 a) (Maj a b c) in
  (add32 t1 t2, a, b, c, add32 d t1, e, f, g).

Definition compress (hs : word8) (block : list Z) : word8 :=
  let '(a, b, c, d, e, f, g, h) :=
    fold_left round (combine K (schedule block)) hs in
  let '(h0, h1, h2, h3, h4, h5, h6, h7) := hs in
  (add32 h0 a, add32 h1 b, add32 h2 c, add32 h3 d,
   add32 h4 e, add32 h5 f, add32 h6 g, add32 h7 h).

Definition digest (msg : list Z) : word8 :=
  let ws := be_words (pad msg) in
  fold_left compress (blocks (List.length ws) ws) H0.

End SHA256.

(* ===================================================================== *)
(** ** Strings: bytes, hexadecimal and decimal text                      *)
(* ===================================================================== *)

(** A string is the sequence of its UTF-8 bytes, which is what
    [hash.update(string)] feeds to the hash function. *)
Definition bytes_of_string (s : string) : list Z :=
  List.map (fun c => Z.of_N (N_of_ascii c)) (list_ascii_of_string s).

Definition hex_digit (n : Z) : ascii :=
  if n <? 10 then ascii_of_N (Z.to_N (48 + n)) else ascii_of_N (Z.to_N (87 + n)).

(** [hex_word w]: the 8 lower-case hexadecimal digits of a 32-bit word. *)
Fixpoint hex_nibbles (k : nat) (w : Z) : string :=
  match k with
  | O => EmptyString
  | S k' => String (hex_digit ((w / 16 ^ Z.of_nat k') mod 16)) (hex_nibbles k' w)
  end.
Definition hex_word (w : Z) : string := hex_nibbles 8 w.

(** [crypto.createHash('sha256').update(s).digest('hex')] *)
Definition sha256_hex (s : string) : string :=
  let '(h0, h1, h2, h3, h4, h5, h6, h7) := SHA256.digest (bytes_of_string s) in
  (hex_word h0 ++ hex_word h1 ++ hex_word h2 ++ hex_word h3 ++
   hex_word h4 ++ hex_word h5 ++ hex_word h6 ++ hex_word h7)%string.

(* ===================================================================== *)
(** ** JavaScript numbers                                                *)
(* ===================================================================== *)

(** A [number] is an IEEE-754 binary64 value: a finite value is carried as
    the rational it denotes, and every arithmetic operation rounds its
    exact result with [fl] (round to nearest, ties to even, 53 significant
    bits, gradual underflow below [2^-1022], overflow from [2^1024]).
    Negative zero is identified with zero: no operation used by the code
    ([===], [<], [Math.floor], [Math.min], [JSON.stringify]) tells them
    apart, and the only division by zero is by [path.length * 2 = +0]. *)
Inductive number : Type :=
  | NaN : number
  | PInf : number
  | NInf : number
  | Fin (q : Q) : number.

Module Float.

(** [floor (log2 (p / q))] for [p, q > 0]. *)
Definition ilog2 (p q : Z) : Z :=
  let e := Z.log2 p - Z.log2 q in
  let below :=
    if 0 <=? e then p <? q * 2 ^ e else p * 2 ^ (- e) <? q in
  if below then e - 1 else e.

(** Nearest integer to [num / den], ties to even ([num >= 0], [den > 0]). *)
Definition rne (num den : Z) : Z :=
  let q := num / den in
  let r := num mod den in
  match 2 * r ?= den with
  | Lt => q
  | Gt => q + 1
  | Eq => if Z.even q then q else q + 1
  end.

(** Exponent of the unit in the last place for a value whose binary
    exponent is [e]. *)
Definition ulp_exp (e : Z) : Z := Z.max (e - 52) (-1074).

(** The binary64 nearest to [p / q], as an integer multiple [m] of
    [2^u], for [p, q > 0]. *)
Definition round_pos (p q : Z) : Z * Z :=
  let u := ulp_exp (ilog2 p q) in
  let m := if 0 <=? u then rne p (q * 2 ^ u) else rne (p * 2 ^ (- u)) q in
  (m, u).

Definition scaled (m u : Z) : Q :=
  if 0 <=? u then inject_Z (m * 2 ^ u) else Qred (m # Z.to_pos (2 ^ (- u))).

Definition overflows (m u : Z) : bool :=
  if 0 <=? u then 2 ^ 1024 <=? m * 2 ^ u else false.

Definition fl (x : Q) : number :=
  match Qnum x with
  | Z0 => Fin 0
  | Zpos p =>
      let '(m, u) := round_pos (Zpos p) (Zpos (Qden x)) in
      if overflows m u then PInf else Fin (scaled m u)
  | Zneg p =>
      let '(m, u) := round_pos (Zpos p) (Zpos (Qden x)) in
      if overflows m u then NInf else Fin (- scaled m u)
  end.

Definition sgn_inf (positive : bool) : number := if positive then PInf else NInf.

(** [a / b] *)
Definition div (a b : number) : number :=
  match a, b with
  | NaN, _ | _, NaN => NaN
  | (PInf | NInf), (PInf | NInf) => NaN
  | PInf, Fin y => sgn_inf (Qle_bool 0 y)
  | NInf, Fin y => sgn_inf (negb (Qle_bool 0 y))
  | Fin _, (PInf | NInf) => Fin 0
  | Fin x, Fin y =>
      if Qeq_bool y 0 then
        if Qeq_bool x 0 then NaN else sgn_inf (Qle_bool 0 x)
      else fl (x / y)
  end.

(** [a * b] *)
Definition mul (a b : number) : number :=
  match a, b with
  | NaN, _ | _, NaN => NaN
  | Fin x, Fin y => fl (x * y)
  | Fin x, PInf | PInf, Fin x =>
      if Qeq_bool x 0 then NaN else sgn_inf (Qle_bool 0 x)
  | Fin x, NInf | NInf, Fin x =>
      if Qeq_bool x 0 then NaN else sgn_inf (negb (Qle_bool 0 x))
  | PInf, PInf | NInf, NInf => PInf
  | PInf, NInf | NInf, PInf => NInf
  end.

(** [a + b] *)
Definition add (a b : number) : number :=
  match a, b with
  | NaN, _ | _, NaN => NaN
  | Fin x, Fin y => fl (x + y)
  | PInf, NInf | NInf, PInf => NaN
  | PInf, _ | _, PInf => PInf
  | NInf, _ | _, NInf => NInf
  end.

Definition neg (a : number) : number :=
  match a with
  | NaN => NaN
  | PInf => NInf
  | NInf => PInf
  | Fin x => Fin (- x)
  end.

(** [a - b] *)
Definition sub (a b : number) : number := add a (neg b).

(** [a < b] *)
Definition ltb (a b : number) : bool :=
  match a, b with
  | NaN, _ | _, NaN => false
  | Fin x, Fin y => negb (Qle_bool y x)
  | NInf, (PInf | Fin _) => true
  | Fin _, PInf => true
  | _, _ => false
  end.

(** [a === b] on two numbers *)
Definition eqb (a b : number) : bool :=
  match a, b with
  | Fin x, Fin y => Qeq_bool x y
  | PInf, PInf | NInf, NInf => true
  | _, _ => false
  end.

(** [a <= b] *)
Definition leb (a b : number) : bool := ltb a b || eqb a b.

(** [a > b] *)
Definition gtb (a b : number) : bool := ltb b a.


(** [Math.floor] *)
Definition floor (a : number) : number :=
  match a with
  | Fin x => Fin (inject_Z (Qfloor x))
  | other => other
  end.

(** [Math.min(a, b)] and [Math.max(a, b)]: [NaN] if either is. *)
Definition min (a b : number) : number :=
  match a, b with
  | NaN, _ | _, NaN => NaN
  | _, _ => if ltb b a then b else a
  end.
Definition max (a b : number) : number :=
  match a, b with
  | NaN, _ | _, NaN => NaN
  | _, _ => if ltb a b then b else a
  end.

Definition of_Z (z : Z) : number := Fin (inject_Z z).

(** A number that is neither negative nor [NaN]. *)
Definition nonneg (a : number) : Prop :=
  match a with
  | Fin y => (0 <= y)%Q
  | PInf => True
  | _ => False
  end.

(** The same value, [NaN] included. *)
Definition same (a b : number) : bool :=
  match a, b with
  | NaN, NaN | PInf, PInf | NInf, NInf => true
  | Fin x, Fin y => Qeq_bool x y
  | _, _ => false
  end.

(** The standard library's specification of binary64 arithmetic
    ([SpecFloat], precision 53, maximal exponent 1024), read as a
    [number]; the model above is compared with it on the operations of
    the code. *)
Definition of_spec_float (f : spec_float) : number :=
  match f with
  | S754_zero _ => Fin 0
  | S754_infinity negative => if negative then NInf else PInf
  | S754_nan => NaN
  | S754_finite negative m e =>
      let v := if 0 <=? e then inject_Z (Zpos m * 2 ^ e)
               else Zpos m # Z.to_pos (2 ^ (- e)) in
      Fin (if negative then - v else v)
  end.

Definition spec_of_Z (z : Z) : spec_float := binary_normalize 53 1024 z 0 false.

End Float.

(* ===================================================================== *)
(** ** [parseInt(s, 16)], number-to-string and [JSON.stringify]          *)
(* ===================================================================== *)

(** Value of a hexadecimal digit, either case. *)
Definition hex_value (c : ascii) : option Z :=
  let n := Z.of_N (N_of_ascii c) in
  if (48 <=? n) && (n <=? 57) then Some (n - 48)
  else if (97 <=? n) && (n <=? 102) then Some (n - 87)
  else if (65 <=? n) && (n <=? 70) then Some (n - 55)
  else None.

(** The longest prefix of hexadecimal digits, accumulated most
    significant digit first; [None] when the prefix is empty. *)
Fixpoint hex_prefix (acc : option Z) (s : string) : option Z :=
  match s with
  | EmptyString => acc
  | String c rest =>
      match hex_value c with
      | Some d => hex_prefix (Some (default 0 acc * 16 + d)) rest
      | None => acc
      end
  end.

Definition is_white_space (c : ascii) : bool :=
  let n := Z.of_N (N_of_ascii c) in
  ((9 <=? n) && (n <=? 13)) || (n =? 32).

Fixpoint skip_white_space (s : string) : string :=
  match s with
  | String c rest => if is_white_space c then skip_white_space rest else s
  | EmptyString => s
  end.

Definition strip_0x (s : string) : string :=
  match s with
  | String "0" (String ("x" | "X") rest) => rest
  | _ => s
  end.

(** [parseInt(s, 16)]: leading white space, an optional sign and an
    optional [0x] are skipped, then the longest run of hexadecimal digits
    is read; [NaN] if there is none.  (White space is the ASCII part of
    the runtime's set; the value is exact below [2^53].) *)
Definition parseInt16 (s : string) : number :=
  let s1 := skip_white_space s in
  let '(negative, s2) :=
    match s1 with
    | String "-" rest => (true, rest)
    | String "+" rest => (false, rest)
    | _ => (false, s1)
    end in
  match hex_prefix None (strip_0x s2) with
  | None => NaN
  | Some v => Float.of_Z (if negative then - v else v)
  end.

(** The decimal digits of an integer, with a leading minus sign. *)
Definition string_of_Z (z : Z) : string := NilZero.string_of_int (Z.to_int z).

(** [10^e] for any integer [e]. *)
Definition pow10 (e : Z) : Q :=
  if 0 <=? e then inject_Z (10 ^ e) else 1 # Z.to_pos (10 ^ (- e)).

(** Number of decimal digits of a positive integer. *)
Definition digits10 (p : positive) : Z :=
  Z.of_nat (Decimal.nb_digits (Pos.to_uint p)).

(** The [n] with [10^(n-1) <= q < 10^n], for [q > 0]. *)
Definition magnitude10 (q : Q) : Z :=
  match Qnum q with
  | Zpos a =>
      let e := digits10 a - digits10 (Qden q) in
      if Qle_bool (pow10 e) q then e + 1 else e
  | _ => 0
  end.

Definition distance (a b : Q) : Q := if Qle_bool a b then b - a else a - b.

(** The integers [s] of [k] digits next to [q / 10^(n-k)] for which the
    decimal [s * 10^(n-k)] denotes the binary64 [q], each with its distance
    from [q]. *)
Definition readings (q : Q) (k n : Z) : list (Q * (Z * Z)) :=
  let below := Qfloor (q / pow10 (n - k)) in
  List.map (fun s => (distance (inject_Z s * pow10 (n - k)) q, (s, n)))
    (List.filter
       (fun s => (10 ^ (k - 1) <=? s) && (s <? 10 ^ k)
                 && Float.same (Float.fl (inject_Z s * pow10 (n - k))) (Fin q))
       [below; below + 1]).

Definition nearest (a b : Q * (Z * Z)) : Q * (Z * Z) :=
  if Qle_bool (fst a) (fst b) then a else b.

(** The digits [s] and the exponent [n] of [Number::toString]: integers
    with [s * 10^(n-k)] denoting [q] for the least number of digits [k],
    and among those the decimal nearest to [q].  17 digits are enough for
    a binary64. *)
Fixpoint shortest (q : Q) (n0 : Z) (k : Z) (fuel : nat) : Z * Z :=
  match fuel with
  | O => (Qfloor (q / pow10 (n0 - k)), n0)
  | S fuel' =>
      match readings q k (n0 - 1) ++ readings q k n0 ++ readings q k (n0 + 1) with
      | [] => shortest q n0 (k + 1) fuel'
      | r :: rs => snd (fold_left nearest rs r)
      end
  end.

Definition zeros (n : Z) : string :=
  string_of_list_ascii (List.repeat "0"%char (Z.to_nat n)).

(** [Number::toString] on a positive finite number: plain digits up to
    [1e21], a decimal point where needed, exponent notation from [1e21]
    and below [1e-6]. *)
Definition positive_to_string (q : Q) : string :=
  let n0 := magnitude10 q in
  let '(s, n) := shortest q n0 1 17 in
  let digits := string_of_Z s in
  let k := Z.of_nat (String.length digits) in
  if (k <=? n) && (n <=? 21) then (digits ++ zeros (n - k))%string
  else if (0 <? n) && (n <=? 21) then
    (substring 0 (Z.to_nat n) digits ++ "."
     ++ substring (Z.to_nat n) (Z.to_nat (k - n)) digits)%string
  else if (-6 <? n) && (n <=? 0) then ("0." ++ zeros (- n) ++ digits)%string
  else
    let e := n - 1 in
    let mantissa :=
      if k =? 1 then digits
      else (substring 0 1 digits ++ "."
            ++ substring 1 (Z.to_nat (k - 1)) digits)%string in
    let sign := if 0 <=? e then "+"%string else "-"%string in
    (mantissa ++ "e" ++ sign ++ string_of_Z (Z.abs e))%string.

(** [String(x)] and [`${x}`] for a number [x]. *)
Definition Number_toString (x : number) : string :=
  match x with
  | NaN => "NaN"
  | PInf => "Infinity"
  | NInf => "-Infinity"
  | Fin q =>
      match Qnum q with
      | Z0 => "0"
      | Zpos _ => positive_to_string q
      | Zneg _ => ("-" ++ positive_to_string (- q))%string
      end
  end.

Fixpoint join_comma (items : list string) : string :=
  match items with
  | [] => EmptyString
  | [x] => x
  | x :: rest => (x ++ "," ++ join_comma rest)%string
  end.

(** [JSON.stringify] on an array of integer-valued numbers. *)
Definition JSON_stringify (xs : list Z) : string :=
  ("[" ++ join_comma (List.map string_of_Z xs) ++ "]")%string.

(** Text without a comma, and text that is empty or starts with a comma:
    the shapes [join_comma] puts together. *)
Definition comma_free (s : string) : Prop :=
  Forall (fun c => c <> ","%char) (list_ascii_of_string s).

Definition separated (t : string) : Prop :=
  t = EmptyString \/ exists r, t = String "," r.

(* ===================================================================== *)
(** ** Values, completions                                               *)
(* ===================================================================== *)

(** Scalar values as a client can send them in an event payload. *)
Inductive jsval : Type :=
  | JUndefined : jsval
  | JNull : jsval
  | JBool (b : bool) : jsval
  | JNum (n : number) : jsval
  | JStr (s : string) : jsval.

(** A call either returns or throws. *)
Inductive completion (A : Type) : Type :=
  | Returns (a : A) : completion A
  | Throws (error : string) : completion A.
Arguments Returns {A} a.
Arguments Throws {A} error.

#[global] Instance completion_ret : MRet completion := fun A a => Returns a.
#[global] Instance completion_bind : MBind completion :=
  fun A B k c =>
    match c with
    | Returns a => k a
    | Throws e => Throws e
    end.

(* ===================================================================== *)
(** ** [server/src/utils/provableFairness.ts]                            *)
(* ===================================================================== *)

Module ProvableFairness.

(** [interface ProvablyFairResult].  [finalMultiplier] is [None] when the
    code stored [undefined] there (an array read outside its bounds). *)
Record ProvablyFairResult : Type := mkResult {
  clientSeed : string;
  serverSeed : string;
  hashedServerSeed : string;
  nonce : number;
  gameResult : number;
  path : list Z;
  finalMultiplier : option number
}.

(** [interface GameOptions].  The union ['low' | 'medium' | 'high'] of
    [riskMode] is erased at run time: the field holds whatever string the
    caller passed. *)
Record GameOptions : Type := mkOptions {
  rows : number;
  riskMode : string
}.

Inductive RiskMode : Type := low | medium | high.

Definition risk_key (r : RiskMode) : string :=
  match r with
  | low => "low"
  | medium => "medium"
  | high => "high"
  end.

(** A numeric literal of the source denotes the nearest binary64. *)
Definition lit (q : Q) : number := Float.fl q.

Definition MULTIPLIERS (r : RiskMode) : list number :=
  match r with
  | low =>
      List.map lit [1.5; 1.2; 1.1; 1; 0.9; 0.8; 0.7; 0.6; 0.5; 0.6; 0.7; 0.8;
                    0.9; 1; 1.1; 1.2; 1.5]%Q
  | medium =>
      List.map lit [5; 3; 2; 1.5; 1; 0.5; 0.3; 0.2; 0.1; 0.2; 0.3; 0.5; 1;
                    1.5; 2; 3; 5]%Q
  | high =>
      List.map lit [110; 41; 10; 5; 3; 2; 1.5; 0.5; 0.3; 0.5; 1.5; 2; 3; 5;
                    10; 41; 110]%Q
  end.

(** What [MULTIPLIERS[key]] evaluates to: one of the three own properties,
    a member inherited from [Object.prototype] (a function with its
    [length], or [__proto__], the prototype object itself), or
    [undefined]. *)
Inductive member : Type :=
  | OwnTable (table : list number) : member
  | ProtoFunction (arity : Z) : member
  | ProtoObject : member
  | Absent : member.

Definition object_prototype_arity (key : string) : option Z :=
  if decide (key ∈ ["toString"; "toLocaleString"; "valueOf"]%string)
  then Some 0
  else if decide (key ∈ ["constructor"; "hasOwnProperty"; "isPrototypeOf";
                        "propertyIsEnumerable"; "__lookupGetter__";
                        "__lookupSetter__"]%string)
  then Some 1
  else if decide (key ∈ ["__defineGetter__"; "__defineSetter__"]%string)
  then Some 2
  else None.

Definition MULTIPLIERS_get (key : string) : member :=
  if String.eqb key "low" then OwnTable (MULTIPLIERS low)
  else if String.eqb key "medium" then OwnTable (MULTIPLIERS medium)
  else if String.eqb key "high" then OwnTable (MULTIPLIERS high)
  else if String.eqb key "__proto__" then ProtoObject
  else match object_prototype_arity key with
       | Some n => ProtoFunction n
       | None => Absent
       end.

(** The first four bytes of the SHA-256 digest of [s], read as an
    unsigned big-endian 32-bit integer. *)
Definition digest_u32 (s : string) : Z :=
  let '(h0, _, _, _, _, _, _, _) := SHA256.digest (bytes_of_string s) in
  h0 mod 2 ^ 32.

(** [hashServerSeed] *)
Definition hashServerSeed (serverSeed : string) : string := sha256_hex serverSeed.

(** [deterministicRandom] *)
Definition seedData (serverSeed clientSeed : string) (nonce : number) : string :=
  (serverSeed ++ ":" ++ clientSeed ++ ":" ++ Number_toString nonce)%string.

Definition deterministicRandom (serverSeed clientSeed : string) (nonce : number)
  : number :=
  let hash := sha256_hex (seedData serverSeed clientSeed nonce) in
  let decimalValue :=
    Float.div (parseInt16 (substring 0 8 hash)) (Float.of_Z 4294967295) in
  decimalValue.

(** The length an array cannot exceed: [2^32 - 1]. *)
Definition max_array_length : Z := 4294967295.

(** Number of times the body of [for (let i = 0; i < rows; i++)] runs:
    the least whole number that is not below [rows].  The body pushes one
    entry onto [path] each time, and the push that would make the array
    longer than [2^32 - 1] throws; so does the loop for every [rows]
    above that, [Infinity] included. *)
Definition iterations (rows : number) : completion nat :=
  match rows with
  | NaN | NInf => Returns O
  | PInf => Throws "RangeError: Invalid array length"
  | Fin q =>
      if Qceiling q <=? max_array_length then Returns (Z.to_nat (Qceiling q))
      else Throws "RangeError: Invalid array length"
  end.

(** [calculatePath] *)
Definition direction_of (random : number) : Z :=
  if Float.ltb random (lit 0.5) then 0 else 1.

(** [nonce + i]: the loop counter [i] is a whole number below [2^32],
    the sum is rounded to binary64. *)
Definition counter (nonce : number) (i : nat) : number :=
  Float.add nonce (Float.of_Z (Z.of_nat i)).

Definition calculatePath (serverSeed clientSeed : string) (nonce : number)
    (rows : number) : completion (list Z) :=
  n ← iterations rows;
  Returns (List.map
             (fun i => direction_of
                         (deterministicRandom serverSeed clientSeed
                            (counter nonce i)))
             (seq 0 n)).

(** [calculateFinalBin] *)
Definition totalBins : Z := 17.

Definition calculateFinalBin (path : list Z) : number :=
  let position :=
    fold_left (fun position direction =>
                 position + (if direction =? 0 then -1 else 1)) path 0 in
  let normalizedPosition := position + Z.of_nat (List.length path) in
  let scaleFactor :=
    Float.div (Float.of_Z totalBins)
              (Float.of_Z (Z.of_nat (List.length path) * 2)) in
  Float.min (Float.floor (Float.mul (Float.of_Z normalizedPosition) scaleFactor))
            (Float.of_Z (totalBins - 1)).

(** The body of the loop of [calculateFinalBin]. *)
Definition walk (position direction : Z) : Z :=
  position + (if direction =? 0 then -1 else 1).

(** The signed offset of a path of [0] (left) and [1] (right) decisions:
    [+1] for each right, [-1] for each left. *)
Definition offset (path : list Z) : Z :=
  Z.of_nat (count_occ Z.eq_dec path 1) - Z.of_nat (count_occ Z.eq_dec path 0).

(** Clamping into [[lo, hi]]. *)
Definition clamp (lo hi : Z) (x : number) : number :=
  Float.max (Float.of_Z lo) (Float.min x (Float.of_Z hi)).

(** [multipliers.length - 1] and [multipliers[index]] for the value found
    under [MULTIPLIERS[options.riskMode]]. *)
Definition length_minus_1 (multipliers : member) : completion number :=
  match multipliers with
  | OwnTable t => Returns (Float.of_Z (Z.of_nat (List.length t) - 1))
  | ProtoFunction n => Returns (Float.of_Z (n - 1))
  | ProtoObject => Returns NaN
  | Absent =>
      Throws "TypeError: Cannot read properties of undefined (reading 'length')"
  end.

Definition index_read (multipliers : member) (index : number) : option number :=
  match multipliers, index with
  | OwnTable t, Fin q =>
      if Qeq_bool q (inject_Z (Qfloor q)) && (0 <=? Qfloor q)
      then nth_error t (Z.to_nat (Qfloor q))
      else None
  | _, _ => None
  end.

(** Lines 100-105 of [calculateGameResult]: the payout resolution. *)
Definition multiplierIndex (multipliers : member) (finalBin : number)
  : completion number :=
  last_index ← length_minus_1 multipliers;
  Returns (Float.min (Float.max (Float.of_Z 0) finalBin) last_index).

Definition resolveMultiplier (riskMode : string) (finalBin : number)
  : completion (option number) :=
  let multipliers := MULTIPLIERS_get riskMode in
  index ← multiplierIndex multipliers finalBin;
  Returns (index_read multipliers index).

(** [calculateGameResult] *)
Definition calculateGameResult (serverSeed clientSeed : string) (nonce : number)
    (options : GameOptions) : completion ProvablyFairResult :=
  path ← calculatePath serverSeed clientSeed nonce (rows options);
  let finalBin := calculateFinalBin path in
  finalMultiplier ← resolveMultiplier (riskMode options) finalBin;
  Returns {| clientSeed := clientSeed;
             serverSeed := serverSeed;
             hashedServerSeed := hashServerSeed serverSeed;
             nonce := nonce;
             gameResult := finalBin;
             path := path;
             finalMultiplier := finalMultiplier |}.

(** [a === b] where each side is a number or [undefined]. *)
Definition strict_eq_opt (a b : option number) : bool :=
  match a, b with
  | None, None => true
  | Some x, Some y => Float.eqb x y
  | _, _ => false
  end.

(** [verifyGameResult] *)
Definition verifyGameResult (serverSeed clientSeed : string) (nonce : number)
    (options : GameOptions) (reportedResult : ProvablyFairResult)
  : completion bool :=
  expectedResult ← calculateGameResult serverSeed clientSeed nonce options;
  Returns (Float.eqb (gameResult expectedResult) (gameResult reportedResult)
           && strict_eq_opt (finalMultiplier expectedResult)
                            (finalMultiplier reportedResult)
           && String.eqb (JSON_stringify (path expectedResult))
                         (JSON_stringify (path reportedResult))).



(** A finite number above zero. *)
Definition positive_finite (a : number) : bool :=
  match a with
  | Fin q => negb (Qle_bool q 0)
  | _ => false
  end.

End ProvableFairness.

(* ===================================================================== *)
(** ** [app/utils/plinkoService.ts]                                      *)
(* ===================================================================== *)

Module PlinkoService.

Import ProvableFairness.

(** The client's copy of the tables ([export const MULTIPLIERS]). *)
Definition MULTIPLIERS (r : RiskMode) : list number :=
  match r with
  | low =>
      List.map lit [1.5; 1.2; 1.1; 1; 0.9; 0.8; 0.7; 0.6; 0.5; 0.6; 0.7;
                    0.8; 0.9; 1; 1.1; 1.2; 1.5]%Q
  | medium =>
      List.map lit [5; 3; 2; 1.5; 1; 0.5; 0.3; 0.2; 0.1; 0.2; 0.3; 0.5; 1;
                    1.5; 2; 3; 5]%Q
  | high =>
      List.map lit [110; 41; 10; 5; 3; 2; 1.5; 0.5; 0.3; 0.5; 1.5; 2; 3;
                    5; 10; 41; 110]%Q
  end.

Section Listeners.

(** [private listeners: Map<string, ((data: any) => void)[]>].  Callbacks
    are compared by identity ([indexOf] uses [===]); [callback] is the
    type of these identities. *)
Context {callback : Type} `{EqDecision callback}.

(** [callbacks.indexOf(callback)]: the first index that holds it, or
    [-1]. *)
Fixpoint indexOf (x : callback) (callbacks : list callback) : Z :=
  match callbacks with
  | [] => -1
  | y :: rest =>
      if decide (y = x) then 0
      else let i := indexOf x rest in if i =? -1 then -1 else i + 1
  end.

(** [callbacks.splice(index, 1)] for an index that [indexOf] found. *)
Definition splice1 (index : Z) (callbacks : list callback) : list callback :=
  firstn (Z.to_nat index) callbacks ++ skipn (S (Z.to_nat index)) callbacks.

(** [on(event, callback)] *)
Definition on (event : string) (cb : callback)
    (listeners : gmap string (list callback)) : gmap string (list callback) :=
  let callbacks := default [] (listeners !! event) in
  <[event := callbacks ++ [cb]]> listeners.

(** [off(event, callback)] *)
Definition off (event : string) (cb : callback)
    (listeners : gmap string (list callback)) : gmap string (list callback) :=
  let callbacks := default [] (listeners !! event) in
  let index := indexOf cb callbacks in
  if negb (index =? -1) then <[event := splice1 index callbacks]> listeners
  else listeners.

(** [this.listeners.get(event) || []]: the callbacks registered for an
    event. *)
Definition registered (event : string)
    (listeners : gmap string (list callback)) : list callback :=
  default [] (listeners !! event).

(** What a callback does to the registry while it runs: calls of [on]
    and [off], in order. *)
Inductive call : Type :=
  | call_on (event : string) (cb : callback)
  | call_off (event : string) (cb : callback).

Definition run_call (c : call) (listeners : gmap string (list callback))
  : gmap string (list callback) :=
  match c with
  | call_on event cb => on event cb listeners
  | call_off event cb => off event cb listeners
  end.

Definition run_calls (calls : list call)
    (listeners : gmap string (list callback)) : gmap string (list callback) :=
  fold_left (fun m c => run_call c m) calls listeners.

(** [callbacks.forEach(callback => callback(data))] from index [k] on,
    with [steps] indices left to visit.  [forEach] fixes the number of
    indices when it starts and reads the array again at each index; [on]
    and [off] change that very array in place, so the entry it finds at
    [k] is the one the registry holds then, and an index the array no
    longer has is passed over.  [does] gives the calls each callback
    makes (callbacks return normally). *)
Fixpoint forEach_from (event : string) (does : callback -> list call)
    (steps k : nat) (listeners : gmap string (list callback))
  : list callback * gmap string (list callback) :=
  match steps with
  | O => ([], listeners)
  | S steps' =>
      match nth_error (registered event listeners) k with
      | Some cb =>
          let '(called, final) :=
            forEach_from event does steps' (S k)
              (run_calls (does cb) listeners) in
          (cb :: called, final)
      | None => forEach_from event does steps' (S k) listeners
      end
  end.

(** [notifyListeners(event, data)]: the callbacks it calls with [data],
    in the order of the calls, and the registry afterwards. *)
Definition notifyListeners (event : string) (does : callback -> list call)
    (listeners : gmap string (list callback))
  : list callback * gmap string (list callback) :=
  forEach_from event does (List.length (registered event listeners)) 0
    listeners.

(** The component's effect registers its handlers one after the other
    and its cleanup unregisters them in the same order. *)
Definition on_all (registrations : list (string * callback))
    (listeners : gmap string (list callback)) : gmap string (list callback) :=
  fold_left (fun m r => on (fst r) (snd r) m) registrations listeners.

Definition off_all (registrations : list (string * callback))
    (listeners : gmap string (list callback)) : gmap string (list callback) :=
  fold_left (fun m r => off (fst r) (snd r) m) registrations listeners.

End Listeners.

End PlinkoService.

(* ===================================================================== *)
(** ** [server/src/index.ts]: the socket handlers                        *)
(* ===================================================================== *)

Module Server.

Import ProvableFairness.

(** [interface UserState] *)
Record UserState : Type := mkUserState {
  serverSeed : string;
  clientSeed : string;
  nonce : number;
  balance : number
}.

(** The payload of [game:play], destructured as
    [const { betAmount, riskMode, rows } = data].  [riskMode], when
    present, is a string. *)
Record PlayData : Type := mkPlayData {
  betAmount : jsval;
  riskMode : option string;
  rows : jsval
}.

(** What a handler sends with [socket.emit]. *)
Inductive emit : Type :=
  | game_init (hashedServerSeed clientSeed : string) (balance : number)
  | game_reveal_seed (serverSeed : string)
  | game_new_seed_hashed (hashedServerSeed : string)
  | game_new_seed_client (clientSeed : string)
  | game_error (message : string)
  | game_result (result : ProvablyFairResult) (betAmount : jsval)
                (winAmount balance : number).

(** The effect of one handler call: the [userStates] map afterwards, the
    events emitted in order, and the exception that ended the call, if
    any. *)
Record outcome : Type := mkOutcome {
  userStates : gmap string UserState;
  emitted : list emit;
  thrown : option string
}.

Definition truthy (v : jsval) : bool :=
  match v with
  | JUndefined | JNull => false
  | JBool b => b
  | JNum NaN => false
  | JNum (Fin q) => negb (Qeq_bool q 0)
  | JNum _ => true
  | JStr s => negb (String.eqb s "")
  end.

(** [a || b] *)
Definition or_else (a b : jsval) : jsval := if truthy a then a else b.

Section Handlers.

(** The runtime's conversion of a string to a number
    ([StringToNumber] of ECMA-262), kept abstract. *)
Variable StringToNumber : string -> number.

Definition ToNumber (v : jsval) : number :=
  match v with
  | JUndefined => NaN
  | JNull => Float.of_Z 0
  | JBool b => Float.of_Z (if b then 1 else 0)
  | JNum n => n
  | JStr s => StringToNumber s
  end.

(** [io.on('connection', ...)]: the two seeds are what
    [generateServerSeed()] and [generateClientSeed()] returned. *)
Definition on_connection (id : string) (serverSeed clientSeed : string)
    (states : gmap string UserState) : outcome :=
  {| userStates :=
       <[id := {| serverSeed := serverSeed; clientSeed := clientSeed;
                  nonce := Float.of_Z 0; balance := Float.of_Z 1000 |}]> states;
     emitted := [game_init (hashServerSeed serverSeed) clientSeed
                           (Float.of_Z 1000)];
     thrown := None |}.

(** [socket.on('game:new-server-seed', ...)]; [newServerSeed] is what
    [generateServerSeed()] returns in this call. *)
Definition on_new_server_seed (id : string) (newServerSeed : string)
    (states : gmap string UserState) : outcome :=
  match states !! id with
  | Some userState =>
      {| userStates :=
           <[id := {| serverSeed := newServerSeed;
                      clientSeed := clientSeed userState;
                      nonce := Float.of_Z 0;
                      balance := balance userState |}]> states;
         emitted := [game_reveal_seed (serverSeed userState);
                     game_new_seed_hashed (hashServerSeed newServerSeed)];
         thrown := None |}
  | None => {| userStates := states; emitted := []; thrown := None |}
  end.

(** [socket.on('game:new-client-seed', ...)]; [data_clientSeed] is
    [data.clientSeed] ([None] when absent), [generated] is what
    [generateClientSeed()] returns if it is called. *)
Definition on_new_client_seed (id : string) (data_clientSeed : option string)
    (generated : string) (states : gmap string UserState) : outcome :=
  match states !! id with
  | Some userState =>
      let newClientSeed :=
        match data_clientSeed with
        | Some s => if String.eqb s "" then generated else s
        | None => generated
        end in
      {| userStates :=
           <[id := {| serverSeed := serverSeed userState;
                      clientSeed := newClientSeed;
                      nonce := Float.of_Z 0;
                      balance := balance userState |}]> states;
         emitted := [game_new_seed_client newClientSeed];
         thrown := None |}
  | None => {| userStates := states; emitted := []; thrown := None |}
  end.

(** The guard of [game:play]:
    [betAmount <= 0 || betAmount > userState.balance]. *)
Definition bet_rejected (betAmount : jsval) (userState : UserState) : bool :=
  Float.leb (ToNumber betAmount) (Float.of_Z 0)
  || Float.gtb (ToNumber betAmount) (balance userState).

(** [{ rows: rows || 16, riskMode: riskMode || 'medium' }]; the only use
    of [options.rows] is the comparison [i < rows], which converts it
    to a number. *)
Definition gameOptions (data : PlayData) : GameOptions :=
  {| ProvableFairness.rows := ToNumber (or_else (rows data) (JNum (Float.of_Z 16)));
     ProvableFairness.riskMode :=
       match riskMode data with
       | Some s => if String.eqb s "" then "medium" else s
       | None => "medium"
       end |}.

(** [socket.on('game:play', ...)] *)
Definition on_play (id : string) (data : PlayData)
    (states : gmap string UserState) : outcome :=
  match states !! id with
  | None =>
      {| userStates := states;
         emitted := [game_error "User state not found"];
         thrown := None |}
  | Some userState =>
      if bet_rejected (betAmount data) userState then
        {| userStates := states;
           emitted := [game_error "Invalid bet amount or insufficient balance"];
           thrown := None |}
      else
        match calculateGameResult (serverSeed userState)
                (clientSeed userState) (nonce userState)
                (gameOptions data) with
        | Throws e =>
            {| userStates := states; emitted := []; thrown := Some e |}
        | Returns result =>
            let winAmount :=
              Float.mul (ToNumber (betAmount data))
                        (default NaN (finalMultiplier result)) in
            let newBalance :=
              Float.add (Float.sub (balance userState)
                                   (ToNumber (betAmount data)))
                        winAmount in
            {| userStates :=
                 <[id := {| serverSeed := serverSeed userState;
                            clientSeed := clientSeed userState;
                            nonce := Float.add (nonce userState)
                                               (Float.of_Z 1);
                            balance := newBalance |}]> states;
               emitted := [game_result result (betAmount data) winAmount
                                       newBalance];
               thrown := None |}
        end
  end.

(** [socket.on('disconnect', ...)] *)
Definition on_disconnect (id : string) (states : gmap string UserState)
  : outcome :=
  {| userStates := delete id states; emitted := []; thrown := None |}.

(** The handlers called without a payload ([data] is [undefined]):
    [game:play] destructures [data] once it has found the state,
    [game:new-client-seed] reads [data.clientSeed] once it has found the
    state; both throw there. *)
Definition on_play_without_payload (id : string)
    (states : gmap string UserState) : outcome :=
  match states !! id with
  | None =>
      {| userStates := states;
         emitted := [game_error "User state not found"];
         thrown := None |}
  | Some _ =>
      {| userStates := states; emitted := [];
         thrown :=
           Some "TypeError: Cannot destructure property 'betAmount' of 'data' as it is undefined." |}
  end.

Definition on_new_client_seed_without_payload (id : string)
    (states : gmap string UserState) : outcome :=
  match states !! id with
  | None => {| userStates := states; emitted := []; thrown := None |}
  | Some _ =>
      {| userStates := states; emitted := [];
         thrown :=
           Some "TypeError: Cannot read properties of undefined (reading 'clientSeed')" |}
  end.

(** Requests of one connection, each with the entropy the handler
    draws while serving it; [data] is [None] when the event came without
    a payload. *)
Inductive request : Type :=
  | NewServerSeed (newServerSeed : string)
  | NewClientSeed (data : option (option string)) (generated : string)
  | Play (data : option PlayData).

Definition handle (id : string) (r : request)
    (states : gmap string UserState) : outcome :=
  match r with
  | NewServerSeed s => on_new_server_seed id s states
  | NewClientSeed (Some d) g => on_new_client_seed id d g states
  | NewClientSeed None _ => on_new_client_seed_without_payload id states
  | Play (Some data) => on_play id data states
  | Play None => on_play_without_payload id states
  end.

(** The requests of connection [id] served one after the other: the
    [userStates] map at the end and the events of all calls in order.
    No handler catches an exception and the process has no handler for
    uncaught ones: a call that throws ends the process, the map is gone
    ([None]) and nothing is served after it. *)
Fixpoint serve (id : string) (rs : list request)
    (states : gmap string UserState)
  : option (gmap string UserState) * list emit :=
  match rs with
  | [] => (Some states, [])
  | r :: rest =>
      let o := handle id r states in
      match thrown o with
      | Some _ => (None, emitted o)
      | None =>
          let '(final, later) := serve id rest (userStates o) in
          (final, emitted o ++ later)
      end
  end.

(** The [(serverSeed, clientSeed, nonce)] triples of the plays that
    were resolved, read off the [game:result] events. *)
Definition triple_of (e : emit) : option (string * string * number) :=
  match e with
  | game_result r _ _ _ =>
      Some (ProvableFairness.serverSeed r, ProvableFairness.clientSeed r,
            ProvableFairness.nonce r)
  | _ => None
  end.

Definition triples_used (es : list emit) : list (string * string * number) :=
  omap triple_of es.

(** The pair of seeds a request that changes a seed installs in a
    session that holds [seeds], and the pairs a list of requests installs
    one after the other. *)
Definition seeds_after (r : request) (seeds : string * string)
  : option (string * string) :=
  match r with
  | NewServerSeed s => Some (s, snd seeds)
  | NewClientSeed (Some d) g =>
      Some (fst seeds,
            match d with
            | Some s => if String.eqb s "" then g else s
            | None => g
            end)
  | _ => None
  end.

Fixpoint seeds_installed (rs : list request) (seeds : string * string)
  : list (string * string) :=
  match rs with
  | [] => []
  | r :: rest =>
      match seeds_after r seeds with
      | Some next => next :: seeds_installed rest next
      | None => seeds_installed rest seeds
      end
  end.

End Handlers.

End Server.

(* ===================================================================== *)
(** ** Sample inputs                                                     *)
(* ===================================================================== *)

(** The seeds of the reference scenario: ["0".repeat(64)] and
    ["1".repeat(32)]. *)
Definition zeros64 : string :=
  "0000000000000000000000000000000000000000000000000000000000000000".
Definition ones32 : string := "11111111111111111111111111111111".

(** Options as the type [GameOptions] declares them: an integer row count
    and one of the three risk modes. *)
Definition typed_options (rowCount : Z) (risk : ProvableFairness.RiskMode)
  : ProvableFairness.GameOptions :=
  {| ProvableFairness.rows := Float.of_Z rowCount;
     ProvableFairness.riskMode := ProvableFairness.risk_key risk |}.

(** The path [calculatePath] computes for an integer row count. *)
Definition path_of (serverSeed clientSeed : string) (nonce : number)
    (rowCount : Z) : list Z :=
  List.map (fun i => ProvableFairness.direction_of
                       (ProvableFairness.deterministicRandom serverSeed clientSeed
                          (ProvableFairness.counter nonce i)))
           (seq 0 (Z.to_nat rowCount)).

(** The [userStates] map right after one client connected and drew the
    two seeds above. *)
Definition one_session : gmap string Server.UserState :=
  Server.userStates (Server.on_connection "socket-1" zeros64 ones32 ∅).

(** A play of 10 on 8 rows at medium risk, all fields present. *)
Definition bet_10 : Server.PlayData :=
  {| Server.betAmount := JNum (Float.of_Z 10);
     Server.riskMode := Some "medium"%string;
     Server.rows := JNum (Float.of_Z 8) |}.

(** The string conversion for payloads that hold no string in a numeric
    field: it is never consulted on them. *)
Definition StringToNumber_unused (s : string) : number := NaN.

(** The state [one_session] holds for that client. *)
Definition session_start : Server.UserState :=
  {| Server.serverSeed := zeros64;
     Server.clientSeed := ones32;
     Server.nonce := Float.of_Z 0;
     Server.balance := Float.of_Z 1000 |}.

(** What [calculateGameResult] returns in the reference scenario (8 rows,
    medium risk, nonce 0). *)
Definition scenario_result : ProvableFairness.ProvablyFairResult :=
  {| ProvableFairness.clientSeed := ones32;
     ProvableFairness.serverSeed := zeros64;
     ProvableFairness.hashedServerSeed :=
       "60e05bd1b195af2f94112fa7197a5c88289058840ce7c6df9693756bc6250f55";
     ProvableFairness.nonce := Float.of_Z 0;
     ProvableFairness.gameResult := Float.of_Z 4;
     ProvableFairness.path := [0; 0; 0; 0; 1; 0; 0; 1];
     ProvableFairness.finalMultiplier := Some (Float.of_Z 1) |}.

(** What it returns for the same seeds with [rows = 0]. *)
Definition zero_rows_result : ProvableFairness.ProvablyFairResult :=
  {| ProvableFairness.clientSeed := ones32;
     ProvableFairness.serverSeed := zeros64;
     ProvableFairness.hashedServerSeed :=
       "60e05bd1b195af2f94112fa7197a5c88289058840ce7c6df9693756bc6250f55";
     ProvableFairness.nonce := Float.of_Z 0;
     ProvableFairness.gameResult := NaN;
     ProvableFairness.path := [];
     ProvableFairness.finalMultiplier := None |}.

(** What the play of [no_rows] below returns: 16 rows, medium risk,
    nonce 0. *)
Definition no_rows_result : ProvableFairness.ProvablyFairResult :=
  {| ProvableFairness.clientSeed := ones32;
     ProvableFairness.serverSeed := zeros64;
     ProvableFairness.hashedServerSeed :=
       "60e05bd1b195af2f94112fa7197a5c88289058840ce7c6df9693756bc6250f55";
     ProvableFairness.nonce := Float.of_Z 0;
     ProvableFairness.gameResult := Float.of_Z 6;
     ProvableFairness.path := [0; 0; 0; 0; 1; 0; 0; 1; 1; 0; 1; 1; 0; 0; 0; 1];
     ProvableFairness.finalMultiplier := Some (ProvableFairness.lit 0.3) |}.

(** A play request without [betAmount]. *)
Definition no_bet : Server.PlayData :=
  {| Server.betAmount := JUndefined;
     Server.riskMode := Some "medium"%string;
     Server.rows := JNum (Float.of_Z 8) |}.

(** A play request that stakes more than the starting balance. *)
Definition bet_2000 : Server.PlayData :=
  {| Server.betAmount := JNum (Float.of_Z 2000);
     Server.riskMode := Some "medium"%string;
     Server.rows := JNum (Float.of_Z 8) |}.

(** Play requests without [rows], without [riskMode], and with a risk tier
    the tables do not have. *)
Definition no_rows : Server.PlayData :=
  {| Server.betAmount := JNum (Float.of_Z 10);
     Server.riskMode := Some "medium"%string;
     Server.rows := JUndefined |}.

Definition no_riskMode : Server.PlayData :=
  {| Server.betAmount := JNum (Float.of_Z 10);
     Server.riskMode := None;
     Server.rows := JNum (Float.of_Z 8) |}.

Definition extreme_risk : Server.PlayData :=
  {| Server.betAmount := JNum (Float.of_Z 10);
     Server.riskMode := Some "extreme"%string;
     Server.rows := JNum (Float.of_Z 8) |}.

(* ===================================================================== *)
(** ** Seed generation and text formats                                  *)
(* ===================================================================== *)

(** [buffer.toString('hex')]: two lower-case digits per byte. *)
Fixpoint hex_of_bytes (bytes : list Z) : string :=
  match bytes with
  | [] => EmptyString
  | b :: rest => (hex_nibbles 2 b ++ hex_of_bytes rest)%string
  end.

(** [generateServerSeed] and [generateClientSeed]; [drawn] is what
    [crypto.randomBytes(32)], respectively [crypto.randomBytes(16)],
    returned in the call. *)
Definition generateServerSeed (drawn : list Z) : string := hex_of_bytes drawn.
Definition generateClientSeed (drawn : list Z) : string := hex_of_bytes drawn.

(** A draw of [n] bytes. *)
Definition random_bytes (n : nat) (drawn : list Z) : Prop :=
  List.length drawn = n /\ Forall (fun b => 0 <= b < 256) drawn.

(** The characters [0-9a-f]. *)
Definition lower_hex (c : ascii) : bool :=
  let n := Z.of_N (N_of_ascii c) in
  ((48 <=? n) && (n <=? 57)) || ((97 <=? n) && (n <=? 102)).

Definition lower_hex_text (s : string) : Prop :=
  Forall (fun c => lower_hex c = true) (list_ascii_of_string s).

(** Text without a colon, the delimiter of the hashed message. *)
Definition colon_free (s : string) : Prop :=
  Forall (fun c => c <> ":"%char) (list_ascii_of_string s).

(* ===================================================================== *)
(** ** Paths                                                             *)
(* ===================================================================== *)

(** Number of steps to the right: [calculateFinalBin] treats every
    direction other than [0] as one. *)
Definition rights (path : list Z) : Z :=
  Z.of_nat (List.length (List.filter (fun d => negb (d =? 0)) path)).

(** The path with left and right exchanged. *)
Definition mirror (path : list Z) : list Z :=
  List.map (fun d => if d =? 0 then 1 else 0) path.

(** The bin [calculateFinalBin] computes for a path of [len] steps of
    which [k] go right: the normalised position is [2 * k]. *)
Definition scaled_bin (len k : Z) : number :=
  Float.min
    (Float.floor
       (Float.mul (Float.of_Z (2 * k))
          (Float.div (Float.of_Z 17) (Float.of_Z (len * 2)))))
    (Float.of_Z 16).

(** The row counts the game offers. *)
Definition offered_rows (n : Z) : Prop := n = 8 \/ n = 12 \/ n = 16.


(* ===================================================================== *)
(** ** What a client can check on the events of its connection          *)
(* ===================================================================== *)

(** The events of a connection respect the published commitments:
    [published] is the last [hashedServerSeed] announced ([game:init] or
    [game:new-seed]); a revealed seed must hash to it, and a result must
    carry it and be derived from a seed that hashes to it. *)
Fixpoint commitments_honoured (published : option string)
    (events : list Server.emit) : Prop :=
  match events with
  | [] => True
  | Server.game_init h _ _ :: rest => commitments_honoured (Some h) rest
  | Server.game_new_seed_hashed h :: rest => commitments_honoured (Some h) rest
  | Server.game_reveal_seed s :: rest =>
      published = Some (ProvableFairness.hashServerSeed s)
      /\ commitments_honoured published rest
  | Server.game_result r _ _ _ :: rest =>
      published = Some (ProvableFairness.hashedServerSeed r)
      /\ ProvableFairness.hashedServerSeed r
         = ProvableFairness.hashServerSeed (ProvableFairness.serverSeed r)
      /\ commitments_honoured published rest
  | _ :: rest => commitments_honoured published rest
  end.

(** A play request as the client's types declare it: a finite
    [betAmount], [rows] absent or an integer of at least 1, [riskMode]
    absent or one of the three modes. *)
Definition well_typed_play (data : Server.PlayData) : Prop :=
  (exists b, Server.betAmount data = JNum (Fin b))
  /\ (Server.rows data = JUndefined
      \/ exists r, 1 <= r /\ Server.rows data = JNum (Float.of_Z r))
  /\ (Server.riskMode data = None
      \/ exists risk,
           Server.riskMode data = Some (ProvableFairness.risk_key risk)).

(** The row count of a play request, when it is an integer, is one the
    path array can hold. *)
Definition rows_fit (data : Server.PlayData) : Prop :=
  forall r, Server.rows data = JNum (Float.of_Z r) ->
            r <= ProvableFairness.max_array_length.




(* ===================================================================== *)
(** ** [app/components/plinko/PlinkoGameClient.tsx]: the state handlers  *)
(* ===================================================================== *)

Module PlinkoGameClient.

(** An entry of [gameHistory]: the payload of a [game:result] event with
    the [timestamp] added on receipt. *)
Record HistoryEntry : Type := mkHistoryEntry {
  entry_result : ProvableFairness.ProvablyFairResult;
  entry_betAmount : jsval;
  entry_winAmount : number;
  entry_balance : number;
  timestamp : Z
}.

(** [interface GameState]; [nonce] is never set. *)
Record GameState : Type := mkGameState {
  clientSeed : string;
  hashedServerSeed : string;
  serverSeed : option string;
  balance : number;
  isPlaying : bool;
  gameHistory : list HistoryEntry
}.

(** [a || b] on an optional string: [b] when [a] is absent or empty. *)
Definition or_string (a : option string) (b : string) : string :=
  match a with
  | Some s => if String.eqb s "" then b else s
  | None => b
  end.

(** [array.slice(-n)]: the last [n] elements. *)
Definition slice_last {A : Type} (n : nat) (l : list A) : list A :=
  skipn (List.length l - n) l.

(** The state [connect()] resolves with on [game:init], which the
    component installs with [setGameState(initialState)]. *)
Definition initialState (hashed client : string) (bal : number) : GameState :=
  {| clientSeed := client; hashedServerSeed := hashed; serverSeed := None;
     balance := bal; isPlaying := false; gameHistory := [] |}.

(** The state update of [handleGameResult]; [now] is [Date.now()]. *)
Definition handleGameResult (now : Z)
    (result : ProvableFairness.ProvablyFairResult) (bet : jsval)
    (win bal : number) (prev : GameState) : GameState :=
  match ProvableFairness.path result with
  | [] => prev
  | _ :: _ =>
      {| clientSeed := clientSeed prev;
         hashedServerSeed := hashedServerSeed prev;
         serverSeed := serverSeed prev;
         balance := bal;
         isPlaying := true;
         gameHistory :=
           slice_last 99 (gameHistory prev)
           ++ [{| entry_result := result; entry_betAmount := bet;
                  entry_winAmount := win; entry_balance := bal;
                  timestamp := now |}] |}
  end.

(** [handleGameError] *)
Definition handleGameError (prev : GameState) : GameState :=
  {| clientSeed := clientSeed prev;
     hashedServerSeed := hashedServerSeed prev;
     serverSeed := serverSeed prev;
     balance := balance prev;
     isPlaying := false;
     gameHistory := gameHistory prev |}.

(** [handleNewSeed] *)
Definition handleNewSeed (data_hashedServerSeed data_clientSeed : option string)
    (prev : GameState) : GameState :=
  {| clientSeed := or_string data_clientSeed (clientSeed prev);
     hashedServerSeed := or_string data_hashedServerSeed (hashedServerSeed prev);
     serverSeed := serverSeed prev;
     balance := balance prev;
     isPlaying := isPlaying prev;
     gameHistory := gameHistory prev |}.

(** [handleRevealSeed] *)
Definition handleRevealSeed (data_serverSeed : string) (prev : GameState)
  : GameState :=
  {| clientSeed := clientSeed prev;
     hashedServerSeed := hashedServerSeed prev;
     serverSeed := Some data_serverSeed;
     balance := balance prev;
     isPlaying := isPlaying prev;
     gameHistory := gameHistory prev |}.

(** What the component does to its [gameState] on an event of the
    server, through the service's socket listeners and the handlers it
    registered.  It registers none for [game:init]: the first one settles
    the promise of [connect()], a later one finds it settled. *)
Definition receive (now : Z) (e : Server.emit) (prev : GameState) : GameState :=
  match e with
  | Server.game_init _ _ _ => prev
  | Server.game_reveal_seed s => handleRevealSeed s prev
  | Server.game_new_seed_hashed hashed => handleNewSeed (Some hashed) None prev
  | Server.game_new_seed_client client => handleNewSeed None (Some client) prev
  | Server.game_error _ => handleGameError prev
  | Server.game_result result bet win bal =>
      handleGameResult now result bet win bal prev
  end.

(** Events delivered in order, each with the time of its receipt. *)
Definition deliver (feed : list (Z * Server.emit)) (st : GameState) : GameState :=
  fold_left (fun st timed => receive (fst timed) (snd timed) st) feed st.

(** The history entries the events of a feed give rise to: one for each
    result with a path that is not empty. *)
Definition entry_of (timed : Z * Server.emit) : option HistoryEntry :=
  match snd timed with
  | Server.game_result result bet win bal =>
      match ProvableFairness.path result with
      | [] => None
      | _ :: _ =>
          Some {| entry_result := result; entry_betAmount := bet;
                  entry_winAmount := win; entry_balance := bal;
                  timestamp := fst timed |}
      end
  | _ => None
  end.

End PlinkoGameClient.



(* ===================================================================== *)
(** ** Further sample inputs                                             *)
(* ===================================================================== *)

(** What the second play of the reference scenario returns (8 rows,
    medium risk, nonce 1). *)
Definition second_result : ProvableFairness.ProvablyFairResult :=
  {| ProvableFairness.clientSeed := ones32;
     ProvableFairness.serverSeed := zeros64;
     ProvableFairness.hashedServerSeed :=
       "60e05bd1b195af2f94112fa7197a5c88289058840ce7c6df9693756bc6250f55";
     ProvableFairness.nonce := Float.of_Z 1;
     ProvableFairness.gameResult := Float.of_Z 6;
     ProvableFairness.path := [0; 0; 0; 1; 0; 0; 1; 1];
     ProvableFairness.finalMultiplier := Some (ProvableFairness.lit 0.3) |}.

(** The events of the two plays, with times of receipt. *)
Definition scenario_feed : list (Z * Server.emit) :=
  [(1700000000000,
    Server.game_result scenario_result (JNum (Float.of_Z 10))
      (Float.of_Z 10) (Float.of_Z 1000));
   (1700000000200,
    Server.game_result second_result (JNum (Float.of_Z 10))
      (Float.of_Z 3) (Float.of_Z 993))].

(** The registrations of the component's effect, the handlers numbered
    in the order of their declaration. *)
Definition effect_registrations : list (string * nat) :=
  [("game:result"%string, 0%nat); ("game:error"%string, 1%nat);
   ("game:new-seed"%string, 2%nat); ("game:reveal-seed"%string, 3%nat);
   ("disconnect"%string, 4%nat)].

(* ===================================================================== *)
(** * Properties                                                        *)
(* ===================================================================== *)

(** ** Facts about the number model *)

Module FloatFacts.

Import Float.

Lemma Qle_bool_inject_Z (a b : Z) :
  Qle_bool (inject_Z a) (inject_Z b) = (a <=? b).
Proof. unfold Qle_bool; simpl. now rewrite !Z.mul_1_r. Qed.

Lemma Qeq_bool_inject_Z (a b : Z) :
  Qeq_bool (inject_Z a) (inject_Z b) = (a =? b).
Proof. unfold Qeq_bool; simpl. now rewrite !Z.mul_1_r. Qed.

Lemma ltb_of_Z (a b : Z) : ltb (of_Z a) (of_Z b) = (a <? b).
Proof.
  unfold ltb, of_Z. rewrite Qle_bool_inject_Z.
  rewrite Z.ltb_antisym. reflexivity.
Qed.

Lemma eqb_of_Z (a b : Z) : eqb (of_Z a) (of_Z b) = (a =? b).
Proof. apply Qeq_bool_inject_Z. Qed.

Lemma max_of_Z (a b : Z) : max (of_Z a) (of_Z b) = of_Z (Z.max a b).
Proof.
  unfold max. unfold of_Z at 1 2. fold (of_Z a). fold (of_Z b). rewrite ltb_of_Z.
  destruct (Z.ltb_spec a b); f_equal; lia.
Qed.

Lemma min_of_Z (a b : Z) : min (of_Z a) (of_Z b) = of_Z (Z.min a b).
Proof.
  unfold min. unfold of_Z at 1 2. fold (of_Z a). fold (of_Z b). rewrite ltb_of_Z.
  destruct (Z.ltb_spec b a); f_equal; lia.
Qed.

Lemma floor_of_Z (a : Z) : floor (of_Z a) = of_Z a.
Proof. unfold floor, of_Z. now rewrite Qfloor_Z. Qed.

(** *** Rounding to the nearest integer *)

Lemma rne_nonneg (num den : Z) : 0 <= num -> 0 < den -> 0 <= rne num den.
Proof.
  intros Hn Hd. unfold rne.
  assert (0 <= num / den) by (apply Z.div_pos; lia).
  destruct (2 * (num mod den) ?= den); [destruct (Z.even _)|..]; lia.
Qed.

Lemma rne_le (num den k : Z) : 0 < den -> num <= k * den -> rne num den <= k.
Proof.
  intros Hd Hk. unfold rne.
  pose proof (Z.div_mod num den ltac:(lia)) as E.
  pose proof (Z.mod_pos_bound num den Hd) as B.
  assert (num / den <= k) by nia.
  assert (num / den = k -> num mod den = 0) by nia.
  destruct (Z.compare_spec (2 * (num mod den)) den);
    [destruct (Z.even _)|..]; nia.
Qed.

Lemma rne_half_above (num den : Z) :
  0 < den -> 2 * num <= (2 * rne num den + 1) * den.
Proof.
  intros Hd. unfold rne.
  pose proof (Z.div_mod num den ltac:(lia)) as E.
  pose proof (Z.mod_pos_bound num den Hd) as B.
  destruct (Z.compare_spec (2 * (num mod den)) den);
    [destruct (Z.even _)|..]; nia.
Qed.

Lemma rne_half_below (num den : Z) :
  0 < den -> (2 * rne num den - 1) * den <= 2 * num.
Proof.
  intros Hd. unfold rne.
  pose proof (Z.div_mod num den ltac:(lia)) as E.
  pose proof (Z.mod_pos_bound num den Hd) as B.
  destruct (Z.compare_spec (2 * (num mod den)) den);
    [destruct (Z.even _)|..]; nia.
Qed.

(** *** The binary exponent *)

Lemma ilog2_le (p q j : Z) :
  0 < p -> 0 < q -> 0 <= j -> p <= 2 ^ j * q -> ilog2 p q <= j.
Proof.
  intros Hp Hq Hj Hle.
  assert (Z.log2 p <= j + Z.log2 q).
  { rewrite <- Z.log2_mul_pow2 by lia.
    apply Z.log2_le_mono. lia. }
  unfold ilog2.
  destruct (0 <=? _); destruct (_ <? _); lia.
Qed.

(** [ilog2 p q] is the binary exponent of [p / q]:
    [2^e <= p / q < 2^(e+1)]. *)
Lemma ilog2_spec (p q : Z) :
  0 < p -> 0 < q ->
  (0 <= ilog2 p q ->
   q * 2 ^ ilog2 p q <= p /\ p < q * 2 ^ (ilog2 p q + 1))
  /\ (ilog2 p q < 0 ->
      q <= p * 2 ^ (- ilog2 p q) /\ p * 2 ^ (- ilog2 p q - 1) < q).
Proof.
  intros Hp Hq.
  destruct (Z.log2_spec p Hp) as [HA1 HA2].
  destruct (Z.log2_spec q Hq) as [HB1 HB2].
  pose proof (Z.log2_nonneg p) as Ha. pose proof (Z.log2_nonneg q) as Hb.
  rewrite Z.pow_succ_r in HA2, HB2 by assumption.
  unfold ilog2.
  set (a := Z.log2 p) in *. set (b := Z.log2 q) in *.
  assert (PA : 0 < 2 ^ a) by (apply Z.pow_pos_nonneg; lia).
  assert (PB : 0 < 2 ^ b) by (apply Z.pow_pos_nonneg; lia).
  destruct (Z.leb_spec 0 (a - b)) as [He|He].
  - assert (EA : 2 ^ a = 2 ^ b * 2 ^ (a - b)).
    { rewrite <- Z.pow_add_r by lia. f_equal. lia. }
    assert (PE : 0 < 2 ^ (a - b)) by (apply Z.pow_pos_nonneg; lia).
    destruct (Z.ltb_spec p (q * 2 ^ (a - b))) as [Hlt|Hge].
    + destruct (Z.eq_dec (a - b) 0) as [E0|E0].
      * rewrite E0 in *. split; [lia|intros _]. change (- (0 - 1)) with 1.
        change (1 - 1) with 0. change (2 ^ 1) with 2. change (2 ^ 0) with 1 in *.
        lia.
      * split; [intros _|lia].
        replace (a - b - 1 + 1) with (a - b) by lia.
        split; [|assumption].
        assert (E1 : 2 ^ (a - b) = 2 * 2 ^ (a - b - 1)).
        { rewrite <- Z.pow_succ_r by lia. f_equal. lia. }
        assert (0 < 2 ^ (a - b - 1)) by (apply Z.pow_pos_nonneg; lia).
        nia.
    + split; [intros _|lia]. split; [assumption|].
      rewrite Z.pow_add_r by lia. change (2 ^ 1) with 2. nia.
  - assert (EB : 2 ^ b = 2 ^ a * 2 ^ (- (a - b))).
    { rewrite <- Z.pow_add_r by lia. f_equal. lia. }
    assert (PE : 0 < 2 ^ (- (a - b))) by (apply Z.pow_pos_nonneg; lia).
    destruct (Z.ltb_spec (p * 2 ^ (- (a - b))) q) as [Hlt|Hge].
    + split; [lia|intros _].
      replace (- (a - b - 1)) with (- (a - b) + 1) by lia.
      replace (- (a - b) + 1 - 1) with (- (a - b)) by lia.
      split; [|assumption].
      rewrite Z.pow_add_r by lia. change (2 ^ 1) with 2. nia.
    + split; [lia|intros _]. split; [assumption|].
      assert (E1 : 2 ^ (- (a - b)) = 2 * 2 ^ (- (a - b) - 1)).
      { rewrite <- Z.pow_succ_r by lia. f_equal. lia. }
      assert (0 < 2 ^ (- (a - b) - 1)) by (apply Z.pow_pos_nonneg; lia).
      nia.
Qed.

Lemma ulp_exp_le (e j : Z) : e <= j -> 0 <= j -> ulp_exp e <= j - 52 \/ ulp_exp e = -1074.
Proof. unfold ulp_exp. lia. Qed.

(** *** Rounding of positive rationals *)

Lemma round_pos_bound (p q j : Z) :
  0 < p -> 0 < q -> 0 <= j -> p <= 2 ^ j * q ->
  0 <= fst (round_pos p q)
  /\ (0 <= snd (round_pos p q) ->
      fst (round_pos p q) * 2 ^ snd (round_pos p q) <= 2 ^ j)
  /\ (snd (round_pos p q) < 0 ->
      fst (round_pos p q) <= 2 ^ j * 2 ^ (- snd (round_pos p q))).
Proof.
  intros Hp Hq Hj Hle. unfold round_pos.
  pose proof (ilog2_le p q j Hp Hq Hj Hle) as He.
  set (u := ulp_exp (ilog2 p q)).
  assert (Hu : u <= j) by (unfold u, ulp_exp; lia).
  assert (H2j : 0 < 2 ^ j) by (apply Z.pow_pos_nonneg; lia).
  destruct (Z.leb_spec 0 u) as [Hu0|Hu0]; simpl.
  - assert (H2u : 0 < 2 ^ u) by (apply Z.pow_pos_nonneg; lia).
    assert (Hsplit : 2 ^ j = 2 ^ (j - u) * 2 ^ u).
    { rewrite <- Z.pow_add_r by lia. f_equal. lia. }
    assert (H2ju : 0 < 2 ^ (j - u)) by (apply Z.pow_pos_nonneg; lia).
    split; [apply rne_nonneg; nia|]. split; [intros _|lia].
    assert (rne p (q * 2 ^ u) <= 2 ^ (j - u)) by (apply rne_le; nia).
    nia.
  - assert (H2u : 0 < 2 ^ (- u)) by (apply Z.pow_pos_nonneg; lia).
    split; [apply rne_nonneg; nia|]. split; [lia|intros _].
    apply rne_le; nia.
Qed.

Lemma rne_ge (num den k : Z) : 0 < den -> k * den <= num -> k <= rne num den.
Proof.
  intros Hd Hk. unfold rne.
  pose proof (Z.div_mod num den ltac:(lia)) as E.
  pose proof (Z.mod_pos_bound num den Hd) as B.
  assert (k <= num / den) by nia.
  destruct (Z.compare_spec (2 * (num mod den)) den);
    [destruct (Z.even _)|..]; lia.
Qed.

(** [round_pos p q = (m, u)] is round-to-nearest at the unit [2^u]:
    [|p / q - m * 2^u| <= 2^u / 2]... *)
Lemma round_pos_nearest (p q : Z) :
  0 < p -> 0 < q ->
  (0 <= snd (round_pos p q) ->
   (2 * fst (round_pos p q) - 1) * (q * 2 ^ snd (round_pos p q)) <= 2 * p
   /\ 2 * p <= (2 * fst (round_pos p q) + 1) * (q * 2 ^ snd (round_pos p q)))
  /\ (snd (round_pos p q) < 0 ->
      (2 * fst (round_pos p q) - 1) * q <= 2 * (p * 2 ^ (- snd (round_pos p q)))
      /\ 2 * (p * 2 ^ (- snd (round_pos p q)))
         <= (2 * fst (round_pos p q) + 1) * q).
Proof.
  intros Hp Hq. unfold round_pos.
  set (u := ulp_exp (ilog2 p q)).
  destruct (Z.leb_spec 0 u) as [Hu|Hu]; simpl.
  - split; [intros _|lia].
    assert (0 < q * 2 ^ u)
      by (apply Z.mul_pos_pos; [lia|apply Z.pow_pos_nonneg; lia]).
    split; [now apply rne_half_below|now apply rne_half_above].
  - split; [lia|intros _].
    split; [now apply rne_half_below|now apply rne_half_above].
Qed.

(** ...and in the normal range the significand [m] has 53 bits. *)
Lemma round_pos_precision (p q : Z) :
  0 < p -> 0 < q -> -1022 <= ilog2 p q ->
  snd (round_pos p q) = ilog2 p q - 52
  /\ 2 ^ 52 <= fst (round_pos p q) <= 2 ^ 53.
Proof.
  intros Hp Hq He.
  destruct (ilog2_spec p q Hp Hq) as [Hpos Hneg].
  unfold round_pos, ulp_exp.
  set (e := ilog2 p q) in *.
  replace (Z.max (e - 52) (-1074)) with (e - 52) by lia.
  split; [destruct (0 <=? e - 52); reflexivity|].
  assert (P52 : 2 ^ 53 = 2 * 2 ^ 52) by reflexivity.
  destruct (Z.leb_spec 0 (e - 52)) as [Hu|Hu]; simpl.
  - destruct (Hpos ltac:(lia)) as [Hlo Hhi].
    assert (Ee : 2 ^ e = 2 ^ 52 * 2 ^ (e - 52)).
    { rewrite <- Z.pow_add_r by lia. f_equal. lia. }
    rewrite Z.pow_add_r in Hhi by lia. change (2 ^ 1) with 2 in Hhi.
    assert (0 < 2 ^ (e - 52)) by (apply Z.pow_pos_nonneg; lia).
    split; [apply rne_ge|apply rne_le]; nia.
  - assert (PU : 0 < 2 ^ (- (e - 52))) by (apply Z.pow_pos_nonneg; lia).
    destruct (Z.leb_spec 0 e) as [He0|He0].
    + destruct (Hpos He0) as [Hlo Hhi].
      assert (Ee : 2 ^ 52 = 2 ^ e * 2 ^ (- (e - 52))).
      { rewrite <- Z.pow_add_r by lia. f_equal. lia. }
      rewrite Z.pow_add_r in Hhi by lia. change (2 ^ 1) with 2 in Hhi.
      assert (0 < 2 ^ e) by (apply Z.pow_pos_nonneg; lia).
      split; [apply rne_ge|apply rne_le]; nia.
    + destruct (Hneg He0) as [Hlo Hhi].
      assert (Ee : 2 ^ (- (e - 52)) = 2 ^ 52 * 2 ^ (- e)).
      { rewrite <- Z.pow_add_r by lia. f_equal. lia. }
      assert (E1 : 2 ^ (- e) = 2 * 2 ^ (- e - 1)).
      { rewrite <- Z.pow_succ_r by lia. f_equal. lia. }
      assert (0 < 2 ^ (- e - 1)) by (apply Z.pow_pos_nonneg; lia).
      split; [apply rne_ge|apply rne_le]; nia.
Qed.

Lemma scaled_nonneg (m u : Z) : 0 <= m -> (0 <= scaled m u)%Q.
Proof.
  intros Hm. unfold scaled. destruct (Z.leb_spec 0 u).
  - unfold Qle; simpl. assert (0 <= 2 ^ u) by (apply Z.pow_nonneg; lia). nia.
  - rewrite Qred_correct. unfold Qle; simpl. lia.
Qed.

Lemma scaled_le_pow2 (m u j : Z) :
  0 <= j ->
  (0 <= u -> m * 2 ^ u <= 2 ^ j) ->
  (u < 0 -> m <= 2 ^ j * 2 ^ (- u)) ->
  (scaled m u <= inject_Z (2 ^ j))%Q.
Proof.
  intros Hj Hpos Hneg. unfold scaled. destruct (Z.leb_spec 0 u) as [Hu|Hu].
  - unfold Qle; simpl. specialize (Hpos Hu). lia.
  - rewrite Qred_correct. unfold Qle; simpl.
    assert (0 < 2 ^ (- u)) by (apply Z.pow_pos_nonneg; lia).
    rewrite Z2Pos.id by lia. specialize (Hneg Hu). lia.
Qed.

Lemma fl_bounded (x : Q) (j : Z) :
  0 <= j < 1024 -> 0 < Qnum x -> Qnum x <= 2 ^ j * Zpos (Qden x) ->
  exists y, fl x = Fin y /\ (0 <= y)%Q /\ (y <= inject_Z (2 ^ j))%Q.
Proof.
  intros Hj Hx Hle. unfold fl.
  destruct (Qnum x) as [|p|p] eqn:Ep; try lia.
  pose proof (round_pos_bound (Zpos p) (Zpos (Qden x)) j
                ltac:(lia) ltac:(lia) ltac:(lia) Hle) as (Hm & Hup & Hun).
  destruct (round_pos (Zpos p) (Zpos (Qden x))) as [m u]; simpl in *.
  assert (Hno : overflows m u = false).
  { unfold overflows. destruct (Z.leb_spec 0 u) as [Hu|Hu]; [|reflexivity].
    apply Z.leb_gt. specialize (Hup Hu).
    assert (2 ^ j < 2 ^ 1024) by (apply Z.pow_lt_mono_r; lia). lia. }
  rewrite Hno. eexists; split; [reflexivity|]. split.
  - now apply scaled_nonneg.
  - now apply scaled_le_pow2.
Qed.

Lemma fl_zero (x : Q) : Qnum x = 0 -> fl x = Fin 0.
Proof. intros E. unfold fl. now rewrite E. Qed.

(** Rounding never turns a non-negative value into a negative one or
    into [NaN]. *)
Lemma fl_nonneg (x : Q) : 0 <= Qnum x -> nonneg (fl x).
Proof.
  intros Hx. unfold fl.
  destruct (Qnum x) as [|p|p] eqn:Ep; try lia.
  - simpl. apply Qle_refl.
  - destruct (round_pos (Zpos p) (Zpos (Qden x))) as [m u] eqn:Er.
    destruct (overflows m u); simpl; [exact I|].
    apply scaled_nonneg.
    change m with (fst (m, u)). rewrite <- Er. unfold round_pos; simpl.
    assert (0 < 2 ^ (- ulp_exp (ilog2 (Zpos p) (Zpos (Qden x))))
            \/ 0 <= ulp_exp (ilog2 (Zpos p) (Zpos (Qden x)))) as Hcase.
    { destruct (Z.leb_spec 0 (ulp_exp (ilog2 (Zpos p) (Zpos (Qden x)))));
        [right; lia|left; apply Z.pow_pos_nonneg; lia]. }
    destruct (0 <=? _) eqn:Eu.
    + apply rne_nonneg; [lia|].
      apply Z.leb_le in Eu.
      assert (0 < 2 ^ ulp_exp (ilog2 (Zpos p) (Zpos (Qden x))))
        by (apply Z.pow_pos_nonneg; lia). nia.
    + apply Z.leb_gt in Eu. apply rne_nonneg; [|lia].
      assert (0 < 2 ^ (- ulp_exp (ilog2 (Zpos p) (Zpos (Qden x)))))
        by (apply Z.pow_pos_nonneg; lia). nia.
Qed.

(** A proper fraction with a denominator below [2^53] stays strictly
    below [1] after rounding: only [1] itself rounds to [1]. *)
Lemma round_pos_below_one (p q : Z) :
  0 < p < q -> q < 2 ^ 53 ->
  snd (round_pos p q) < 0
  /\ 0 <= fst (round_pos p q) < 2 ^ (- snd (round_pos p q)).
Proof.
  intros Hp Hq. unfold round_pos.
  pose proof (ilog2_le p q 0 ltac:(lia) ltac:(lia) ltac:(lia) ltac:(lia)) as He.
  set (u := ulp_exp (ilog2 p q)).
  assert (Hu : u <= -52) by (unfold u, ulp_exp; lia).
  destruct (Z.leb_spec 0 u) as [Hu0|_]; [lia|]. simpl.
  split; [lia|].
  set (K := 2 ^ (- u)).
  assert (HK : 2 ^ 52 <= K) by (apply Z.pow_le_mono_r; lia).
  assert (2 ^ 53 = 2 * 2 ^ 52) by reflexivity.
  pose proof (rne_nonneg (p * K) q ltac:(nia) ltac:(lia)).
  pose proof (rne_le (p * K) q K ltac:(lia) ltac:(nia)).
  pose proof (rne_half_below (p * K) q ltac:(lia)).
  split; [assumption|].
  destruct (Z.eq_dec (rne (p * K) q) K) as [E|]; [|lia].
  rewrite E in *. nia.
Qed.

Lemma fl_below_one (x : Q) :
  0 < Qnum x < Zpos (Qden x) -> Zpos (Qden x) < 2 ^ 53 ->
  exists y, fl x = Fin y /\ (0 <= y)%Q /\ (y < 1)%Q.
Proof.
  intros Hx Hd. unfold fl.
  destruct (Qnum x) as [|p|p] eqn:Ep; try lia.
  pose proof (round_pos_below_one (Zpos p) (Zpos (Qden x)) Hx Hd)
    as (Hu & Hm0 & Hm).
  destruct (round_pos (Zpos p) (Zpos (Qden x))) as [m u]; simpl in *.
  unfold overflows, scaled.
  destruct (Z.leb_spec 0 u); [lia|].
  eexists; split; [reflexivity|].
  assert (0 < 2 ^ (- u)) by (apply Z.pow_pos_nonneg; lia).
  split; rewrite Qred_correct.
  - unfold Qle; simpl. lia.
  - unfold Qlt; simpl. rewrite Z2Pos.id by lia. lia.
Qed.

(** ** Whole numbers up to [2^53] are binary64 values *)

Lemma rne_unit (n : Z) : rne n 1 = n.
Proof. unfold rne. now rewrite Z.div_1_r, Z.mod_1_r. Qed.

Lemma ilog2_integer (p : Z) : 0 < p -> ilog2 p 1 = Z.log2 p.
Proof.
  intros Hp. unfold ilog2. change (Z.log2 1) with 0. rewrite Z.sub_0_r.
  pose proof (Z.log2_nonneg p) as Hn.
  destruct (Z.leb_spec 0 (Z.log2 p)); [|lia].
  destruct (Z.log2_spec p Hp) as [Hlo _].
  destruct (Z.ltb_spec p (1 * 2 ^ Z.log2 p)); [lia|reflexivity].
Qed.

Lemma Qred_inject_Z (z : Z) : Qred (inject_Z z) = inject_Z z.
Proof.
  unfold Qred, inject_Z.
  pose proof (Z.ggcd_gcd z 1) as Hg.
  pose proof (Z.ggcd_correct_divisors z 1) as Hd.
  destruct (Z.ggcd z 1) as [g [a b]]. cbn [fst snd] in *.
  rewrite Z.gcd_1_r in Hg. subst g. destruct Hd as [Ha Hb].
  rewrite Z.mul_1_l in Ha, Hb. now subst a b.
Qed.

Lemma Qred_whole (z c : Z) :
  0 < c -> Qred (z * c # Z.to_pos c) = inject_Z z.
Proof.
  intros Hc.
  rewrite <- (Qred_inject_Z z).
  apply Qred_complete. unfold Qeq, inject_Z; simpl.
  rewrite Z2Pos.id by lia. lia.
Qed.

Lemma round_pos_whole (p : positive) :
  Zpos p <= 2 ^ 53 ->
  let '(m, u) := round_pos (Zpos p) 1 in
  overflows m u = false /\ scaled m u = inject_Z (Zpos p).
Proof.
  intros Hp.
  destruct (Z.eq_dec (Zpos p) (2 ^ 53)) as [E|Hne].
  - rewrite E. vm_compute. auto.
  - unfold round_pos. rewrite ilog2_integer by lia.
    assert (He : Z.log2 (Zpos p) < 53) by (apply Z.log2_lt_pow2; lia).
    unfold ulp_exp.
    set (u := Z.max (Z.log2 (Zpos p) - 52) (-1074)).
    assert (Hu : u <= 0) by lia.
    destruct (Z.leb_spec 0 u) as [H0|H0].
    + replace u with 0 in * by lia. change (1 * 2 ^ 0) with 1.
      rewrite rne_unit. unfold overflows, scaled. cbn [Z.leb Z.compare].
      change (2 ^ 0) with 1. rewrite Z.mul_1_r. split; [|reflexivity].
      apply Z.leb_gt.
      assert (2 ^ 53 < 2 ^ 1024) by (apply Z.pow_lt_mono_r; lia). lia.
    + rewrite rne_unit. unfold overflows, scaled.
      destruct (Z.leb_spec 0 u); [lia|]. split; [reflexivity|].
      apply Qred_whole. apply Z.pow_pos_nonneg; lia.
Qed.

Lemma fl_whole (z : Z) : Z.abs z <= 2 ^ 53 -> fl (inject_Z z) = of_Z z.
Proof.
  intros Hz. unfold fl, of_Z. cbn [Qnum Qden inject_Z].
  destruct z as [|p|p]; [reflexivity| |].
  - pose proof (round_pos_whole p ltac:(lia)) as H.
    destruct (round_pos (Zpos p) 1) as [m u]. destruct H as [-> ->]. reflexivity.
  - pose proof (round_pos_whole p ltac:(lia)) as H.
    destruct (round_pos (Zpos p) 1) as [m u]. destruct H as [-> ->]. reflexivity.
Qed.

(** Sums of whole numbers are exact while they stay within [2^53]. *)
Lemma add_of_Z (a b : Z) :
  Z.abs (a + b) <= 2 ^ 53 -> add (of_Z a) (of_Z b) = of_Z (a + b).
Proof.
  intros H.
  change (add (of_Z a) (of_Z b)) with (fl (inject_Z a + inject_Z b)).
  replace (inject_Z a + inject_Z b)%Q with (inject_Z (a + b)).
  - now apply fl_whole.
  - unfold Qplus, inject_Z. cbn [Qnum Qden].
    change (1 * 1)%positive with 1%positive. f_equal. lia.
Qed.

Lemma of_Z_inj (a b : Z) : of_Z a = of_Z b -> a = b.
Proof. now intros [= ->]. Qed.

End FloatFacts.

(** ** Hexadecimal text *)

Ltac nibble_cases d :=
  let H := fresh in
  assert (H : d = 0 \/ d = 1 \/ d = 2 \/ d = 3 \/ d = 4 \/ d = 5 \/ d = 6
              \/ d = 7 \/ d = 8 \/ d = 9 \/ d = 10 \/ d = 11 \/ d = 12
              \/ d = 13 \/ d = 14 \/ d = 15) by lia;
  repeat (destruct H as [H|H]; [subst d|]); [..|subst d].

Lemma hex_value_hex_digit (d : Z) :
  0 <= d < 16 -> hex_value (hex_digit d) = Some d.
Proof. intros Hd. nibble_cases d; reflexivity. Qed.

Lemma nibble_bound (w k : Z) : 0 <= (w / 16 ^ k) mod 16 < 16.
Proof. apply Z.mod_pos_bound. lia. Qed.

Lemma hex_prefix_nibbles (k : nat) (w acc : Z) :
  hex_prefix (Some acc) (hex_nibbles k w)
  = Some (acc * 16 ^ Z.of_nat k + w mod 16 ^ Z.of_nat k).
Proof.
  revert acc. induction k as [|k IH]; intros acc.
  - simpl. rewrite Z.mod_1_r. f_equal. lia.
  - cbn [hex_nibbles hex_prefix].
    rewrite hex_value_hex_digit by apply nibble_bound.
    cbn [default]. rewrite IH. f_equal.
    rewrite Nat2Z.inj_succ, Z.pow_succ_r by lia.
    assert (H16 : 0 < 16 ^ Z.of_nat k) by (apply Z.pow_pos_nonneg; lia).
    rewrite (Z.mul_comm 16 (16 ^ Z.of_nat k)).
    rewrite (Z.rem_mul_r w (16 ^ Z.of_nat k) 16) by lia.
    unfold id. ring.
Qed.

Lemma hex_prefix_nibbles_fresh (k : nat) (w : Z) :
  hex_prefix None (hex_nibbles (S k) w) = Some (w mod 16 ^ Z.of_nat (S k)).
Proof.
  cbn [hex_nibbles hex_prefix].
  rewrite hex_value_hex_digit by apply nibble_bound.
  cbn [default]. rewrite hex_prefix_nibbles. f_equal.
  rewrite Nat2Z.inj_succ, Z.pow_succ_r by lia.
  assert (H16 : 0 < 16 ^ Z.of_nat k) by (apply Z.pow_pos_nonneg; lia).
  rewrite (Z.mul_comm 16 (16 ^ Z.of_nat k)).
  rewrite (Z.rem_mul_r w (16 ^ Z.of_nat k) 16) by lia.
  unfold id. ring.
Qed.

Lemma hex_prefix_hex_word (w : Z) :
  hex_prefix None (hex_word w) = Some (w mod 2 ^ 32).
Proof. apply (hex_prefix_nibbles_fresh 7 w). Qed.

(** On a string that starts with two digits produced by [hex_digit],
    [parseInt] has no white space, sign or [0x] prefix to skip. *)
Lemma parseInt16_plain (a b : Z) (rest : string) :
  0 <= a < 16 -> 0 <= b < 16 ->
  parseInt16 (String (hex_digit a) (String (hex_digit b) rest))
  = match hex_prefix None (String (hex_digit a) (String (hex_digit b) rest)) with
    | None => NaN
    | Some v => Float.of_Z v
    end.
Proof.
  intros Ha Hb. nibble_cases a; nibble_cases b; reflexivity.
Qed.

Lemma parseInt16_hex_word (w : Z) :
  parseInt16 (hex_word w) = Float.of_Z (w mod 2 ^ 32).
Proof.
  pose proof (hex_prefix_hex_word w) as E.
  unfold hex_word in *. change 8%nat with (S (S 6)) in *.
  cbn [hex_nibbles] in *.
  rewrite parseInt16_plain by apply nibble_bound.
  now rewrite E.
Qed.

Lemma substring_whole_prefix (s t : string) :
  substring 0 (String.length s) (s ++ t) = s.
Proof.
  induction s as [|c s IH]; simpl.
  - destruct t; reflexivity.
  - now rewrite IH.
Qed.

Lemma hex_word_length (w : Z) : String.length (hex_word w) = 8%nat.
Proof. reflexivity. Qed.

(** The first 8 characters of the hexadecimal digest spell its first
    word. *)
Lemma sha256_hex_first_word (s : string) :
  substring 0 8 (sha256_hex s)
  = hex_word (fst (fst (fst (fst (fst (fst (fst
      (SHA256.digest (bytes_of_string s))))))))).
Proof.
  unfold sha256_hex.
  destruct (SHA256.digest (bytes_of_string s))
    as [[[[[[[h0 h1] h2] h3] h4] h5] h6] h7]. cbn [fst].
  rewrite <- (hex_word_length h0) at 1.
  apply substring_whole_prefix.
Qed.

Lemma nibble_mod (w : Z) (k : nat) :
  (k < 8)%nat ->
  ((w mod 2 ^ 32) / 16 ^ Z.of_nat k) mod 16 = (w / 16 ^ Z.of_nat k) mod 16.
Proof.
  intros Hk.
  do 8 (destruct k as [|k];
        [cbv [Z.of_nat Pos.of_succ_nat Pos.succ Z.pow Z.pow_pos Pos.iter Z.mul Pos.mul Pos.add];
         Z.div_mod_to_equations; lia|]).
  lia.
Qed.

Lemma hex_nibbles_mod (w : Z) (k : nat) :
  (k <= 8)%nat -> hex_nibbles k (w mod 2 ^ 32) = hex_nibbles k w.
Proof.
  induction k as [|k IH]; intros Hk; [reflexivity|].
  cbn [hex_nibbles]. rewrite nibble_mod by lia. rewrite IH by lia. reflexivity.
Qed.

Lemma hex_word_mod (w : Z) : hex_word (w mod 2 ^ 32) = hex_word w.
Proof. apply hex_nibbles_mod. lia. Qed.

(** ** The text of a whole number *)

Module ToStringFacts.

Import Float FloatFacts.

Lemma usize_nb_digits (u : Decimal.uint) :
  DecimalPos.Unsigned.usize u = N.of_nat (Decimal.nb_digits u).
Proof.
  induction u; cbn [DecimalPos.Unsigned.usize Decimal.nb_digits];
    rewrite ?IHu, ?Nat2N.inj_succ; reflexivity.
Qed.

Lemma rev_app_uint (d e : Decimal.uint) :
  Decimal.rev (Decimal.app d e) = Decimal.revapp e (Decimal.rev d).
Proof.
  rewrite <- (DecimalFacts.of_list_to_list (Decimal.rev (Decimal.app d e))),
          <- (DecimalFacts.of_list_to_list (Decimal.revapp e (Decimal.rev d))).
  f_equal.
  rewrite DecimalFacts.rev_spec, DecimalFacts.app_spec, DecimalFacts.revapp_spec,
    DecimalFacts.rev_spec.
  rewrite List.rev_append_rev. apply List.rev_app_distr.
Qed.

(** The value of two decimals written one after the other. *)
Lemma of_uint_app (d e : Decimal.uint) :
  Z.of_uint (Decimal.app d e)
  = Z.of_uint d * 10 ^ Z.of_nat (Decimal.nb_digits e) + Z.of_uint e.
Proof.
  unfold Z.of_uint.
  rewrite (DecimalPos.Unsigned.of_uint_alt (Decimal.app d e)), rev_app_uint,
    DecimalPos.Unsigned.of_lu_revapp, <- !DecimalPos.Unsigned.of_uint_alt,
    usize_nb_digits.
  rewrite N2Z.inj_add, N2Z.inj_mul, N2Z.inj_pow, nat_N_Z. cbn [Z.of_N]. lia.
Qed.

Lemma of_uint_below (u : Decimal.uint) :
  0 <= Z.of_uint u < 10 ^ Z.of_nat (Decimal.nb_digits u).
Proof.
  induction u as [|u IH|u IH|u IH|u IH|u IH|u IH|u IH|u IH|u IH|u IH];
    [cbn; lia|..];
    match goal with
    | |- context [Z.of_uint (?c u)] =>
        change (c u) with (Decimal.app (c Decimal.Nil) u);
        rewrite of_uint_app;
        change (Decimal.nb_digits (Decimal.app (c Decimal.Nil) u))
          with (S (Decimal.nb_digits u))
    end;
    rewrite Nat2Z.inj_succ, Z.pow_succ_r by lia;
    cbn [Z.of_uint Pos.of_uint Pos.of_uint_acc Z.of_N]; lia.
Qed.

Lemma unorm_D0_fixed (u : Decimal.uint) :
  Decimal.unorm (Decimal.D0 u) = Decimal.D0 u -> u = Decimal.Nil.
Proof.
  intros Hn. rewrite DecimalFacts.unorm_D0 in Hn.
  destruct (Decimal.uint_eq_dec u Decimal.Nil) as [E|Hr]; [exact E|].
  pose proof (DecimalFacts.nb_digits_unorm u Hr) as Hle.
  rewrite Hn in Hle. cbn [Decimal.nb_digits] in Hle. lia.
Qed.

(** A decimal without leading zeros is at least the power of ten of its
    length. *)
Lemma of_uint_normal (u : Decimal.uint) :
  Decimal.unorm u = u -> u <> Decimal.zero ->
  10 ^ (Z.of_nat (Decimal.nb_digits u) - 1) <= Z.of_uint u.
Proof.
  intros Hn Hz.
  destruct u as [|u|u|u|u|u|u|u|u|u|u];
    [discriminate Hn
    |apply unorm_D0_fixed in Hn; subst u; now contradiction Hz|..];
    match goal with
    | |- context [Z.of_uint (?c u)] =>
        change (c u) with (Decimal.app (c Decimal.Nil) u);
        rewrite of_uint_app;
        change (Decimal.nb_digits (Decimal.app (c Decimal.Nil) u))
          with (S (Decimal.nb_digits u))
    end;
    rewrite Nat2Z.inj_succ;
    replace (Z.succ (Z.of_nat (Decimal.nb_digits u)) - 1)
      with (Z.of_nat (Decimal.nb_digits u)) by lia;
    pose proof (of_uint_below u);
    assert (0 < 10 ^ Z.of_nat (Decimal.nb_digits u))
      by (apply Z.pow_pos_nonneg; lia);
    cbn [Z.of_uint Pos.of_uint Pos.of_uint_acc Z.of_N]; nia.
Qed.

Lemma to_uint_unorm (p : positive) :
  Decimal.unorm (Pos.to_uint p) = Pos.to_uint p.
Proof.
  rewrite <- DecimalPos.Unsigned.to_of, DecimalPos.Unsigned.of_to. reflexivity.
Qed.

Lemma of_to_uint (p : positive) : Z.of_uint (Pos.to_uint p) = Zpos p.
Proof. unfold Z.of_uint. now rewrite DecimalPos.Unsigned.of_to. Qed.

(** The number of digits of a positive integer, by its size. *)
Lemma digits10_spec (p : positive) :
  10 ^ (digits10 p - 1) <= Zpos p < 10 ^ digits10 p.
Proof.
  unfold digits10. rewrite <- (of_to_uint p). split.
  - apply of_uint_normal;
      [apply to_uint_unorm|apply DecimalPos.Unsigned.to_uint_nonzero].
  - apply of_uint_below.
Qed.

Lemma digits10_pos (p : positive) : 1 <= digits10 p.
Proof.
  unfold digits10. pose proof (DecimalPos.Unsigned.to_uint_nonnil p) as H.
  destruct (Pos.to_uint p); try contradiction; cbn [Decimal.nb_digits]; lia.
Qed.

Lemma digits10_unique (p : positive) (k : Z) :
  10 ^ (k - 1) <= Zpos p < 10 ^ k -> digits10 p = k.
Proof.
  intros [Hlo Hhi]. pose proof (digits10_spec p) as [Dlo Dhi].
  pose proof (digits10_pos p) as Hd.
  assert (Hk : 1 <= k).
  { destruct (Z.le_gt_cases 1 k) as [H|H]; [exact H|exfalso].
    assert (10 ^ k <= 1); [|lia].
    destruct (Z.eq_dec k 0) as [->|Hne]; [cbn; lia|].
    rewrite Z.pow_neg_r by lia. lia. }
  destruct (Z.lt_trichotomy (digits10 p) k) as [H|[H|H]]; [exfalso|exact H|exfalso].
  - assert (10 ^ digits10 p <= 10 ^ (k - 1)) by (apply Z.pow_le_mono_r; lia). lia.
  - assert (10 ^ k <= 10 ^ (digits10 p - 1)) by (apply Z.pow_le_mono_r; lia). lia.
Qed.

Lemma string_of_uint_length (u : Decimal.uint) :
  String.length (NilEmpty.string_of_uint u) = Decimal.nb_digits u.
Proof.
  induction u; cbn [NilEmpty.string_of_uint String.length Decimal.nb_digits];
    congruence.
Qed.

Lemma string_of_Z_pos (p : positive) :
  string_of_Z (Zpos p) = NilEmpty.string_of_uint (Pos.to_uint p).
Proof.
  unfold string_of_Z. cbn [Z.to_int NilZero.string_of_int].
  pose proof (DecimalPos.Unsigned.to_uint_nonnil p) as H.
  unfold NilZero.string_of_uint. now destruct (Pos.to_uint p).
Qed.

Lemma string_of_Z_neg (p : positive) :
  string_of_Z (Zneg p) = ("-" ++ string_of_Z (Zpos p))%string.
Proof.
  rewrite string_of_Z_pos.
  unfold string_of_Z. cbn [Z.to_int NilZero.string_of_int].
  pose proof (DecimalPos.Unsigned.to_uint_nonnil p) as H.
  unfold NilZero.string_of_uint. now destruct (Pos.to_uint p).
Qed.

Lemma string_of_Z_length (p : positive) :
  Z.of_nat (String.length (string_of_Z (Zpos p))) = digits10 p.
Proof. now rewrite string_of_Z_pos, string_of_uint_length. Qed.

Lemma append_assoc (a b c : string) :
  ((a ++ b) ++ c = a ++ (b ++ c))%string.
Proof.
  induction a as [|x a IH]; [reflexivity|].
  change (String x ((a ++ b) ++ c) = String x (a ++ (b ++ c)))%string.
  now rewrite IH.
Qed.

Lemma string_of_uint_revapp (d e : Decimal.uint) :
  NilEmpty.string_of_uint (Decimal.revapp d e)
  = (NilEmpty.string_of_uint (Decimal.revapp d Decimal.Nil)
     ++ NilEmpty.string_of_uint e)%string.
Proof.
  revert e.
  induction d as [|d IH|d IH|d IH|d IH|d IH|d IH|d IH|d IH|d IH|d IH];
    intros e; [reflexivity|..];
    cbn [Decimal.revapp]; rewrite IH; symmetry; rewrite IH;
    cbn [NilEmpty.string_of_uint];
    now rewrite append_assoc.
Qed.

Lemma string_of_uint_app (d e : Decimal.uint) :
  NilEmpty.string_of_uint (Decimal.app d e)
  = (NilEmpty.string_of_uint d ++ NilEmpty.string_of_uint e)%string.
Proof.
  unfold Decimal.app. rewrite string_of_uint_revapp.
  change (Decimal.revapp (Decimal.rev d) Decimal.Nil)
    with (Decimal.rev (Decimal.rev d)).
  now rewrite DecimalFacts.rev_rev.
Qed.

Lemma string_of_uint_zeros (n : nat) :
  NilEmpty.string_of_uint (Nat.iter n Decimal.D0 Decimal.Nil)
  = string_of_list_ascii (List.repeat "0"%char n).
Proof.
  induction n as [|n IH]; [reflexivity|].
  cbn [Nat.iter nat_rect NilEmpty.string_of_uint List.repeat
       string_of_list_ascii].
  f_equal. exact IH.
Qed.

Lemma iter_mul10 (n : nat) (z : Z) :
  Nat.iter n (Z.mul 10) z = z * 10 ^ Z.of_nat n.
Proof.
  induction n as [|n IH]; [cbn; lia|].
  rewrite Nat2Z.inj_succ, Z.pow_succ_r by lia.
  cbn [Nat.iter nat_rect]. fold (Nat.iter n (Z.mul 10) z). rewrite IH. lia.
Qed.

(** Zeros written after the digits of a positive integer multiply it by
    a power of ten. *)
Lemma string_of_Z_zeros (p : positive) (t : Z) :
  0 <= t ->
  string_of_Z (Zpos p * 10 ^ t) = (string_of_Z (Zpos p) ++ zeros t)%string.
Proof.
  intros Ht.
  set (written := Decimal.app (Pos.to_uint p)
                    (Nat.iter (Z.to_nat t) Decimal.D0 Decimal.Nil)).
  assert (Hv : Z.of_uint written = Zpos p * 10 ^ t).
  { unfold written. rewrite DecimalZ.of_uint_iter_D0, iter_mul10, of_to_uint.
    now rewrite Z2Nat.id. }
  assert (Hpos : 0 < Zpos p * 10 ^ t)
    by (apply Z.mul_pos_pos; [lia|apply Z.pow_pos_nonneg; lia]).
  destruct (Zpos p * 10 ^ t) as [|v|v] eqn:Ev; try lia.
  assert (Hn : Decimal.unorm written = Pos.to_uint v).
  { change (Pos.to_uint v) with (N.to_uint (Npos v)).
    rewrite <- DecimalPos.Unsigned.to_of. f_equal.
    unfold Z.of_uint in Hv. destruct (Pos.of_uint written); [discriminate|].
    now injection Hv as ->. }
  assert (Hd : digits10 v = digits10 p + t).
  { apply digits10_unique. rewrite <- Ev.
    pose proof (digits10_spec p) as [Hlo Hhi].
    pose proof (digits10_pos p).
    replace (digits10 p + t - 1) with (digits10 p - 1 + t) by lia.
    rewrite !Z.pow_add_r by lia.
    assert (0 < 10 ^ t) by (apply Z.pow_pos_nonneg; lia). nia. }
  rewrite string_of_Z_pos, <- Hn.
  assert (Hw : Decimal.unorm written
               = Decimal.app (Decimal.unorm (Pos.to_uint p))
                   (Nat.iter (Z.to_nat t) Decimal.D0 Decimal.Nil)).
  { apply DecimalFacts.unorm_app_l.
    fold written. rewrite Hn.
    rewrite DecimalFacts.nb_digits_iter_D0. cbn [Decimal.nb_digits].
    pose proof (digits10_pos p). unfold digits10 in Hd, H. lia. }
  rewrite Hw, to_uint_unorm, string_of_uint_app, string_of_uint_zeros.
  now rewrite string_of_Z_pos.
Qed.

(** A whole number from [2^53] on is rounded to one from [2^53] on. *)
Lemma fl_beyond (v : Z) :
  2 ^ 53 <= v ->
  fl (inject_Z v) = PInf \/ exists w, 2 ^ 53 <= w /\ fl (inject_Z v) = of_Z w.
Proof.
  intros Hv. unfold fl. cbn [Qnum Qden inject_Z].
  destruct v as [|p|p]; try lia.
  unfold round_pos. rewrite ilog2_integer by lia.
  pose proof (Z.log2_le_mono _ _ Hv) as Hl. rewrite Z.log2_pow2 in Hl by lia.
  destruct (Z.log2_spec (Zpos p)) as [Hlo _]; [lia|].
  unfold ulp_exp. rewrite Z.max_l by lia.
  set (u := Z.log2 (Zpos p) - 52) in *.
  assert (Hu : 1 <= u) by (unfold u; lia).
  destruct (Z.leb_spec 0 u); [|lia].
  set (m := rne (Zpos p) (1 * 2 ^ u)).
  assert (Hpow : 0 < 2 ^ u) by (apply Z.pow_pos_nonneg; lia).
  assert (Hm : 2 ^ 52 <= m).
  { apply rne_ge; [lia|].
    replace (2 ^ 52 * (1 * 2 ^ u)) with (2 ^ Z.log2 (Zpos p)); [exact Hlo|].
    replace (Z.log2 (Zpos p)) with (52 + u) by (unfold u; lia).
    rewrite Z.pow_add_r by lia. lia. }
  cbv beta iota zeta.
  destruct (overflows m u); [left; reflexivity|right].
  exists (m * 2 ^ u). split.
  - assert (2 ^ 1 <= 2 ^ u) by (apply Z.pow_le_mono_r; lia).
    change (2 ^ 53) with (2 ^ 52 * 2 ^ 1). nia.
  - unfold scaled, of_Z. destruct (Z.leb_spec 0 u); [reflexivity|lia].
Qed.

(** Only a whole number below [2^53] itself is rounded to it. *)
Lemma fl_whole_only (v p : Z) :
  0 < v -> 0 < p < 2 ^ 53 ->
  same (fl (inject_Z v)) (Fin (inject_Z p)) = true -> v = p.
Proof.
  intros Hv Hp Hs.
  destruct (Z.le_gt_cases (2 ^ 53) v) as [Hbig|Hsmall].
  - destruct (fl_beyond v Hbig) as [E|(w & Hw & E)]; rewrite E in Hs;
      [discriminate|].
    cbn [same of_Z] in Hs. rewrite Qeq_bool_inject_Z in Hs.
    apply Z.eqb_eq in Hs. lia.
  - rewrite fl_whole in Hs by lia.
    cbn [same of_Z] in Hs. rewrite Qeq_bool_inject_Z in Hs.
    now apply Z.eqb_eq in Hs.
Qed.

Lemma pow10_nonneg (m : Z) : 0 <= m -> pow10 m = inject_Z (10 ^ m).
Proof. intros H. unfold pow10. now destruct (Z.leb_spec 0 m); [|lia]. Qed.

Lemma whole_times_pow10 (s m : Z) :
  0 <= m -> (inject_Z s * pow10 m)%Q = inject_Z (s * 10 ^ m).
Proof. intros H. now rewrite pow10_nonneg. Qed.

Lemma magnitude10_whole (p : positive) :
  magnitude10 (inject_Z (Zpos p)) = digits10 p.
Proof.
  unfold magnitude10. cbn [Qnum Qden inject_Z].
  change (digits10 1) with 1.
  pose proof (digits10_pos p). pose proof (digits10_spec p) as [Hlo _].
  rewrite pow10_nonneg by lia.
  change (Zpos p # 1) with (inject_Z (Zpos p)).
  rewrite Qle_bool_inject_Z.
  destruct (Z.leb_spec (10 ^ (digits10 p - 1)) (Zpos p)); lia.
Qed.

Lemma readings_In (q : Q) (k n : Z) (r : Q * (Z * Z)) :
  In r (readings q k n) ->
  exists s,
    snd r = (s, n)
    /\ (s = Qfloor (q / pow10 (n - k)) \/ s = Qfloor (q / pow10 (n - k)) + 1)
    /\ 10 ^ (k - 1) <= s < 10 ^ k
    /\ same (fl (inject_Z s * pow10 (n - k))) (Fin q) = true.
Proof.
  unfold readings. cbv zeta. rewrite List.in_map_iff.
  intros (s & <- & Hin). apply List.filter_In in Hin as [Hin Hf].
  apply andb_true_iff in Hf as [Hf Hsame].
  apply andb_true_iff in Hf as [Hlo Hhi].
  apply Z.leb_le in Hlo. apply Z.ltb_lt in Hhi.
  exists s. split; [reflexivity|]. split; [|auto].
  destruct Hin as [<-|[<-|[]]]; auto.
Qed.

(** Every reading of a whole number below [2^53], at up to as many
    digits as it has, denotes it exactly. *)
Lemma readings_exact (p : positive) (k n : Z) (r : Q * (Z * Z)) :
  Zpos p < 2 ^ 53 -> 1 <= k <= digits10 p -> digits10 p - 1 <= n ->
  In r (readings (inject_Z (Zpos p)) k n) ->
  exists s,
    snd r = (s, digits10 p)
    /\ 10 ^ (k - 1) <= s < 10 ^ k
    /\ Zpos p = s * 10 ^ (digits10 p - k).
Proof.
  intros Hp Hk Hn Hin.
  destruct (readings_In _ _ _ _ Hin) as (s & Er & Hs & Hr & Hsame).
  assert (Hpos : 0 < 10 ^ (k - 1)) by (apply Z.pow_pos_nonneg; lia).
  destruct (Z.le_gt_cases k n) as [Hkn|Hkn].
  - rewrite whole_times_pow10 in Hsame by lia.
    assert (Hpow : 0 < 10 ^ (n - k)) by (apply Z.pow_pos_nonneg; lia).
    apply fl_whole_only in Hsame; [|nia|lia].
    assert (En : digits10 p = n).
    { apply digits10_unique. rewrite <- Hsame.
      assert (E1 : 10 ^ (n - 1) = 10 ^ (k - 1) * 10 ^ (n - k))
        by (rewrite <- Z.pow_add_r by lia; f_equal; lia).
      assert (E2 : 10 ^ n = 10 ^ k * 10 ^ (n - k))
        by (rewrite <- Z.pow_add_r by lia; f_equal; lia).
      rewrite E1, E2. split.
      - apply Z.mul_le_mono_nonneg_r; lia.
      - apply Z.mul_lt_mono_pos_r; lia. }
    exists s. rewrite En. auto.
  - exfalso. replace (n - k) with (-1) in Hs by lia.
    change (inject_Z (Zpos p) / pow10 (-1))%Q with (Zpos p * 10 # 1) in Hs.
    unfold Qfloor in Hs. rewrite Z.div_1_r in Hs.
    pose proof (digits10_spec p) as [Hlo _].
    assert (k = digits10 p) by lia. subst k.
    replace (10 ^ digits10 p) with (10 * 10 ^ (digits10 p - 1)) in Hr
      by (rewrite <- Z.pow_succ_r by lia; f_equal; lia).
    lia.
Qed.

Lemma readings_last (p : positive) :
  Zpos p <= 2 ^ 53 ->
  readings (inject_Z (Zpos p)) (digits10 p) (digits10 p) <> [].
Proof.
  intros Hp. unfold readings. cbv zeta.
  replace (digits10 p - digits10 p) with 0 by lia.
  change (inject_Z (Zpos p) / pow10 0)%Q with (Zpos p * 1 # 1).
  unfold Qfloor. rewrite Z.div_1_r, Z.mul_1_r.
  cbn [List.filter].
  change (inject_Z (Zpos p) * pow10 0)%Q with (Zpos p * 1 # 1).
  rewrite Z.mul_1_r. change (Zpos p # 1) with (inject_Z (Zpos p)).
  rewrite fl_whole by lia.
  pose proof (digits10_spec p) as [Hlo Hhi].
  destruct (Z.leb_spec (10 ^ (digits10 p - 1)) (Zpos p)); [|lia].
  destruct (Z.ltb_spec (Zpos p) (10 ^ digits10 p)); [|lia].
  cbn [same of_Z andb]. rewrite Qeq_bool_inject_Z, Z.eqb_refl.
  discriminate.
Qed.

Lemma nearest_In (rs : list (Q * (Z * Z))) :
  forall r, In (fold_left nearest rs r) (r :: rs).
Proof.
  induction rs as [|x rs IH]; intros r; [now left|].
  cbn [fold_left]. specialize (IH (nearest r x)).
  destruct IH as [E|Hin]; [|right; now right].
  rewrite <- E. unfold nearest. destruct (Qle_bool _ _); [now left|right; now left].
Qed.

(** The digits found for a whole number below [2^53] are digits of its
    decimal, all but zeros at the end. *)
Lemma shortest_whole (p : positive) :
  Zpos p < 2 ^ 53 ->
  forall (fuel : nat) (k : Z),
    1 <= k <= digits10 p -> digits10 p - k < Z.of_nat fuel ->
    exists s k',
      1 <= k' <= digits10 p
      /\ 10 ^ (k' - 1) <= s < 10 ^ k'
      /\ Zpos p = s * 10 ^ (digits10 p - k')
      /\ shortest (inject_Z (Zpos p)) (digits10 p) k fuel = (s, digits10 p).
Proof.
  intros Hp. induction fuel as [|fuel IH]; intros k Hk Hf; [lia|].
  cbn [shortest].
  destruct (readings (inject_Z (Zpos p)) k (digits10 p - 1)
            ++ readings (inject_Z (Zpos p)) k (digits10 p)
            ++ readings (inject_Z (Zpos p)) k (digits10 p + 1))
    as [|r rs] eqn:E.
  - destruct (Z.eq_dec k (digits10 p)) as [->|Hne].
    + exfalso. apply List.app_eq_nil in E as [_ E].
      apply List.app_eq_nil in E as [E _].
      now apply (readings_last p ltac:(lia)).
    + apply IH; lia.
  - pose proof (nearest_In rs r) as Hin. rewrite <- E in Hin.
    assert (exists n, digits10 p - 1 <= n
                      /\ In (fold_left nearest rs r)
                           (readings (inject_Z (Zpos p)) k n))
      as (n & Hn & Hr).
    { apply List.in_app_or in Hin as [H|H]; [exists (digits10 p - 1); split; [lia|exact H]|].
      apply List.in_app_or in H as [H|H];
        [exists (digits10 p)|exists (digits10 p + 1)]; (split; [lia|exact H]). }
    destruct (readings_exact p k n _ Hp Hk Hn Hr) as (s & Es & Hs & Ep).
    exists s, k. auto.
Qed.

Lemma positive_to_string_whole (p : positive) :
  Zpos p < 2 ^ 53 ->
  positive_to_string (inject_Z (Zpos p)) = string_of_Z (Zpos p).
Proof.
  intros Hp. unfold positive_to_string. rewrite magnitude10_whole.
  pose proof (digits10_pos p) as Hd. pose proof (digits10_spec p) as [Hlo _].
  assert (Hd16 : digits10 p <= 16).
  { destruct (Z.le_gt_cases (digits10 p) 16) as [H|H]; [exact H|exfalso].
    assert (10 ^ 16 <= 10 ^ (digits10 p - 1)) by (apply Z.pow_le_mono_r; lia).
    lia. }
  destruct (shortest_whole p Hp 17 1 ltac:(lia) ltac:(lia))
    as (s & k' & Hk' & Hs & Ep & ->).
  cbv beta iota zeta.
  assert (Hpos : 0 < 10 ^ (k' - 1)) by (apply Z.pow_pos_nonneg; lia).
  destruct s as [|s|s]; try lia.
  rewrite string_of_Z_length, (digits10_unique s k' Hs).
  destruct (Z.leb_spec k' (digits10 p)); [|lia].
  destruct (Z.leb_spec (digits10 p) 21); [|lia].
  cbn [andb]. rewrite <- string_of_Z_zeros by lia. now rewrite <- Ep.
Qed.

End ToStringFacts.

(** [String(n)] for a whole number [n] within [2^53] is its decimal. *)
Lemma Number_toString_whole (z : Z) :
  Z.abs z <= 2 ^ 53 -> Number_toString (Float.of_Z z) = string_of_Z z.
Proof.
  intros Hz. unfold Number_toString, Float.of_Z. cbn [Qnum inject_Z].
  destruct z as [|p|p]; [reflexivity| |].
  - destruct (Z.eq_dec (Zpos p) (2 ^ 53)) as [E|Hne].
    + injection E as ->. vm_compute. reflexivity.
    + apply ToStringFacts.positive_to_string_whole. lia.
  - change (- (Zneg p # 1))%Q with (inject_Z (Zpos p)).
    rewrite ToStringFacts.string_of_Z_neg. f_equal.
    destruct (Z.eq_dec (Zpos p) (2 ^ 53)) as [E|Hne].
    + injection E as ->. vm_compute. reflexivity.
    + apply ToStringFacts.positive_to_string_whole. lia.
Qed.

(** ** [deterministicRandom] *)

Import ProvableFairness.

Lemma digest_u32_range (s : string) : 0 <= digest_u32 s < 2 ^ 32.
Proof.
  unfold digest_u32.
  destruct (SHA256.digest (bytes_of_string s))
    as [[[[[[[h0 h1] h2] h3] h4] h5] h6] h7].
  apply Z.mod_pos_bound. lia.
Qed.

Lemma digest_u32_hex (s : string) :
  substring 0 8 (sha256_hex s) = hex_word (digest_u32 s).
Proof.
  rewrite sha256_hex_first_word. unfold digest_u32.
  destruct (SHA256.digest (bytes_of_string s))
    as [[[[[[[h0 h1] h2] h3] h4] h5] h6] h7]. cbn [fst].
  now rewrite hex_word_mod.
Qed.

Lemma parseInt16_digest (s : string) :
  parseInt16 (substring 0 8 (sha256_hex s)) = Float.of_Z (digest_u32 s).
Proof.
  rewrite digest_u32_hex, parseInt16_hex_word.
  f_equal. apply Z.mod_small. apply digest_u32_range.
Qed.

Lemma deterministicRandom_unfold (serverSeed clientSeed : string)
    (nonce : number) :
  deterministicRandom serverSeed clientSeed nonce
  = Float.div (Float.of_Z (digest_u32 (seedData serverSeed clientSeed nonce)))
              (Float.of_Z 4294967295).
Proof. unfold deterministicRandom. now rewrite parseInt16_digest. Qed.

(** Dividing a 32-bit integer by [0xffffffff]. *)
Lemma div_u32_unit (n : Z) :
  0 <= n < 2 ^ 32 ->
  exists y, Float.div (Float.of_Z n) (Float.of_Z 4294967295) = Fin y
            /\ (0 <= y)%Q /\ (y <= 1)%Q /\ ((y == 1)%Q <-> n = 4294967295).
Proof.
  intros Hn. unfold Float.div, Float.of_Z.
  change (Qeq_bool (inject_Z 4294967295) 0) with false. cbv iota.
  destruct (Z.eq_dec n 0) as [->|Hn0];
    [|destruct (Z.eq_dec n 4294967295) as [->|Hmax]].
  - exists 0%Q. split; [reflexivity|]. repeat split; try easy.
  - exists 1%Q. split; [vm_compute; reflexivity|]. repeat split; try easy.
  - destruct (FloatFacts.fl_below_one (inject_Z n / inject_Z 4294967295))
      as (y & Ey & Hy0 & Hy1).
    + simpl. change (2 ^ 32) with 4294967296 in Hn. lia.
    + reflexivity.
    + exists y. split; [exact Ey|]. split; [exact Hy0|].
      split; [now apply Qlt_le_weak|].
      split; [intros E; rewrite E in Hy1; now apply Qlt_irrefl in Hy1|lia].
Qed.

(** ** Decimal text and [JSON.stringify] *)

Lemma append_empty_r (s : string) : (s ++ "")%string = s.
Proof.
  induction s as [|c s IH]; [reflexivity|].
  change (String c (s ++ "") = String c s). now rewrite IH.
Qed.

Lemma length_append (s t : string) :
  String.length (s ++ t) = (String.length s + String.length t)%nat.
Proof.
  induction s as [|c s IH]; [reflexivity|].
  change (S (String.length (s ++ t)) = S (String.length s + String.length t)).
  now rewrite IH.
Qed.

Lemma comma_free_uint (d : Decimal.uint) :
  comma_free (NilEmpty.string_of_uint d).
Proof.
  unfold comma_free.
  induction d; simpl; constructor; (discriminate || assumption).
Qed.

Lemma string_of_Z_comma_free (z : Z) : comma_free (string_of_Z z).
Proof.
  unfold string_of_Z, NilZero.string_of_int, NilZero.string_of_uint.
  destruct (Z.to_int z) as [d|d]; destruct d;
    try apply comma_free_uint;
    unfold comma_free; simpl; repeat constructor; try discriminate;
    apply comma_free_uint.
Qed.

Lemma string_of_Z_nonempty (z : Z) : string_of_Z z <> EmptyString.
Proof.
  unfold string_of_Z, NilZero.string_of_int, NilZero.string_of_uint.
  destruct (Z.to_int z) as [d|d]; destruct d; discriminate.
Qed.

Lemma string_of_Z_inj (a b : Z) : string_of_Z a = string_of_Z b -> a = b.
Proof.
  unfold string_of_Z. intros E.
  apply to_int_inj.
  assert (Hnn : forall z, Z.to_int z <> Decimal.Pos Decimal.Nil
                          /\ Z.to_int z <> Decimal.Neg Decimal.Nil).
  { intros [|p|p]; simpl; split; try discriminate;
      intros H; injection H; apply DecimalPos.Unsigned.to_uint_nonnil. }
  assert (Some (Z.to_int a) = Some (Z.to_int b)) as Es.
  { rewrite <- (NilZero.isi (Z.to_int a)) by apply Hnn.
    rewrite <- (NilZero.isi (Z.to_int b)) by apply Hnn.
    now rewrite E. }
  now injection Es.
Qed.

(** A comma-free word followed by nothing or by a comma can be read back
    in one way only. *)
Lemma word_then_separator (x y t1 t2 : string) :
  comma_free x -> comma_free y -> separated t1 -> separated t2 ->
  (x ++ t1 = y ++ t2)%string -> x = y /\ t1 = t2.
Proof.
  unfold comma_free. revert y.
  induction x as [|c x IH]; intros [|c' y] Hx Hy H1 H2 E; simpl in *.
  - now split.
  - exfalso. apply Forall_cons_iff in Hy as [Hc _].
    destruct H1 as [->|[r ->]]; [discriminate|].
    injection E as <- _. now apply Hc.
  - exfalso. apply Forall_cons_iff in Hx as [Hc _].
    destruct H2 as [->|[r ->]]; [discriminate|].
    injection E as -> _. now apply Hc.
  - injection E as -> E.
    apply Forall_cons_iff in Hx as [_ Hx].
    apply Forall_cons_iff in Hy as [_ Hy].
    destruct (IH y Hx Hy H1 H2 E) as [-> ->]. now split.
Qed.

Lemma join_comma_cons (x : string) (rest : list string) :
  exists t, join_comma (x :: rest) = (x ++ t)%string /\ separated t
            /\ (t = EmptyString <-> rest = [])
            /\ (forall r, t = String "," r -> r = join_comma rest).
Proof.
  destruct rest as [|y rest].
  - exists EmptyString. simpl. rewrite append_empty_r.
    split; [reflexivity|]. split; [now left|]. split; [easy|discriminate].
  - exists (String "," (join_comma (y :: rest))).
    split; [reflexivity|]. split; [right; eauto|].
    split; [split; discriminate|]. intros r E. now injection E.
Qed.

Lemma join_comma_inj (xs ys : list string) :
  Forall comma_free xs -> Forall comma_free ys ->
  Forall (fun s => s <> EmptyString) xs -> Forall (fun s => s <> EmptyString) ys ->
  join_comma xs = join_comma ys -> xs = ys.
Proof.
  revert ys. induction xs as [|x xs IH]; intros [|y ys] Hx Hy Nx Ny E.
  - reflexivity.
  - exfalso. destruct (join_comma_cons y ys) as (t & Et & _).
    rewrite Et in E. apply Forall_cons_iff in Ny as [Ny _].
    destruct y; [congruence|discriminate].
  - exfalso. destruct (join_comma_cons x xs) as (t & Et & _).
    rewrite Et in E. apply Forall_cons_iff in Nx as [Nx _].
    destruct x; [congruence|discriminate].
  - destruct (join_comma_cons x xs) as (t1 & E1 & S1 & N1 & R1).
    destruct (join_comma_cons y ys) as (t2 & E2 & S2 & N2 & R2).
    rewrite E1, E2 in E.
    apply Forall_cons_iff in Hx as [Hx Hxs]. apply Forall_cons_iff in Hy as [Hy Hys].
    apply Forall_cons_iff in Nx as [_ Nxs]. apply Forall_cons_iff in Ny as [_ Nys].
    destruct (word_then_separator x y t1 t2 Hx Hy S1 S2 E) as [-> Et].
    f_equal. subst t2.
    destruct S1 as [->|[r ->]].
    + destruct N1 as [N1 _], N2 as [N2 _]. now rewrite N1, N2.
    + apply IH; try assumption. now rewrite <- (R1 r), <- (R2 r).
Qed.

Lemma append_inj_r (a b t : string) : (a ++ t = b ++ t)%string -> a = b.
Proof.
  intros E.
  assert (L : String.length a = String.length b).
  { apply (f_equal String.length) in E. rewrite !length_append in E. lia. }
  revert b E L. induction a as [|c a IH]; intros [|c' b] E L;
    simpl in *; try discriminate; [reflexivity|].
  injection E as -> E. f_equal. apply IH; [assumption|lia].
Qed.

Lemma JSON_stringify_inj (xs ys : list Z) :
  JSON_stringify xs = JSON_stringify ys -> xs = ys.
Proof.
  unfold JSON_stringify. intros E.
  change ((String "[" (join_comma (List.map string_of_Z xs) ++ "]"))%string
          = (String "[" (join_comma (List.map string_of_Z ys) ++ "]"))%string) in E.
  injection E as E. apply append_inj_r in E.
  apply join_comma_inj in E.
  - revert ys E. induction xs as [|x xs IH]; intros [|y ys] E;
      simpl in *; try discriminate; [reflexivity|].
    injection E as Ex E. f_equal; [now apply string_of_Z_inj|now apply IH].
  - apply Forall_map, Forall_forall. intros; apply string_of_Z_comma_free.
  - apply Forall_map, Forall_forall. intros; apply string_of_Z_comma_free.
  - apply Forall_map, Forall_forall. intros; apply string_of_Z_nonempty.
  - apply Forall_map, Forall_forall. intros; apply string_of_Z_nonempty.
Qed.

Lemma JSON_stringify_eqb (xs ys : list Z) :
  String.eqb (JSON_stringify xs) (JSON_stringify ys) = true <-> xs = ys.
Proof.
  rewrite String.eqb_eq. split; [apply JSON_stringify_inj|now intros ->].
Qed.

(** ** [calculateFinalBin] *)

Lemma walk_bounds (path : list Z) (start : Z) :
  start - Z.of_nat (List.length path) <= fold_left walk path start
  <= start + Z.of_nat (List.length path).
Proof.
  revert start. induction path as [|d path IH]; intros start.
  - simpl. lia.
  - cbn [fold_left List.length]. specialize (IH (walk start d)).
    assert (start - 1 <= walk start d <= start + 1)
      by (unfold walk; destruct (d =? 0); lia).
    lia.
Qed.

Lemma walk_offset (path : list Z) (start : Z) :
  Forall (fun d => d = 0 \/ d = 1) path ->
  fold_left walk path start = start + offset path.
Proof.
  unfold offset. revert start.
  induction path as [|d path IH]; intros start Hp.
  - simpl. lia.
  - apply Forall_cons_iff in Hp as [Hd Hp].
    cbn [fold_left]. rewrite (IH _ Hp). unfold walk.
    destruct Hd as [-> | ->]; simpl count_occ;
      repeat (destruct (Z.eq_dec _ _); try lia);
      cbn [Z.eqb]; lia.
Qed.

Lemma Qfloor_nonneg (y : Q) : (0 <= y)%Q -> 0 <= Qfloor y.
Proof. intros Hy. apply (Qfloor_resp_le 0 y Hy). Qed.

(** The scale factor [17 / (path.length * 2)] of a non-empty path. *)
Lemma scaleFactor_finite (len : Z) :
  0 < len ->
  exists s, Float.div (Float.of_Z totalBins) (Float.of_Z (len * 2)) = Fin s
            /\ (0 <= s)%Q.
Proof.
  intros Hlen. unfold Float.div, Float.of_Z.
  destruct (len * 2) as [|p|p] eqn:Ep; try lia.
  change (Qeq_bool (inject_Z (Z.pos p)) 0) with false. cbv iota.
  destruct (FloatFacts.fl_bounded (inject_Z totalBins / inject_Z (Zpos p)) 4)
    as (s & Es & Hs & _); [lia|reflexivity| |eauto].
  simpl. unfold totalBins. rewrite Pos.mul_1_l. lia.
Qed.

Lemma min_nonneg_16 (x : number) :
  Float.nonneg x ->
  exists b, Float.min (Float.floor x) (Float.of_Z 16) = Float.of_Z b
            /\ 0 <= b <= 16.
Proof.
  destruct x as [| | |y]; try contradiction.
  - intros _. exists 16. split; [reflexivity|lia].
  - intros Hy. change (Float.floor (Fin y)) with (Float.of_Z (Qfloor y)).
    rewrite FloatFacts.min_of_Z. eexists; split; [reflexivity|].
    apply Qfloor_nonneg in Hy. lia.
Qed.

Lemma calculateFinalBin_unfold (path : list Z) :
  calculateFinalBin path
  = Float.min
      (Float.floor
         (Float.mul
            (Float.of_Z (fold_left walk path 0 + Z.of_nat (List.length path)))
            (Float.div (Float.of_Z 17)
                       (Float.of_Z (Z.of_nat (List.length path) * 2)))))
      (Float.of_Z 16).
Proof. reflexivity. Qed.

Lemma calculateFinalBin_range (path : list Z) :
  path <> [] ->
  exists b, calculateFinalBin path = Float.of_Z b /\ 0 <= b <= 16.
Proof.
  intros Hne. rewrite calculateFinalBin_unfold.
  assert (Hlen : 0 < Z.of_nat (List.length path))
    by (destruct path; [contradiction|simpl; lia]).
  destruct (scaleFactor_finite _ Hlen) as (s & Es & Hs).
  change (Float.of_Z 17) with (Float.of_Z totalBins). rewrite Es.
  apply min_nonneg_16.
  unfold Float.mul, Float.of_Z. apply FloatFacts.fl_nonneg.
  pose proof (walk_bounds path 0).
  simpl. unfold Qle in Hs; simpl in Hs. nia.
Qed.

Lemma clamp_of_Z (lo hi b : Z) :
  lo <= b <= hi -> clamp lo hi (Float.of_Z b) = Float.of_Z b.
Proof.
  intros Hb. unfold clamp.
  rewrite FloatFacts.min_of_Z, FloatFacts.max_of_Z. f_equal. lia.
Qed.

(** ** [calculatePath] *)

Lemma iterations_of_Z (rowCount : Z) :
  iterations (Float.of_Z rowCount)
  = if rowCount <=? max_array_length then Returns (Z.to_nat rowCount)
    else Throws "RangeError: Invalid array length".
Proof. unfold iterations, Float.of_Z. now rewrite Qceiling_Z. Qed.

Lemma calculatePath_of_Z (serverSeed clientSeed : string) (nonce : number)
    (rowCount : Z) :
  rowCount <= max_array_length ->
  calculatePath serverSeed clientSeed nonce (Float.of_Z rowCount)
  = Returns (path_of serverSeed clientSeed nonce rowCount).
Proof.
  intros Hr. unfold calculatePath. rewrite iterations_of_Z.
  destruct (Z.leb_spec rowCount max_array_length); [reflexivity|lia].
Qed.

(** Beyond the length an array can have, [calculatePath] throws. *)
Lemma calculatePath_too_long (serverSeed clientSeed : string) (nonce : number)
    (rowCount : Z) :
  max_array_length < rowCount ->
  calculatePath serverSeed clientSeed nonce (Float.of_Z rowCount)
  = Throws "RangeError: Invalid array length".
Proof.
  intros Hr. unfold calculatePath. rewrite iterations_of_Z.
  destruct (Z.leb_spec rowCount max_array_length); [lia|reflexivity].
Qed.


Lemma deterministicRandom_unit (serverSeed clientSeed : string)
    (nonce : number) :
  exists y, deterministicRandom serverSeed clientSeed nonce = Fin y
            /\ (0 <= y)%Q /\ (y <= 1)%Q
            /\ ((y == 1)%Q
                <-> digest_u32 (seedData serverSeed clientSeed nonce) = 4294967295).
Proof.
  rewrite deterministicRandom_unfold.
  apply div_u32_unit, digest_u32_range.
Qed.



(** ** Payout resolution *)

Lemma MULTIPLIERS_get_key (r : RiskMode) :
  MULTIPLIERS_get (risk_key r) = OwnTable (MULTIPLIERS r).
Proof. destruct r; reflexivity. Qed.

Lemma MULTIPLIERS_length (r : RiskMode) : List.length (MULTIPLIERS r) = 17%nat.
Proof. destruct r; reflexivity. Qed.

Lemma MULTIPLIERS_positive (r : RiskMode) :
  forallb positive_finite (MULTIPLIERS r) = true.
Proof. destruct r; vm_compute; reflexivity. Qed.

Lemma multiplierIndex_of_Z (r : RiskMode) (b : Z) :
  multiplierIndex (OwnTable (MULTIPLIERS r)) (Float.of_Z b)
  = Returns (Float.of_Z (Z.min (Z.max 0 b) 16)).
Proof.
  unfold multiplierIndex, length_minus_1. rewrite MULTIPLIERS_length.
  change (Z.of_nat 17 - 1) with 16.
  change (Returns (Float.min (Float.max (Float.of_Z 0) (Float.of_Z b)) (Float.of_Z 16))
          = Returns (Float.of_Z (Z.min (Z.max 0 b) 16))).
  now rewrite FloatFacts.max_of_Z, FloatFacts.min_of_Z.
Qed.

Lemma index_read_of_Z (t : list number) (i : Z) :
  0 <= i -> index_read (OwnTable t) (Float.of_Z i) = nth_error t (Z.to_nat i).
Proof.
  intros Hi. unfold index_read, Float.of_Z.
  rewrite Qfloor_Z, Qeq_bool_refl.
  destruct (Z.leb_spec 0 i); [reflexivity|lia].
Qed.

Lemma resolveMultiplier_of_Z (r : RiskMode) (b : Z) :
  resolveMultiplier (risk_key r) (Float.of_Z b)
  = Returns (nth_error (MULTIPLIERS r) (Z.to_nat (Z.min (Z.max 0 b) 16))).
Proof.
  unfold resolveMultiplier. rewrite MULTIPLIERS_get_key, multiplierIndex_of_Z.
  change (Returns (index_read (OwnTable (MULTIPLIERS r))
                              (Float.of_Z (Z.min (Z.max 0 b) 16)))
          = Returns (nth_error (MULTIPLIERS r) (Z.to_nat (Z.min (Z.max 0 b) 16)))).
  rewrite index_read_of_Z by lia. reflexivity.
Qed.

Lemma MULTIPLIERS_entry (r : RiskMode) (i : nat) :
  (i < 17)%nat ->
  exists q, nth_error (MULTIPLIERS r) i = Some (Fin q) /\ (0 < q)%Q.
Proof.
  intros Hi.
  destruct (nth_error (MULTIPLIERS r) i) as [m|] eqn:E.
  - pose proof (MULTIPLIERS_positive r) as Hpos.
    rewrite forallb_forall in Hpos.
    specialize (Hpos m (nth_error_In _ _ E)).
    destruct m as [| | |q]; try discriminate.
    exists q. split; [reflexivity|].
    unfold positive_finite in Hpos. apply negb_true_iff in Hpos.
    apply Qnot_le_lt. intros Hle. apply Qle_bool_iff in Hle. congruence.
  - apply nth_error_None in E. rewrite MULTIPLIERS_length in E. lia.
Qed.

(** ** [calculateGameResult] and [verifyGameResult] *)

Lemma path_of_nonempty (serverSeed clientSeed : string) (nonce : number)
    (rowCount : Z) :
  1 <= rowCount -> path_of serverSeed clientSeed nonce rowCount <> [].
Proof.
  intros Hr E. apply (f_equal (@List.length Z)) in E.
  unfold path_of in E. rewrite List.length_map, List.length_seq in E.
  simpl in E. lia.
Qed.

Lemma calculateGameResult_typed (serverSeed clientSeed : string)
    (nonce : number) (rowCount : Z) (risk : RiskMode) :
  1 <= rowCount <= max_array_length ->
  exists b q,
    calculateGameResult serverSeed clientSeed nonce (typed_options rowCount risk)
    = Returns {| clientSeed := clientSeed;
                 serverSeed := serverSeed;
                 hashedServerSeed := hashServerSeed serverSeed;
                 nonce := nonce;
                 gameResult := Float.of_Z b;
                 path := path_of serverSeed clientSeed nonce rowCount;
                 finalMultiplier := Some (Fin q) |}
    /\ 0 <= b <= 16 /\ (0 < q)%Q
    /\ nth_error (MULTIPLIERS risk) (Z.to_nat b) = Some (Fin q).
Proof.
  intros Hr.
  destruct (calculateFinalBin_range _ (path_of_nonempty serverSeed clientSeed
                                         nonce rowCount (proj1 Hr)))
    as (b & Eb & Hb).
  destruct (MULTIPLIERS_entry risk (Z.to_nat b) ltac:(lia)) as (q & Eq & Hq).
  exists b, q. split; [|auto].
  unfold calculateGameResult, typed_options. cbn [rows riskMode].
  rewrite calculatePath_of_Z by apply Hr.
  cbn [mbind completion_bind]. rewrite Eb, resolveMultiplier_of_Z.
  replace (Z.min (Z.max 0 b) 16) with b by lia.
  rewrite Eq. reflexivity.
Qed.




(* ===================================================================== *)
(** * Properties of the specification                                    *)
(* ===================================================================== *)





(** C2.  The sample of [deterministicRandom] is the first 8 hexadecimal
    characters (4 bytes) of the SHA-256 digest of
    ["{secret}:{public}:{counter}"], the counter in the text the template
    literal gives a number (its decimal digits when it is a whole number
    within [2^53]), read as an unsigned big-endian 32-bit integer and
    divided by [0xFFFFFFFF]; it lies in [[0, 1]] and is [1] exactly when
    that integer is [0xFFFFFFFF]. *)
Theorem C2_sample_is_digest_prefix_over_max
    (secretSeed publicSeed : string) (counter : number) :
  (exists n y,
     parseInt16
       (substring 0 8
          (sha256_hex (secretSeed ++ ":" ++ publicSeed ++ ":"
                                  ++ Number_toString counter)))
     = Float.of_Z n
     /\ substring 0 8
          (sha256_hex (secretSeed ++ ":" ++ publicSeed ++ ":"
                                  ++ Number_toString counter))
        = hex_word n
     /\ 0 <= n <= 4294967295
     /\ deterministicRandom secretSeed publicSeed counter
        = Float.div (Float.of_Z n) (Float.of_Z 4294967295)
     /\ deterministicRandom secretSeed publicSeed counter = Fin y
     /\ (0 <= y)%Q /\ (y <= 1)%Q
     /\ ((y == 1)%Q <-> n = 4294967295))
  /\ (forall k, Z.abs k <= 2 ^ 53 -> counter = Float.of_Z k ->
        Number_toString counter = string_of_Z k).
Proof.
  split; [|intros k Hk ->; now apply Number_toString_whole].
  fold (seedData secretSeed publicSeed counter).
  exists (digest_u32 (seedData secretSeed publicSeed counter)).
  destruct (deterministicRandom_unit secretSeed publicSeed counter)
    as (y & Ey & Hy0 & Hy1 & Hmax).
  exists y.
  pose proof (digest_u32_range (seedData secretSeed publicSeed counter)) as Hn.
  change (2 ^ 32) with 4294967296 in Hn.
  repeat split; try assumption; try lia; try apply Hmax.
  - apply parseInt16_digest.
  - apply digest_u32_hex.
  - apply deterministicRandom_unfold.
Qed.


(** C4.  For every non-empty path of 0 (left) / 1 (right) decisions, the
    bin is [floor ((offset + rowCount) * (17 / (rowCount * 2)))] clamped to
    [[0, 16]], with [offset] the number of rights minus the number of
    lefts and [rowCount] the length of the path; it is an integer of
    [[0, 16]] (in particular for the path lengths 8, 12 and 16). *)
Theorem C4_bin_is_scaled_floor_clamped (path : list Z) :
  path <> [] ->
  Forall (fun d => d = 0 \/ d = 1) path ->
  calculateFinalBin path
  = clamp 0 16
      (Float.floor
         (Float.mul
            (Float.of_Z (offset path + Z.of_nat (List.length path)))
            (Float.div (Float.of_Z 17)
                       (Float.of_Z (Z.of_nat (List.length path) * 2)))))
  /\ exists b, calculateFinalBin path = Float.of_Z b /\ 0 <= b <= 16.
Proof.
  intros Hne Hbits.
  destruct (calculateFinalBin_range path Hne) as (b & Eb & Hb).
  split; [|eauto].
  pose proof Eb as Eb'. rewrite calculateFinalBin_unfold in Eb'.
  rewrite (walk_offset path 0 Hbits), Z.add_0_l in Eb'.
  unfold clamp. rewrite Eb', Eb, FloatFacts.max_of_Z. f_equal. lia.
Qed.

(** C5.  For every integer bin index and every risk tier, the payout
    resolution of [calculateGameResult] clamps the index into
    [[0, table.length - 1]] and returns the entry of the tier's table at
    that index: it does not throw and never reads outside the table. *)
Theorem C5_resolution_clamps_and_returns_entry (binIndex : Z) (risk : RiskMode) :
  exists index m,
    multiplierIndex (MULTIPLIERS_get (risk_key risk)) (Float.of_Z binIndex)
    = Returns (Float.of_Z index)
    /\ index = Z.min (Z.max 0 binIndex)
                     (Z.of_nat (List.length (MULTIPLIERS risk)) - 1)
    /\ 0 <= index <= Z.of_nat (List.length (MULTIPLIERS risk)) - 1
    /\ resolveMultiplier (risk_key risk) (Float.of_Z binIndex)
       = Returns (Some m)
    /\ nth_error (MULTIPLIERS risk) (Z.to_nat index) = Some m
    /\ In m (MULTIPLIERS risk).
Proof.
  set (index := Z.min (Z.max 0 binIndex) 16).
  destruct (MULTIPLIERS_entry risk (Z.to_nat index) ltac:(lia)) as (q & Eq & _).
  exists index, (Fin q).
  rewrite MULTIPLIERS_get_key, multiplierIndex_of_Z, resolveMultiplier_of_Z,
    MULTIPLIERS_length.
  fold index. rewrite Eq.
  repeat split; try reflexivity; try lia.
  eapply nth_error_In; eauto.
Qed.

(** C6.  Each of the three tables, in the server's copy and in the
    client's, has exactly 17 entries, reads the same from both ends
    ([table[i] = table[16 - i]] for every [i] of [0..16]), and holds only
    positive numbers. *)
Theorem C6_tables_17_symmetric_positive (risk : RiskMode) :
  (List.length (MULTIPLIERS risk) = Z.to_nat totalBins
   /\ Forall (fun i => nth_error (MULTIPLIERS risk) i
                       = nth_error (MULTIPLIERS risk) (16 - i))
             (seq 0 17)
   /\ Forall (fun m => exists q, m = Fin q /\ (0 < q)%Q) (MULTIPLIERS risk))
  /\ (List.length (PlinkoService.MULTIPLIERS risk) = Z.to_nat totalBins
      /\ Forall (fun i => nth_error (PlinkoService.MULTIPLIERS risk) i
                          = nth_error (PlinkoService.MULTIPLIERS risk) (16 - i))
                (seq 0 17)
      /\ Forall (fun m => exists q, m = Fin q /\ (0 < q)%Q)
                (PlinkoService.MULTIPLIERS risk)).
Proof.
  assert (Hpos : forall t, forallb positive_finite t = true ->
                   Forall (fun m => exists q, m = Fin q /\ (0 < q)%Q) t).
  { intros t Ht. rewrite forallb_forall in Ht. apply Forall_forall.
    intros m Hm. specialize (Ht m Hm).
    destruct m as [| | |q]; try discriminate.
    exists q. split; [reflexivity|].
    apply negb_true_iff in Ht. apply Qnot_le_lt. intros Hle.
    apply Qle_bool_iff in Hle. simpl in Ht. congruence. }
  split; (split; [destruct risk; reflexivity|split]);
    try (apply Hpos; destruct risk; vm_compute; reflexivity);
    destruct risk; vm_compute; repeat constructor.
Qed.

(** C10.  [verifyGameResult] reads only the [gameResult], [finalMultiplier]
    and [path] of the reported result: two reports that agree on these
    three fields get the same verdict whatever their [clientSeed],
    [serverSeed], [hashedServerSeed] and [nonce]; the reported
    [hashedServerSeed] is never compared with the hash of the server
    seed: a report with a made-up commitment passes. *)
Theorem C10_verify_ignores_seed_fields
    (serverSeed clientSeed : string) (nonce : number) (options : GameOptions)
    (clientSeed1 serverSeed1 hashed1 : string) (nonce1 : number)
    (clientSeed2 serverSeed2 hashed2 : string) (nonce2 : number)
    (bin : number) (steps : list Z) (multiplier : option number) :
  verifyGameResult serverSeed clientSeed nonce options
    {| clientSeed := clientSeed1; serverSeed := serverSeed1;
       hashedServerSeed := hashed1; nonce := nonce1;
       gameResult := bin; path := steps; finalMultiplier := multiplier |}
  = verifyGameResult serverSeed clientSeed nonce options
      {| clientSeed := clientSeed2; serverSeed := serverSeed2;
         hashedServerSeed := hashed2; nonce := nonce2;
         gameResult := bin; path := steps; finalMultiplier := multiplier |}
  /\ (verifyGameResult zeros64 ones32 (Float.of_Z 0) (typed_options 8 medium)
        {| clientSeed := ones32; serverSeed := zeros64;
           hashedServerSeed := "not the hash of the server seed";
           nonce := Float.of_Z 0;
           gameResult := Float.of_Z 4; path := [0; 0; 0; 0; 1; 0; 0; 1];
           finalMultiplier := Some (Float.of_Z 1) |}
      = Returns true
      /\ hashServerSeed zeros64 <> "not the hash of the server seed"%string).
Proof.
  split.
  - unfold verifyGameResult.
    destruct (calculateGameResult serverSeed clientSeed nonce options);
      reflexivity.
  - split; [vm_compute; reflexivity|].
    vm_compute. discriminate.
Qed.

(* ===================================================================== *)
(** * The session handlers                                               *)
(* ===================================================================== *)

Lemma calculateGameResult_fields (serverSeed clientSeed : string)
    (nonce : number)
    (options : GameOptions) (result : ProvablyFairResult) :
  calculateGameResult serverSeed clientSeed nonce options = Returns result ->
  ProvableFairness.serverSeed result = serverSeed
  /\ ProvableFairness.clientSeed result = clientSeed
  /\ ProvableFairness.nonce result = nonce.
Proof.
  unfold calculateGameResult.
  destruct (calculatePath _ _ _ _) as [p|e]; [|discriminate].
  cbn [mbind completion_bind].
  destruct (resolveMultiplier _ _) as [m|e]; [|discriminate].
  cbn [mbind completion_bind]. intros [= <-]. auto.
Qed.

Lemma calculateGameResult_absent (serverSeed clientSeed : string)
    (nonce : number)
    (options : GameOptions) :
  MULTIPLIERS_get (riskMode options) = Absent ->
  exists e, calculateGameResult serverSeed clientSeed nonce options = Throws e.
Proof.
  intros Habs. unfold calculateGameResult.
  destruct (calculatePath _ _ _ _) as [p|e]; [|eauto].
  cbn [mbind completion_bind]. unfold resolveMultiplier. rewrite Habs.
  cbn. eauto.
Qed.

Section ServerFacts.

Import Server.

Variable StringToNumber : string -> number.

(** What [game:play] does, case by case. *)
Lemma on_play_cases (id : string) (data : PlayData)
    (states : gmap string UserState) (userState : UserState) :
  states !! id = Some userState ->
  (Server.bet_rejected StringToNumber (betAmount data) userState = true
   /\ Server.on_play StringToNumber id data states
      = {| userStates := states;
           emitted := [game_error "Invalid bet amount or insufficient balance"];
           thrown := None |})
  \/ (Server.bet_rejected StringToNumber (betAmount data) userState = false
      /\ exists e,
           calculateGameResult (serverSeed userState) (clientSeed userState)
             (nonce userState) (gameOptions StringToNumber data) = Throws e
           /\ Server.on_play StringToNumber id data states
              = {| userStates := states; emitted := []; thrown := Some e |})
  \/ (Server.bet_rejected StringToNumber (betAmount data) userState = false
      /\ exists result winAmount newBalance,
           calculateGameResult (serverSeed userState) (clientSeed userState)
             (nonce userState) (gameOptions StringToNumber data)
           = Returns result
           /\ Server.on_play StringToNumber id data states
              = {| userStates :=
                     <[id := {| serverSeed := serverSeed userState;
                                clientSeed := clientSeed userState;
                                nonce := Float.add (nonce userState)
                                                   (Float.of_Z 1);
                                balance := newBalance |}]> states;
                   emitted := [game_result result (betAmount data)
                                           winAmount newBalance];
                   thrown := None |}).
Proof.
  intros Hs. unfold Server.on_play. rewrite Hs.
  destruct (Server.bet_rejected StringToNumber _ _); [left; auto|right].
  destruct (calculateGameResult _ _ _ _) as [result|e];
    [right|left]; split; eauto.
Qed.

(** How [serve] goes on after one request. *)
Lemma serve_cons (id : string) (r : request) (rest : list request)
    (states : gmap string UserState) :
  serve StringToNumber id (r :: rest) states
  = match thrown (handle StringToNumber id r states) with
    | Some _ => (None, emitted (handle StringToNumber id r states))
    | None =>
        (fst (serve StringToNumber id rest
                (userStates (handle StringToNumber id r states))),
         emitted (handle StringToNumber id r states)
         ++ snd (serve StringToNumber id rest
                   (userStates (handle StringToNumber id r states))))
    end.
Proof.
  cbn [serve]. destruct (thrown _); [reflexivity|].
  now destruct (serve StringToNumber id rest _).
Qed.

Lemma triples_used_app (a b : list emit) :
  triples_used (a ++ b) = triples_used a ++ triples_used b.
Proof. apply omap_app. Qed.

(** The triples a session uses from a state with a whole counter [k]:
    each is under the current pair of seeds with a counter from [k] on,
    or under a pair installed later; none is used twice as long as no
    seed change installs a pair that was in use before and the counter
    stays within [2^53]. *)
Lemma serve_triples_fresh (id : string) (rs : list request) :
  forall (states : gmap string UserState) (st : UserState) (k : Z),
    states !! id = Some st ->
    nonce st = Float.of_Z k -> 0 <= k ->
    k + Z.of_nat (List.length rs) <= 2 ^ 53 ->
    NoDup ((serverSeed st, clientSeed st)
           :: seeds_installed rs (serverSeed st, clientSeed st)) ->
    NoDup (triples_used (snd (serve StringToNumber id rs states)))
    /\ Forall (fun t =>
                 (t.1 = (serverSeed st, clientSeed st)
                  /\ exists j, t.2 = Float.of_Z j /\ k <= j)
                 \/ In t.1 (seeds_installed rs (serverSeed st, clientSeed st)))
              (triples_used (snd (serve StringToNumber id rs states))).
Proof.
  induction rs as [|r rs IH]; intros states st k Hs Hk Hk0 Hlen Hfresh.
  - cbn. split; constructor.
  - rewrite serve_cons. cbn [List.length] in Hlen.
    assert (Hstay : forall next,
              serverSeed next = serverSeed st -> clientSeed next = clientSeed st ->
              seeds_after r (serverSeed st, clientSeed st) = None ->
              forall k', nonce next = Float.of_Z k' -> k <= k' <= k + 1 ->
              forall later,
                later = triples_used
                          (snd (serve StringToNumber id rs (<[id := next]> states))) ->
                NoDup later
                /\ Forall (fun t =>
                     (t.1 = (serverSeed st, clientSeed st)
                      /\ exists j, t.2 = Float.of_Z j /\ k' <= j)
                     \/ In t.1 (seeds_installed (r :: rs)
                                  (serverSeed st, clientSeed st))) later).
    { intros next Es Ec Hnone k' Hk' Hkk later ->.
      cbn [seeds_installed] in Hfresh |- *. rewrite Hnone in Hfresh |- *.
      rewrite <- Es, <- Ec in Hfresh |- *.
      apply (IH (<[id := next]> states) next k' (lookup_insert_eq _ _ _) Hk');
        [lia|lia|exact Hfresh]. }
    assert (Hmove : forall next,
              seeds_after r (serverSeed st, clientSeed st)
              = Some (serverSeed next, clientSeed next) ->
              nonce next = Float.of_Z 0 ->
              forall later,
                later = triples_used
                          (snd (serve StringToNumber id rs (<[id := next]> states))) ->
                NoDup later
                /\ Forall (fun t =>
                     (t.1 = (serverSeed st, clientSeed st)
                      /\ exists j, t.2 = Float.of_Z j /\ k <= j)
                     \/ In t.1 (seeds_installed (r :: rs)
                                  (serverSeed st, clientSeed st))) later).
    { intros next Hsome Hn later ->.
      cbn [seeds_installed] in Hfresh |- *. rewrite Hsome in Hfresh |- *.
      apply NoDup_cons_iff in Hfresh as [_ Hfresh].
      destruct (IH (<[id := next]> states) next 0 (lookup_insert_eq _ _ _) Hn
                  ltac:(lia) ltac:(lia) Hfresh) as [Hnd Hall].
      split; [exact Hnd|].
      eapply Forall_impl; [|exact Hall].
      intros t [[Ht _]|Ht]; right; [left; now symmetry|now right]. }
    destruct r as [s|[d|] g|[data|]]; cbn [handle].
    + unfold on_new_server_seed. rewrite Hs. cbn [thrown emitted userStates snd].
      rewrite triples_used_app. cbn [triples_used omap triple_of app].
      match goal with
      | |- context [<[id := ?n]> states] =>
          apply (Hmove n eq_refl eq_refl _ eq_refl)
      end.
    + unfold on_new_client_seed. rewrite Hs. cbn [thrown emitted userStates snd].
      rewrite triples_used_app. cbn [triples_used omap triple_of app].
      match goal with
      | |- context [<[id := ?n]> states] =>
          apply (Hmove n eq_refl eq_refl _ eq_refl)
      end.
    + unfold on_new_client_seed_without_payload. rewrite Hs.
      cbn [thrown emitted snd]. split; constructor.
    + destruct (on_play_cases id data states st Hs)
        as [[_ E]|[[_ (e & _ & E)]|[_ (result & w & b & Er & E)]]];
        rewrite E; cbn [thrown emitted userStates snd].
      * rewrite triples_used_app. cbn [triples_used omap triple_of app].
        rewrite <- (insert_id states id st Hs) at 1 2.
        destruct (Hstay st eq_refl eq_refl eq_refl k Hk ltac:(lia) _ eq_refl)
          as [Hnd Hall].
        split; [exact Hnd|exact Hall].
      * split; constructor.
      * rewrite triples_used_app.
        apply calculateGameResult_fields in Er as (Es & Ec & En).
        set (next := {| serverSeed := serverSeed st;
                        clientSeed := clientSeed st;
                        nonce := Float.add (nonce st) (Float.of_Z 1);
                        balance := b |}).
        assert (Hn : nonce next = Float.of_Z (k + 1)).
        { cbn [nonce next]. rewrite Hk. apply FloatFacts.add_of_Z. lia. }
        destruct (Hstay next eq_refl eq_refl eq_refl (k + 1) Hn ltac:(lia)
                    _ eq_refl) as [Hnd Hall].
        change (triples_used [game_result result (betAmount data) w b])
          with [(ProvableFairness.serverSeed result,
                 ProvableFairness.clientSeed result,
                 ProvableFairness.nonce result)].
        rewrite Es, Ec, En, Hk. cbn [app].
        split.
        -- constructor; [|exact Hnd].
           intros Hin. rewrite Forall_forall in Hall.
           destruct (Hall _ Hin) as [[_ (j & Ej & Hj)]|Hold]; cbn [fst snd] in *.
           ++ apply FloatFacts.of_Z_inj in Ej. lia.
           ++ apply NoDup_cons_iff in Hfresh as [Hnot _]. now apply Hnot.
        -- constructor.
           ++ left. cbn [fst snd]. split; [reflexivity|]. exists k. split; [reflexivity|lia].
           ++ eapply Forall_impl; [|exact Hall].
              intros t [[Ht (j & Ej & Hj)]|Ht]; [left|now right].
              split; [exact Ht|]. exists j. split; [exact Ej|lia].
    + unfold on_play_without_payload. rewrite Hs.
      cbn [thrown emitted snd]. split; constructor.
Qed.

End ServerFacts.

Section SessionProperties.

Import Server.

Variable StringToNumber : string -> number.

(** C7, with reuse of the counter ruled out unless a pair of seeds is
    installed again.  In every session state whose counter is a whole
    number from 0 to below [2^53]: a resolved play derives its outcome
    from the session's seeds and counter and then adds exactly 1 to the
    counter, leaving the seeds alone; a server-seed rotation first
    reveals the old server seed to the caller, installs the fresh one and
    resets the counter to 0; a client-seed change installs the submitted
    seed when one that is not empty is submitted, and the generated one
    otherwise, and resets the counter to 0; and over any requests whose
    seed changes never install a pair of seeds the session had before,
    and that keep the counter within [2^53], no (server seed, client
    seed, counter) triple is used twice. *)
Theorem C7_counter_steps_and_resets
    (id : string) (states : gmap string UserState) (userState : UserState)
    (k : Z) :
  states !! id = Some userState ->
  nonce userState = Float.of_Z k -> 0 <= k < 2 ^ 53 ->
  (forall data result bet win newBalance,
      emitted (on_play StringToNumber id data states)
      = [game_result result bet win newBalance] ->
      ProvableFairness.serverSeed result = serverSeed userState
      /\ ProvableFairness.clientSeed result = clientSeed userState
      /\ ProvableFairness.nonce result = Float.of_Z k
      /\ userStates (on_play StringToNumber id data states) !! id
         = Some {| serverSeed := serverSeed userState;
                   clientSeed := clientSeed userState;
                   nonce := Float.of_Z (k + 1);
                   balance := newBalance |})
  /\ (forall newServerSeed,
        on_new_server_seed id newServerSeed states
        = {| userStates :=
               <[id := {| serverSeed := newServerSeed;
                          clientSeed := clientSeed userState;
                          nonce := Float.of_Z 0;
                          balance := balance userState |}]> states;
             emitted := [game_reveal_seed (serverSeed userState);
                         game_new_seed_hashed (hashServerSeed newServerSeed)];
             thrown := None |})
  /\ (forall submitted generated,
        submitted <> ""%string ->
        on_new_client_seed id (Some submitted) generated states
        = {| userStates :=
               <[id := {| serverSeed := serverSeed userState;
                          clientSeed := submitted;
                          nonce := Float.of_Z 0;
                          balance := balance userState |}]> states;
             emitted := [game_new_seed_client submitted];
             thrown := None |})
  /\ (forall submitted generated,
        submitted = None \/ submitted = Some ""%string ->
        on_new_client_seed id submitted generated states
        = {| userStates :=
               <[id := {| serverSeed := serverSeed userState;
                          clientSeed := generated;
                          nonce := Float.of_Z 0;
                          balance := balance userState |}]> states;
             emitted := [game_new_seed_client generated];
             thrown := None |})
  /\ (forall rs,
        NoDup ((serverSeed userState, clientSeed userState)
               :: seeds_installed rs (serverSeed userState, clientSeed userState)) ->
        k + Z.of_nat (List.length rs) <= 2 ^ 53 ->
        NoDup (triples_used (snd (serve StringToNumber id rs states)))).
Proof.
  intros Hs Hk Hk53. split; [|split; [|split; [|split]]].
  - intros data result bet win newBalance Hem.
    destruct (on_play_cases StringToNumber id data states userState Hs)
      as [[_ E]|[[_ (e & _ & E)]|[_ (r & w & b & Er & E)]]];
      rewrite E in *; cbn [emitted userStates] in *; try discriminate.
    injection Hem as -> _ -> ->.
    apply calculateGameResult_fields in Er as (Es & Ec & En).
    rewrite lookup_insert_eq, Hk in *.
    rewrite FloatFacts.add_of_Z by lia. auto.
  - intros newServerSeed. unfold on_new_server_seed. now rewrite Hs.
  - intros submitted generated Hne. unfold on_new_client_seed. rewrite Hs.
    apply String.eqb_neq in Hne. now rewrite Hne.
  - intros submitted generated Hnone. unfold on_new_client_seed. rewrite Hs.
    destruct Hnone as [-> | ->]; reflexivity.
  - intros rs Hfresh Hlen.
    apply (serve_triples_fresh StringToNumber id rs states userState k Hs Hk);
      [lia|exact Hlen|exact Hfresh].
Qed.

(** C8.  A play whose [betAmount <= 0] or [betAmount > balance] holds is
    rejected: the handler only emits the error event, and the
    [userStates] map, hence the session's counter and balance, is what
    it was. *)
Theorem C8_invalid_bet_rejected_atomically
    (id : string) (data : PlayData) (states : gmap string UserState)
    (userState : UserState) :
  states !! id = Some userState ->
  Float.leb (ToNumber StringToNumber (betAmount data)) (Float.of_Z 0) = true
  \/ Float.gtb (ToNumber StringToNumber (betAmount data)) (balance userState)
     = true ->
  on_play StringToNumber id data states
  = {| userStates := states;
       emitted := [game_error "Invalid bet amount or insufficient balance"];
       thrown := None |}
  /\ triples_used (emitted (on_play StringToNumber id data states)) = []
  /\ userStates (on_play StringToNumber id data states) !! id
     = Some userState.
Proof.
  intros Hs Hbad.
  assert (E : bet_rejected StringToNumber (betAmount data) userState = true).
  { unfold bet_rejected. apply orb_true_iff. exact Hbad. }
  unfold on_play. rewrite Hs, E. cbn [emitted userStates].
  repeat split. exact Hs.
Qed.

(** C9, for what the handler screens by design.  A play request is
    rejected with an error event, no outcome and no change to the
    counter or the balance when [betAmount <= 0 || betAmount > balance]
    evaluates to true.  A missing (or otherwise falsy) [rows] is not
    rejected: it is played as 16 rows; a missing (or empty) [riskMode] is
    not rejected either: it is played as ['medium']. *)
Theorem C9_play_request_screening
    (id : string) (data : PlayData) (states : gmap string UserState)
    (userState : UserState) :
  states !! id = Some userState ->
  (bet_rejected StringToNumber (betAmount data) userState = true ->
   on_play StringToNumber id data states
   = {| userStates := states;
        emitted := [game_error "Invalid bet amount or insufficient balance"];
        thrown := None |})
  /\ (truthy (rows data) = false ->
      on_play StringToNumber id data states
      = on_play StringToNumber id
          {| betAmount := betAmount data;
             riskMode := riskMode data;
             rows := JNum (Float.of_Z 16) |} states)
  /\ (riskMode data = None \/ riskMode data = Some ""%string ->
      on_play StringToNumber id data states
      = on_play StringToNumber id
          {| betAmount := betAmount data;
             riskMode := Some "medium"%string;
             rows := rows data |} states).
Proof.
  intros Hs. split; [|split].
  - intros E. unfold on_play. now rewrite Hs, E.
  - intros Hrows. unfold on_play, gameOptions, or_else. cbn [rows betAmount riskMode].
    rewrite Hrows. reflexivity.
  - intros Hrisk. unfold on_play, gameOptions. cbn [rows betAmount riskMode].
    destruct Hrisk as [-> | ->]; reflexivity.
Qed.

(** A [riskMode] that names no property of the tables object makes the
    handler throw before it emits or stores anything; nothing catches the
    exception, the process ends and serves nothing more. *)
Lemma unknown_tier_ends_the_process
    (id : string) (data : PlayData) (states : gmap string UserState)
    (userState : UserState) (key : string) (rest : list request) :
  states !! id = Some userState ->
  riskMode data = Some key -> key <> ""%string ->
  MULTIPLIERS_get key = Absent ->
  bet_rejected StringToNumber (betAmount data) userState = false ->
  (exists e,
     on_play StringToNumber id data states
     = {| userStates := states; emitted := []; thrown := Some e |})
  /\ serve StringToNumber id (Play (Some data) :: rest) states = (None, []).
Proof.
  intros Hs Hkey Hne Habs Hbet.
  assert (Hthrow : exists e,
            on_play StringToNumber id data states
            = {| userStates := states; emitted := []; thrown := Some e |}).
  { destruct (on_play_cases StringToNumber id data states userState Hs)
      as [[E _]|[[_ (e & _ & E)]|[_ (r & w & b & Er & _)]]].
    - congruence.
    - eauto.
    - exfalso.
      destruct (calculateGameResult_absent (serverSeed userState)
                  (clientSeed userState) (nonce userState)
                  (gameOptions StringToNumber data)) as (e & Ee).
      + unfold gameOptions. cbn [ProvableFairness.riskMode]. rewrite Hkey.
        apply String.eqb_neq in Hne. now rewrite Hne.
      + congruence. }
  split; [exact Hthrow|].
  destruct Hthrow as (e & E). rewrite serve_cons. cbn [handle].
  now rewrite E.
Qed.

End SessionProperties.

(* ===================================================================== *)
(** * Instances                                                          *)
(* ===================================================================== *)

(** ** The runtime model on reference values *)

Example sha256_hex_empty :
  sha256_hex ""
  = "e3b0c44298fc1c149afbf4c8996fb92427ae41e4649b934ca495991b7852b855"%string.
Proof. vm_compute. reflexivity. Qed.

Example sha256_hex_abc :
  sha256_hex "abc"
  = "ba7816bf8f01cfea414140de5dae2223b00361a396177a9cb410ff61f20015ad"%string.
Proof. vm_compute. reflexivity. Qed.

Example sha256_hex_two_blocks :
  sha256_hex "abcdbcdecdefdefgefghfghighijhijkijkljklmklmnlmnomnopnopq"
  = "248d6a61d20638b8e5c026930c3e6039a33ce45964ff2167f6ecedd419db06c1"%string.
Proof. vm_compute. reflexivity. Qed.

(** [0.1] is [0x1.999999999999ap-4]. *)
Example fl_one_tenth :
  Float.fl (1 # 10) = Fin (3602879701896397 # 36028797018963968).
Proof. vm_compute. reflexivity. Qed.

(** [49 * (1 / 49)] is [0.9999999999999999], while [3 * (1 / 3)] is [1]. *)
Example fl_forty_nine :
  Float.mul (Fin 49) (Float.div (Fin 1) (Fin 49))
  = Fin (9007199254740991 # 9007199254740992).
Proof. vm_compute. reflexivity. Qed.

Example fl_three :
  Float.mul (Fin 3) (Float.div (Fin 1) (Fin 3)) = Fin 1.
Proof. vm_compute. reflexivity. Qed.

Example fl_overflow :
  Float.mul (Fin (inject_Z (2 ^ 1023))) (Fin 2) = PInf.
Proof. vm_compute. reflexivity. Qed.

Example fl_gradual_underflow :
  Float.div (Fin 3) (Fin (inject_Z (2 ^ 1075))) = Fin (1 # Z.to_pos (2 ^ 1073)).
Proof. vm_compute. reflexivity. Qed.

(** The model agrees with [SpecFloat] on the scaling of
    [calculateFinalBin], for every count of rights in paths of 0, 8, 12
    and 16 rows and for 49 rights in 833 rows, and on the division of
    [deterministicRandom]. *)
Example bins_agree_with_SpecFloat :
  forallb
    (fun len =>
       forallb
         (fun k =>
            Float.same
              (Float.of_spec_float
                 (SFmul 53 1024 (Float.spec_of_Z (2 * Z.of_nat k))
                    (SFdiv 53 1024 (Float.spec_of_Z 17)
                       (Float.spec_of_Z (Z.of_nat len * 2)))))
              (Float.mul (Float.of_Z (2 * Z.of_nat k))
                 (Float.div (Float.of_Z 17) (Float.of_Z (Z.of_nat len * 2)))))
         (seq 0 (S len)))
    [0; 8; 12; 16]%nat
  = true
  /\ Float.same
       (Float.of_spec_float
          (SFmul 53 1024 (Float.spec_of_Z 98)
             (SFdiv 53 1024 (Float.spec_of_Z 17) (Float.spec_of_Z 1666))))
       (Float.mul (Float.of_Z 98)
          (Float.div (Float.of_Z 17) (Float.of_Z 1666)))
     = true.
Proof. split; vm_compute; reflexivity. Qed.

Example samples_agree_with_SpecFloat :
  forallb
    (fun n =>
       Float.same
         (Float.of_spec_float
            (SFdiv 53 1024 (Float.spec_of_Z n) (Float.spec_of_Z 4294967295)))
         (Float.div (Float.of_Z n) (Float.of_Z 4294967295)))
    [0; 1; 2; 1688644204; 2147483647; 2147483648; 4294967294; 4294967295]
  = true.
Proof. vm_compute. reflexivity. Qed.

Example parseInt16_forms :
  parseInt16 "ff" = Float.of_Z 255 /\ parseInt16 " -0x1Fz" = Float.of_Z (-31)
  /\ parseInt16 "xyz" = NaN.
Proof. repeat split; vm_compute; reflexivity. Qed.

Example JSON_stringify_forms :
  JSON_stringify [] = "[]"%string /\ JSON_stringify [0; 1; 1] = "[0,1,1]"%string
  /\ JSON_stringify [-12] = "[-12]"%string.
Proof. repeat split; vm_compute; reflexivity. Qed.

(** ** The reference scenario *)

Example scenario_derivation :
  calculateGameResult zeros64 ones32 (Float.of_Z 0) (typed_options 8 medium)
  = Returns scenario_result.
Proof. vm_compute. reflexivity. Qed.

Example scenario_verifies :
  verifyGameResult zeros64 ones32 (Float.of_Z 0) (typed_options 8 medium) scenario_result
  = Returns true.
Proof. vm_compute. reflexivity. Qed.

(** Flipping one bit of the path is detected... *)
Example scenario_flipped_bit :
  verifyGameResult zeros64 ones32 (Float.of_Z 0) (typed_options 8 medium)
    {| clientSeed := ones32; serverSeed := zeros64;
       hashedServerSeed := hashedServerSeed scenario_result; nonce := Float.of_Z 0;
       gameResult := Float.of_Z 4; path := [1; 0; 0; 0; 1; 0; 0; 1];
       finalMultiplier := Some (Float.of_Z 1) |}
  = Returns false.
Proof. vm_compute. reflexivity. Qed.

(** ...a forged commitment is not. *)
Example scenario_forged_commitment :
  verifyGameResult zeros64 ones32 (Float.of_Z 0) (typed_options 8 medium)
    {| clientSeed := "someone else"; serverSeed := "another seed";
       hashedServerSeed := "not the hash of the server seed"; nonce := Float.of_Z 41;
       gameResult := Float.of_Z 4; path := [0; 0; 0; 0; 1; 0; 0; 1];
       finalMultiplier := Some (Float.of_Z 1) |}
  = Returns true.
Proof. vm_compute. reflexivity. Qed.

(** With the bin count fixed at 17, a path whose length is not 8, 12 or 16
    can land one bin lower than the exact quotient says: 49 rights among
    833 rows give [98 * (17 / 1666) = 0.9999999999999999], bin 0. *)
Example long_path_rounds_down :
  calculateFinalBin (List.repeat 1 49 ++ List.repeat 0 784) = Float.of_Z 0.
Proof. vm_compute. reflexivity. Qed.

(** An inherited member of the tables object is not a table: the play goes
    through with an undefined multiplier. *)
Example inherited_member_is_no_table :
  resolveMultiplier "toString" (Float.of_Z 4) = Returns None
  /\ resolveMultiplier "extreme" (Float.of_Z 4)
     = Throws "TypeError: Cannot read properties of undefined (reading 'length')".
Proof. split; vm_compute; reflexivity. Qed.

(** ** Counters and their text *)

(** The text of a number in a template literal: whole numbers up to
    [2^53] digit by digit, larger ones by their shortest digits followed
    by zeros, exponent notation from [1e21]. *)
Example Number_toString_forms :
  List.map Number_toString
    [Float.of_Z 0; Float.of_Z 7; Float.of_Z (-42); Float.of_Z 4294967295;
     Float.of_Z (2 ^ 53); Float.of_Z (2 ^ 53 + 2); Float.of_Z (2 ^ 63);
     Float.of_Z (10 ^ 20); Float.of_Z (10 ^ 21); lit 0.1; lit 1.5;
     Float.add (lit 0.1) (lit 0.2); lit (1 # 10000000); NaN; PInf; NInf]
  = ["0"; "7"; "-42"; "4294967295"; "9007199254740992"; "9007199254740994";
     "9223372036854776000"; "100000000000000000000"; "1e+21"; "0.1"; "1.5";
     "0.30000000000000004"; "1e-7"; "NaN"; "Infinity"; "-Infinity"]%string.
Proof. vm_compute. reflexivity. Qed.

(** From [2^53] on the sums [nonce + i] are rounded: the counters of the
    rows repeat and skip. *)
Example counters_from_2_53 :
  List.map (counter (Float.of_Z (2 ^ 53))) [0; 1; 2; 3; 4; 5]%nat
  = List.map Float.of_Z
      [2 ^ 53; 2 ^ 53; 2 ^ 53 + 2; 2 ^ 53 + 4; 2 ^ 53 + 4; 2 ^ 53 + 4].
Proof. vm_compute. reflexivity. Qed.

(** ...and [nonce++] leaves a counter of [2^53] where it is. *)
Example counter_sticks_at_2_53 :
  Float.add (Float.of_Z (2 ^ 53)) (Float.of_Z 1) = Float.of_Z (2 ^ 53).
Proof. vm_compute. reflexivity. Qed.

(** The text hashed for the counter [1e21]. *)
Example seedData_at_1e21 :
  seedData "s" "c" (Float.of_Z (10 ^ 21)) = "s:c:1e+21"%string.
Proof. vm_compute. reflexivity. Qed.

(** ** Play requests with missing or unknown fields *)

Example play_without_rows_uses_16 :
  List.map (fun e => match e with
                     | Server.game_result r _ _ _ => List.length (path r)
                     | _ => O
                     end)
    (Server.emitted
       (Server.on_play StringToNumber_unused "socket-1" no_rows one_session))
  = [16%nat].
Proof. vm_compute. reflexivity. Qed.

Example play_without_riskMode_uses_medium :
  Server.on_play StringToNumber_unused "socket-1" no_riskMode one_session
  = Server.on_play StringToNumber_unused "socket-1" bet_10 one_session
  /\ Server.emitted
       (Server.on_play StringToNumber_unused "socket-1" no_riskMode one_session)
     = [Server.game_result scenario_result (JNum (Float.of_Z 10))
          (Float.of_Z 10) (Float.of_Z 1000)].
Proof. split; vm_compute; reflexivity. Qed.

Example play_with_unknown_tier_throws :
  Server.on_play StringToNumber_unused "socket-1" extreme_risk one_session
  = {| Server.userStates := one_session;
       Server.emitted := [];
       Server.thrown :=
         Some "TypeError: Cannot read properties of undefined (reading 'length')"
    |}
  /\ Server.serve StringToNumber_unused "socket-1"
       [Server.Play (Some extreme_risk); Server.Play (Some bet_10)] one_session
     = (None, []).
Proof. split; vm_compute; reflexivity. Qed.

(** A request without [betAmount] passes the guard ([undefined <= 0] and
    [undefined > 1000] are both false): an outcome is produced and
    emitted, the counter goes from 0 to 1 and the balance becomes
    [NaN]. *)
Example play_without_betAmount_is_resolved :
  Server.emitted
    (Server.on_play StringToNumber_unused "socket-1" no_bet one_session)
  = [Server.game_result scenario_result JUndefined NaN NaN]
  /\ Server.userStates
       (Server.on_play StringToNumber_unused "socket-1" no_bet one_session)
     !! "socket-1"%string
     = Some {| Server.serverSeed := zeros64;
               Server.clientSeed := ones32;
               Server.nonce := Float.of_Z 1;
               Server.balance := NaN |}.
Proof. split; vm_compute; reflexivity. Qed.

(** Requests that come without a payload make the handlers throw once
    they have found the state. *)
Example requests_without_payload_throw :
  Server.serve StringToNumber_unused "socket-1" [Server.Play None] one_session
  = (None, [])
  /\ Server.serve StringToNumber_unused "socket-1"
       [Server.NewClientSeed None "unused"] one_session
     = (None, []).
Proof. split; vm_compute; reflexivity. Qed.

(** ** The theorems at sample inputs, and inputs where the unrestricted
       statements fail *)





Lemma C4_witness :
  [0; 0; 0; 0; 1; 0; 0; 1] <> []
  /\ Forall (fun d => d = 0 \/ d = 1) [0; 0; 0; 0; 1; 0; 0; 1]
  /\ calculateFinalBin [0; 0; 0; 0; 1; 0; 0; 1]
     = clamp 0 16
         (Float.floor
            (Float.mul
               (Float.of_Z (offset [0; 0; 0; 0; 1; 0; 0; 1]
                            + Z.of_nat (List.length [0; 0; 0; 0; 1; 0; 0; 1])))
               (Float.div (Float.of_Z 17)
                  (Float.of_Z
                     (Z.of_nat (List.length [0; 0; 0; 0; 1; 0; 0; 1]) * 2)))))
  /\ exists b, calculateFinalBin [0; 0; 0; 0; 1; 0; 0; 1] = Float.of_Z b
               /\ 0 <= b <= 16.
Proof.
  assert (Hne : [0; 0; 0; 0; 1; 0; 0; 1] <> []) by discriminate.
  assert (Hbits : Forall (fun d => d = 0 \/ d = 1) [0; 0; 0; 0; 1; 0; 0; 1])
    by (repeat constructor; auto).
  split; [exact Hne|]. split; [exact Hbits|].
  apply (C4_bin_is_scaled_floor_clamped [0; 0; 0; 0; 1; 0; 0; 1] Hne Hbits).
Defined.

Lemma one_session_lookup : one_session !! "socket-1"%string = Some session_start.
Proof. vm_compute. reflexivity. Defined.

Lemma C7_witness :
  one_session !! "socket-1"%string = Some session_start
  /\ Server.nonce session_start = Float.of_Z 0
  /\ 0 <= 0 < 2 ^ 53
  /\ (forall data result bet win newBalance,
         Server.emitted
           (Server.on_play StringToNumber_unused "socket-1" data one_session)
         = [Server.game_result result bet win newBalance] ->
         serverSeed result = Server.serverSeed session_start
         /\ clientSeed result = Server.clientSeed session_start
         /\ nonce result = Float.of_Z 0
         /\ Server.userStates
              (Server.on_play StringToNumber_unused "socket-1" data one_session)
            !! "socket-1"%string
            = Some {| Server.serverSeed := Server.serverSeed session_start;
                      Server.clientSeed := Server.clientSeed session_start;
                      Server.nonce := Float.of_Z (0 + 1);
                      Server.balance := newBalance |})
  /\ (forall newServerSeed,
         Server.on_new_server_seed "socket-1" newServerSeed one_session
         = {| Server.userStates :=
                <["socket-1"%string :=
                    {| Server.serverSeed := newServerSeed;
                       Server.clientSeed := Server.clientSeed session_start;
                       Server.nonce := Float.of_Z 0;
                       Server.balance := Server.balance session_start |}]>
                  one_session;
              Server.emitted :=
                [Server.game_reveal_seed (Server.serverSeed session_start);
                 Server.game_new_seed_hashed (hashServerSeed newServerSeed)];
              Server.thrown := None |})
  /\ (forall submitted generated,
         submitted <> ""%string ->
         Server.on_new_client_seed "socket-1" (Some submitted) generated
           one_session
         = {| Server.userStates :=
                <["socket-1"%string :=
                    {| Server.serverSeed := Server.serverSeed session_start;
                       Server.clientSeed := submitted;
                       Server.nonce := Float.of_Z 0;
                       Server.balance := Server.balance session_start |}]>
                  one_session;
              Server.emitted := [Server.game_new_seed_client submitted];
              Server.thrown := None |})
  /\ (forall submitted generated,
         submitted = None \/ submitted = Some ""%string ->
         Server.on_new_client_seed "socket-1" submitted generated one_session
         = {| Server.userStates :=
                <["socket-1"%string :=
                    {| Server.serverSeed := Server.serverSeed session_start;
                       Server.clientSeed := generated;
                       Server.nonce := Float.of_Z 0;
                       Server.balance := Server.balance session_start |}]>
                  one_session;
              Server.emitted := [Server.game_new_seed_client generated];
              Server.thrown := None |})
  /\ (forall rs,
         NoDup ((Server.serverSeed session_start, Server.clientSeed session_start)
                :: Server.seeds_installed rs
                     (Server.serverSeed session_start,
                      Server.clientSeed session_start)) ->
         0 + Z.of_nat (List.length rs) <= 2 ^ 53 ->
         NoDup (Server.triples_used
                  (snd (Server.serve StringToNumber_unused "socket-1" rs
                          one_session)))).
Proof.
  assert (Hk : 0 <= 0 < 2 ^ 53) by (split; [lia|reflexivity]).
  split; [exact one_session_lookup|]. split; [reflexivity|].
  split; [exact Hk|].
  apply (C7_counter_steps_and_resets StringToNumber_unused "socket-1"
           one_session session_start 0 one_session_lookup eq_refl Hk).
Defined.

(** A client that submits again the client seed it already has gets its
    counter reset to 0 under the same pair of seeds: the play before and
    the play after the request both use nonce 0 (and yield the same
    outcome).  And a play at the counter [2^53] leaves the counter where
    it is: [2^53 + 1] is rounded to [2^53]. *)
Lemma C7_counterexample_resubmitted_client_seed :
  (Server.triples_used
     (snd (Server.serve StringToNumber_unused "socket-1"
             [Server.Play (Some bet_10);
              Server.NewClientSeed (Some (Some ones32)) "unused";
              Server.Play (Some bet_10)]
             one_session))
   = [(zeros64, ones32, Float.of_Z 0); (zeros64, ones32, Float.of_Z 0)]
   /\ ~ NoDup
        (Server.triples_used
           (snd (Server.serve StringToNumber_unused "socket-1"
                   [Server.Play (Some bet_10);
                    Server.NewClientSeed (Some (Some ones32)) "unused";
                    Server.Play (Some bet_10)]
                   one_session))))
  /\ Server.nonce
       <$> Server.userStates
             (Server.on_play StringToNumber_unused "socket-1" bet_10
                (<["socket-1"%string :=
                     {| Server.serverSeed := zeros64;
                        Server.clientSeed := ones32;
                        Server.nonce := Float.of_Z (2 ^ 53);
                        Server.balance := Float.of_Z 1000 |}]> ∅))
           !! "socket-1"%string
     = Some (Float.of_Z (2 ^ 53)).
Proof.
  assert (E : Server.triples_used
                (snd (Server.serve StringToNumber_unused "socket-1"
                        [Server.Play (Some bet_10);
                         Server.NewClientSeed (Some (Some ones32)) "unused";
                         Server.Play (Some bet_10)]
                        one_session))
              = [(zeros64, ones32, Float.of_Z 0);
                 (zeros64, ones32, Float.of_Z 0)])
    by (vm_compute; reflexivity).
  split; [|vm_compute; reflexivity].
  split; [exact E|]. rewrite E. intros Hnd.
  apply NoDup_cons_iff in Hnd as [Hin _]. apply Hin. now left.
Qed.

Lemma C8_witness :
  one_session !! "socket-1"%string = Some session_start
  /\ (Float.leb (Server.ToNumber StringToNumber_unused (Server.betAmount bet_2000))
                (Float.of_Z 0) = true
      \/ Float.gtb (Server.ToNumber StringToNumber_unused
                      (Server.betAmount bet_2000))
                   (Server.balance session_start) = true)
  /\ Server.on_play StringToNumber_unused "socket-1" bet_2000 one_session
     = {| Server.userStates := one_session;
          Server.emitted :=
            [Server.game_error "Invalid bet amount or insufficient balance"];
          Server.thrown := None |}
  /\ Server.triples_used
       (Server.emitted
          (Server.on_play StringToNumber_unused "socket-1" bet_2000 one_session))
     = []
  /\ Server.userStates
       (Server.on_play StringToNumber_unused "socket-1" bet_2000 one_session)
     !! "socket-1"%string
     = Some session_start.
Proof.
  assert (Hbad :
            Float.leb (Server.ToNumber StringToNumber_unused
                         (Server.betAmount bet_2000)) (Float.of_Z 0) = true
            \/ Float.gtb (Server.ToNumber StringToNumber_unused
                            (Server.betAmount bet_2000))
                         (Server.balance session_start) = true)
    by (right; vm_compute; reflexivity).
  split; [exact one_session_lookup|]. split; [exact Hbad|].
  apply (C8_invalid_bet_rejected_atomically StringToNumber_unused "socket-1"
           bet_2000 one_session session_start one_session_lookup Hbad).
Defined.

(** The three parts of C9, each at a request that meets its condition: a
    bet above the balance, a request without [rows], a request without
    [riskMode]. *)
Lemma C9_witness :
  one_session !! "socket-1"%string = Some session_start
  /\ (Server.bet_rejected StringToNumber_unused (Server.betAmount bet_2000)
        session_start = true
      /\ Server.on_play StringToNumber_unused "socket-1" bet_2000 one_session
         = {| Server.userStates := one_session;
              Server.emitted :=
                [Server.game_error "Invalid bet amount or insufficient balance"];
              Server.thrown := None |})
  /\ (Server.truthy (Server.rows no_rows) = false
      /\ Server.on_play StringToNumber_unused "socket-1" no_rows one_session
         = Server.on_play StringToNumber_unused "socket-1"
             {| Server.betAmount := Server.betAmount no_rows;
                Server.riskMode := Server.riskMode no_rows;
                Server.rows := JNum (Float.of_Z 16) |} one_session)
  /\ ((Server.riskMode no_riskMode = None
       \/ Server.riskMode no_riskMode = Some ""%string)
      /\ Server.on_play StringToNumber_unused "socket-1" no_riskMode one_session
         = Server.on_play StringToNumber_unused "socket-1"
             {| Server.betAmount := Server.betAmount no_riskMode;
                Server.riskMode := Some "medium"%string;
                Server.rows := Server.rows no_riskMode |} one_session).
Proof.
  assert (Hbet : Server.bet_rejected StringToNumber_unused
                   (Server.betAmount bet_2000) session_start = true)
    by (vm_compute; reflexivity).
  assert (Hrows : Server.truthy (Server.rows no_rows) = false) by reflexivity.
  assert (Hrisk : Server.riskMode no_riskMode = None
                  \/ Server.riskMode no_riskMode = Some ""%string)
    by (left; reflexivity).
  split; [exact one_session_lookup|].
  split; [split; [exact Hbet|]|split; [split; [exact Hrows|]|split; [exact Hrisk|]]].
  - exact (proj1 (C9_play_request_screening StringToNumber_unused "socket-1"
                    bet_2000 one_session session_start one_session_lookup) Hbet).
  - exact (proj1 (proj2 (C9_play_request_screening StringToNumber_unused
                           "socket-1" no_rows one_session session_start
                           one_session_lookup)) Hrows).
  - exact (proj2 (proj2 (C9_play_request_screening StringToNumber_unused
                           "socket-1" no_riskMode one_session session_start
                           one_session_lookup)) Hrisk).
Defined.

(** A request without [rows] is not rejected: 16 rows are played, an
    outcome is produced and emitted, and the counter goes from 0 to 1. *)
Lemma C9_counterexample_missing_rows :
  Server.rows no_rows = JUndefined
  /\ Server.emitted
       (Server.on_play StringToNumber_unused "socket-1" no_rows one_session)
     = [Server.game_result no_rows_result (JNum (Float.of_Z 10))
          (Float.of_Z 3) (Float.of_Z 993)]
  /\ Server.userStates
       (Server.on_play StringToNumber_unused "socket-1" no_rows one_session)
     !! "socket-1"%string
     = Some {| Server.serverSeed := zeros64;
               Server.clientSeed := ones32;
               Server.nonce := Float.of_Z 1;
               Server.balance := Float.of_Z 993 |}.
Proof. split; [reflexivity|]. split; vm_compute; reflexivity. Qed.

(* ===================================================================== *)
(** * Further properties of the code                                     *)
(* ===================================================================== *)

(** ** Seeds and commitments as text *)

Lemma lower_hex_hex_digit (d : Z) : 0 <= d < 16 -> lower_hex (hex_digit d) = true.
Proof. intros Hd. nibble_cases d; reflexivity. Qed.

Lemma list_ascii_append (s t : string) :
  list_ascii_of_string (s ++ t)
  = (list_ascii_of_string s ++ list_ascii_of_string t)%list.
Proof.
  induction s as [|c s IH]; [reflexivity|].
  change (c :: list_ascii_of_string (s ++ t)
          = c :: (list_ascii_of_string s ++ list_ascii_of_string t)%list).
  now rewrite IH.
Qed.

Lemma lower_hex_text_append (s t : string) :
  lower_hex_text s -> lower_hex_text t -> lower_hex_text (s ++ t).
Proof.
  unfold lower_hex_text. rewrite list_ascii_append. apply Forall_app_2.
Qed.

Lemma lower_hex_nibbles (k : nat) (w : Z) : lower_hex_text (hex_nibbles k w).
Proof.
  unfold lower_hex_text. induction k as [|k IH]; simpl; constructor.
  - apply lower_hex_hex_digit, nibble_bound.
  - exact IH.
Qed.

Lemma hex_nibbles_length (k : nat) (w : Z) : String.length (hex_nibbles k w) = k.
Proof. induction k as [|k IH]; simpl; [reflexivity|now rewrite IH]. Qed.

Lemma lower_hex_colon_free (s : string) : lower_hex_text s -> colon_free s.
Proof.
  unfold lower_hex_text, colon_free. apply Forall_impl.
  intros c Hc ->. discriminate.
Qed.

(** X1.  [hashServerSeed] always returns 64 characters of [0-9a-f]. *)
Theorem X1_commitment_is_64_lower_hex (serverSeed : string) :
  String.length (hashServerSeed serverSeed) = 64%nat
  /\ lower_hex_text (hashServerSeed serverSeed).
Proof.
  unfold hashServerSeed, sha256_hex.
  destruct (SHA256.digest (bytes_of_string serverSeed))
    as [[[[[[[h0 h1] h2] h3] h4] h5] h6] h7].
  split.
  - rewrite !length_append. unfold hex_word. rewrite !hex_nibbles_length.
    reflexivity.
  - repeat apply lower_hex_text_append; apply lower_hex_nibbles.
Qed.

Lemma hex_of_bytes_cons (b : Z) (rest : list Z) :
  hex_of_bytes (b :: rest)
  = String (hex_digit ((b / 16) mod 16))
      (String (hex_digit (b mod 16)) (hex_of_bytes rest)).
Proof.
  cbn [hex_of_bytes hex_nibbles].
  change (16 ^ Z.of_nat 1) with 16. change (16 ^ Z.of_nat 0) with 1.
  rewrite Z.div_1_r. reflexivity.
Qed.

Lemma hex_digit_inj (a b : Z) :
  0 <= a < 16 -> 0 <= b < 16 -> hex_digit a = hex_digit b -> a = b.
Proof.
  intros Ha Hb E. apply (f_equal hex_value) in E.
  rewrite !hex_value_hex_digit in E by assumption. now injection E.
Qed.

Lemma hex_of_bytes_length (bytes : list Z) :
  String.length (hex_of_bytes bytes) = (2 * List.length bytes)%nat.
Proof.
  induction bytes as [|b rest IH]; [reflexivity|].
  rewrite hex_of_bytes_cons. cbn [String.length List.length]. rewrite IH. lia.
Qed.

Lemma hex_of_bytes_lower_hex (bytes : list Z) : lower_hex_text (hex_of_bytes bytes).
Proof.
  unfold lower_hex_text. induction bytes as [|b rest IH]; [constructor|].
  rewrite hex_of_bytes_cons. cbn [list_ascii_of_string].
  repeat constructor; try exact IH; apply lower_hex_hex_digit;
    apply Z.mod_pos_bound; lia.
Qed.

Lemma hex_of_bytes_inj (xs ys : list Z) :
  Forall (fun b => 0 <= b < 256) xs -> Forall (fun b => 0 <= b < 256) ys ->
  hex_of_bytes xs = hex_of_bytes ys -> xs = ys.
Proof.
  revert ys. induction xs as [|x xs IH]; intros [|y ys] Hx Hy E.
  - reflexivity.
  - rewrite hex_of_bytes_cons in E. discriminate.
  - rewrite hex_of_bytes_cons in E. discriminate.
  - rewrite !hex_of_bytes_cons in E. injection E as E1 E2 E3.
    apply Forall_cons_iff in Hx as [Hx Hxs]. apply Forall_cons_iff in Hy as [Hy Hys].
    apply hex_digit_inj in E1; try (apply Z.mod_pos_bound; lia).
    apply hex_digit_inj in E2; try (apply Z.mod_pos_bound; lia).
    f_equal; [|now apply IH].
    Z.div_mod_to_equations. lia.
Qed.

(** X2.  A server seed generated from a draw of 32 bytes is 64 characters
    of [0-9a-f], a client seed from 16 bytes is 32 such characters, and
    two different draws never give the same seed. *)
Theorem X2_generated_seeds_are_hex_and_distinct (drawn other : list Z) :
  random_bytes 32 drawn -> random_bytes 16 other ->
  (String.length (generateServerSeed drawn) = 64%nat
   /\ lower_hex_text (generateServerSeed drawn)
   /\ forall drawn', random_bytes 32 drawn' ->
        generateServerSeed drawn = generateServerSeed drawn' -> drawn = drawn')
  /\ (String.length (generateClientSeed other) = 32%nat
      /\ lower_hex_text (generateClientSeed other)
      /\ forall other', random_bytes 16 other' ->
           generateClientSeed other = generateClientSeed other' -> other = other').
Proof.
  intros [Hl Hb] [Hl' Hb'].
  unfold generateServerSeed, generateClientSeed.
  repeat split; try apply hex_of_bytes_lower_hex.
  - rewrite hex_of_bytes_length, Hl. reflexivity.
  - intros d [_ Hd]. now apply hex_of_bytes_inj.
  - rewrite hex_of_bytes_length, Hl'. reflexivity.
  - intros d [_ Hd]. now apply hex_of_bytes_inj.
Qed.

(** ** The decision of a row *)

Lemma round_pos_fraction_half (p q : Z) :
  0 < p <= q -> q < 2 ^ 52 ->
  snd (Float.round_pos p q) < 0
  /\ (2 ^ (- snd (Float.round_pos p q)) <= 2 * fst (Float.round_pos p q)
      <-> q <= 2 * p).
Proof.
  intros Hp Hq. unfold Float.round_pos.
  pose proof (FloatFacts.ilog2_le p q 0 ltac:(lia) ltac:(lia) ltac:(lia)
                ltac:(lia)) as He.
  set (u := Float.ulp_exp (Float.ilog2 p q)).
  assert (Hu : u <= -52) by (unfold u, Float.ulp_exp; lia).
  destruct (Z.leb_spec 0 u) as [Hu0|_]; [lia|]. simpl.
  split; [lia|].
  assert (EK : 2 ^ (- u) = 2 * 2 ^ (- u - 1)).
  { rewrite <- Z.pow_succ_r by lia. f_equal. lia. }
  set (K := 2 ^ (- u)) in *. set (H := 2 ^ (- u - 1)) in *.
  assert (HK : 2 ^ 51 <= H) by (apply Z.pow_le_mono_r; lia).
  assert (2 ^ 52 = 2 * 2 ^ 51) by reflexivity.
  split.
  - intros Hm. destruct (Z.le_gt_cases q (2 * p)) as [|Hlt]; [assumption|].
    pose proof (FloatFacts.rne_le (p * K) q H ltac:(lia) ltac:(nia)).
    pose proof (FloatFacts.rne_half_below (p * K) q ltac:(lia)).
    assert (Float.rne (p * K) q = H) as E by lia.
    rewrite E in *. nia.
  - intros Hge.
    pose proof (FloatFacts.rne_ge (p * K) q H ltac:(lia) ltac:(nia)). lia.
Qed.

Lemma fl_half_threshold (x : Q) :
  0 < Qnum x <= Zpos (Qden x) -> Zpos (Qden x) < 2 ^ 52 ->
  Float.ltb (Float.fl x) (Fin (1 # 2)) = (2 * Qnum x <? Zpos (Qden x)).
Proof.
  intros Hx Hd. unfold Float.fl.
  destruct (Qnum x) as [|p|p] eqn:Ep; try lia.
  destruct (round_pos_fraction_half (Zpos p) (Zpos (Qden x)) Hx Hd) as [Hu Hm].
  destruct (Float.round_pos (Zpos p) (Zpos (Qden x))) as [m u]; simpl in *.
  unfold Float.overflows, Float.scaled. destruct (Z.leb_spec 0 u); [lia|].
  assert (HK : 0 < 2 ^ (- u)) by (apply Z.pow_pos_nonneg; lia).
  unfold Float.ltb.
  destruct (Qle_bool (1 # 2) (Qred (m # Z.to_pos (2 ^ (- u))))) eqn:E.
  - apply Qle_bool_iff in E. rewrite Qred_correct in E.
    unfold Qle in E; simpl in E. rewrite Z2Pos.id in E by lia.
    simpl. symmetry. apply Z.ltb_ge. apply Hm. lia.
  - simpl. symmetry. apply Z.ltb_lt.
    destruct (Z.le_gt_cases (Zpos (Qden x)) (2 * Zpos p)) as [Hge|]; [|lia].
    apply Hm in Hge. exfalso.
    assert (Qle_bool (1 # 2) (Qred (m # Z.to_pos (2 ^ (- u)))) = true);
      [|congruence].
    apply Qle_bool_iff. rewrite Qred_correct.
    unfold Qle; simpl. rewrite Z2Pos.id by lia. lia.
Qed.

Lemma direction_of_u32 (n : Z) :
  0 <= n < 2 ^ 32 ->
  direction_of (Float.div (Float.of_Z n) (Float.of_Z 4294967295))
  = n / 2147483648.
Proof.
  intros Hn. change (2 ^ 32) with 4294967296 in Hn.
  unfold direction_of, Float.div, Float.of_Z.
  change (Qeq_bool (inject_Z 4294967295) 0) with false. cbv iota.
  change (lit 0.5) with (Fin (1 # 2)).
  destruct (Z.eq_dec n 0) as [->|Hn0]; [reflexivity|].
  rewrite fl_half_threshold.
  - simpl Qnum. simpl Qden. change (Z.pos (1 * 4294967295)) with 4294967295.
    destruct (Z.ltb_spec (2 * (n * 1)) 4294967295);
      symmetry; Z.div_mod_to_equations; lia.
  - simpl. lia.
  - reflexivity.
Qed.

(** X3.  The decision of a row is the most significant bit of the 32-bit
    word read from the digest of the hashed text (the nonce in it as the
    template literal writes a number): dividing by [0xffffffff] in
    binary64 and comparing with 0.5 loses nothing. *)
Theorem X3_decision_is_top_bit_of_digest
    (serverSeed clientSeed : string) (nonce : number) :
  direction_of (deterministicRandom serverSeed clientSeed nonce)
  = digest_u32 (serverSeed ++ ":" ++ clientSeed ++ ":" ++ Number_toString nonce)
    / 2 ^ 31.
Proof.
  fold (seedData serverSeed clientSeed nonce).
  rewrite deterministicRandom_unfold.
  apply direction_of_u32, digest_u32_range.
Qed.

(** ** Paths and bins *)

Lemma rights_cons (d : Z) (path : list Z) :
  rights (d :: path) = (if d =? 0 then 0 else 1) + rights path.
Proof.
  unfold rights. cbn [List.filter]. destruct (d =? 0); cbn [negb List.length]; lia.
Qed.

Lemma rights_app (p q : list Z) : rights (p ++ q) = rights p + rights q.
Proof.
  unfold rights. rewrite List.filter_app, List.length_app. lia.
Qed.

Lemma rights_bounds (path : list Z) :
  0 <= rights path <= Z.of_nat (List.length path).
Proof.
  induction path as [|d path IH]; [unfold rights; simpl; lia|].
  rewrite rights_cons. cbn [List.length]. destruct (d =? 0); lia.
Qed.

Lemma walk_rights (path : list Z) (start : Z) :
  fold_left walk path start
  = start + 2 * rights path - Z.of_nat (List.length path).
Proof.
  revert start. induction path as [|d path IH]; intros start.
  - unfold rights. simpl. lia.
  - cbn [fold_left List.length]. rewrite IH, rights_cons. unfold walk.
    destruct (d =? 0); lia.
Qed.

Lemma calculateFinalBin_scaled (path : list Z) :
  calculateFinalBin path = scaled_bin (Z.of_nat (List.length path)) (rights path).
Proof.
  rewrite calculateFinalBin_unfold, walk_rights. unfold scaled_bin.
  do 4 f_equal. lia.
Qed.

Ltac upto_16 k :=
  let H := fresh in
  assert (H : k = 0 \/ k = 1 \/ k = 2 \/ k = 3 \/ k = 4 \/ k = 5 \/ k = 6
              \/ k = 7 \/ k = 8 \/ k = 9 \/ k = 10 \/ k = 11 \/ k = 12
              \/ k = 13 \/ k = 14 \/ k = 15 \/ k = 16) by lia;
  repeat (destruct H as [H|H]; [subst k|]); [..|subst k].

Lemma scaled_bin_offered (len k : Z) :
  offered_rows len -> 0 <= k <= len ->
  scaled_bin len k = Float.of_Z (Z.min 16 (17 * k / len)).
Proof.
  intros [-> | [-> | ->]] Hk; upto_16 k; try lia; vm_compute; reflexivity.
Qed.

(** X5.  For the row counts 8, 12 and 16 the binary64 scaling of
    [calculateFinalBin] agrees with exact integer arithmetic: the bin is
    [min (16, floor (17 * rights / rows))], a function of the number of
    steps to the right alone.  With 16 rows it is that number, with 8 rows
    twice that number. *)
Theorem X5_bin_is_exact_for_offered_rows (path : list Z) :
  offered_rows (Z.of_nat (List.length path)) ->
  calculateFinalBin path
  = Float.of_Z (Z.min 16 (17 * rights path / Z.of_nat (List.length path)))
  /\ (List.length path = 16%nat ->
      calculateFinalBin path = Float.of_Z (rights path))
  /\ (List.length path = 8%nat ->
      calculateFinalBin path = Float.of_Z (2 * rights path)).
Proof.
  intros Hlen. pose proof (rights_bounds path) as Hk.
  rewrite calculateFinalBin_scaled, scaled_bin_offered by assumption.
  split; [reflexivity|]. split; intros E; rewrite E in *; f_equal;
    Z.div_mod_to_equations; lia.
Qed.

Lemma rights_mirror (path : list Z) :
  rights (mirror path) = Z.of_nat (List.length path) - rights path.
Proof.
  induction path as [|d path IH]; [reflexivity|].
  cbn [mirror List.map List.length]. fold (mirror path).
  rewrite !rights_cons, IH. destruct (d =? 0); simpl; lia.
Qed.

Lemma mirror_length (path : list Z) :
  List.length (mirror path) = List.length path.
Proof. apply List.length_map. Qed.

Lemma min16_mirror (len k : Z) :
  offered_rows len -> 0 <= k <= len ->
  Z.min 16 (17 * (len - k) / len) = 16 - Z.min 16 (17 * k / len).
Proof.
  intros [-> | [-> | ->]] Hk; upto_16 k; try lia; reflexivity.
Qed.

Lemma MULTIPLIERS_symmetric (risk : RiskMode) (b : Z) :
  0 <= b <= 16 ->
  nth_error (MULTIPLIERS risk) (Z.to_nat (16 - b))
  = nth_error (MULTIPLIERS risk) (Z.to_nat b).
Proof.
  intros Hb. destruct risk; upto_16 b; vm_compute; reflexivity.
Qed.

(** X6.  For 8, 12 and 16 rows the board is symmetric: exchanging left
    and right in a path sends bin [b] to bin [16 - b], and both bins pay
    the same multiplier in every risk mode. *)
Theorem X6_mirrored_path_pays_the_same (path : list Z) (risk : RiskMode) :
  offered_rows (Z.of_nat (List.length path)) ->
  exists b,
    0 <= b <= 16
    /\ calculateFinalBin path = Float.of_Z b
    /\ calculateFinalBin (mirror path) = Float.of_Z (16 - b)
    /\ resolveMultiplier (risk_key risk) (calculateFinalBin (mirror path))
       = resolveMultiplier (risk_key risk) (calculateFinalBin path).
Proof.
  intros Hlen. pose proof (rights_bounds path) as Hk.
  exists (Z.min 16 (17 * rights path / Z.of_nat (List.length path))).
  assert (Hb : 0 <= Z.min 16 (17 * rights path / Z.of_nat (List.length path))
               <= 16).
  { split; [|lia]. apply Z.min_glb; [lia|].
    apply Z.div_pos; [lia|]. destruct Hlen as [E|[E|E]]; lia. }
  rewrite !calculateFinalBin_scaled, mirror_length, rights_mirror.
  rewrite !scaled_bin_offered by (assumption || lia).
  rewrite min16_mirror by assumption.
  repeat split; try lia.
  rewrite !resolveMultiplier_of_Z. f_equal.
  replace (Z.min (Z.max 0 (16 - Z.min 16 (17 * rights path
                                          / Z.of_nat (List.length path)))) 16)
    with (16 - Z.min 16 (17 * rights path / Z.of_nat (List.length path)))
    by lia.
  replace (Z.min (Z.max 0 (Z.min 16 (17 * rights path
                                     / Z.of_nat (List.length path)))) 16)
    with (Z.min 16 (17 * rights path / Z.of_nat (List.length path))) by lia.
  now apply MULTIPLIERS_symmetric.
Qed.

(** ** Consecutive nonces *)

(** The counters of the rows are exact for a whole nonce while they stay
    within [2^53]. *)
Lemma counter_of_Z (z : Z) (i : nat) :
  Z.abs (z + Z.of_nat i) <= 2 ^ 53 ->
  counter (Float.of_Z z) i = Float.of_Z (z + Z.of_nat i).
Proof. apply FloatFacts.add_of_Z. Qed.

Lemma path_of_whole (serverSeed clientSeed : string) (z rowCount : Z) :
  - 2 ^ 53 <= z -> z + rowCount - 1 <= 2 ^ 53 ->
  path_of serverSeed clientSeed (Float.of_Z z) rowCount
  = List.map (fun i => direction_of
                         (deterministicRandom serverSeed clientSeed
                            (Float.of_Z (z + Z.of_nat i))))
             (seq 0 (Z.to_nat rowCount)).
Proof.
  intros Hlo Hhi. unfold path_of. apply List.map_ext_in.
  intros i Hi. apply in_seq in Hi. rewrite counter_of_Z by lia. reflexivity.
Qed.

Lemma path_of_shift (serverSeed clientSeed : string) (nonce : Z) (k : nat) :
  List.map (fun i => direction_of
                       (deterministicRandom serverSeed clientSeed
                          (Float.of_Z (nonce + 1 + Z.of_nat i))))
           (seq 0 (S k))
  = tl (List.map (fun i => direction_of
                             (deterministicRandom serverSeed clientSeed
                                (Float.of_Z (nonce + Z.of_nat i))))
                 (seq 0 (S k)))
    ++ [direction_of
          (deterministicRandom serverSeed clientSeed
             (Float.of_Z (nonce + Z.of_nat (S k))))].
Proof.
  change (seq 0 (S k)) with (0%nat :: seq 1 k) at 2. cbn [List.map tl].
  rewrite <- seq_shift, List.map_map.
  rewrite seq_S, List.map_app. cbn [List.map Nat.add].
  replace (nonce + 1 + Z.of_nat k) with (nonce + Z.of_nat (S k)) by lia.
  f_equal.
  apply List.map_ext. intros i. do 3 f_equal. lia.
Qed.


Lemma calculateGameResult_bin (serverSeed clientSeed : string)
    (nonce : number)
    (options : GameOptions) (result : ProvablyFairResult) :
  calculateGameResult serverSeed clientSeed nonce options = Returns result ->
  calculatePath serverSeed clientSeed nonce (rows options) = Returns (path result)
  /\ gameResult result = calculateFinalBin (path result)
  /\ resolveMultiplier (riskMode options) (gameResult result)
     = Returns (finalMultiplier result).
Proof.
  unfold calculateGameResult.
  destruct (calculatePath _ _ _ _) as [p|e]; [|discriminate].
  cbn [mbind completion_bind].
  destruct (resolveMultiplier _ _) as [m|e] eqn:Em; [|discriminate].
  cbn [mbind completion_bind]. intros [= <-]. auto.
Qed.

Lemma path_of_length (serverSeed clientSeed : string) (nonce : number)
    (rowCount : Z) :
  0 <= rowCount ->
  Z.of_nat (List.length (path_of serverSeed clientSeed nonce rowCount)) = rowCount.
Proof.
  intros Hr. unfold path_of. rewrite List.length_map, List.length_seq. lia.
Qed.

Lemma path_of_next (serverSeed clientSeed : string) (nonce rowCount : Z) :
  1 <= rowCount -> - 2 ^ 53 <= nonce -> nonce + rowCount <= 2 ^ 53 ->
  exists first rest last,
    path_of serverSeed clientSeed (Float.of_Z nonce) rowCount = first :: rest
    /\ path_of serverSeed clientSeed (Float.of_Z (nonce + 1)) rowCount
       = rest ++ [last].
Proof.
  intros Hr Hlo Hhi. rewrite !path_of_whole by lia.
  destruct (Z.to_nat rowCount) as [|k] eqn:Ek; [lia|].
  rewrite path_of_shift.
  change (seq 0 (S k)) with (0%nat :: seq 1 k). cbn [List.map tl].
  eexists _, _, _. split; reflexivity.
Qed.

Lemma min16_step (len k1 k2 : Z) :
  offered_rows len -> 0 <= k1 <= len -> 0 <= k2 <= len ->
  Z.abs (k2 - k1) <= 1 ->
  Z.abs (Z.min 16 (17 * k2 / len) - Z.min 16 (17 * k1 / len)) <= 2
  /\ (len = 16 ->
      Z.abs (Z.min 16 (17 * k2 / len) - Z.min 16 (17 * k1 / len)) <= 1).
Proof.
  intros [-> | [-> | ->]] H1 H2 Hd; (split; [|intros E; try discriminate E]);
    Z.div_mod_to_equations; lia.
Qed.

(** X7.  Because consecutive nonces share all but one decision, the bins
    of two plays at [nonce] and [nonce + 1] (same seeds, same row count of
    8, 12 or 16, a whole nonce whose counters stay within [2^53]) are at
    most 2 apart, and at most 1 apart with 16 rows. *)
Theorem X7_next_nonce_lands_nearby
    (serverSeed clientSeed : string) (nonce rowCount : Z) (risk : RiskMode) :
  offered_rows rowCount ->
  - 2 ^ 53 <= nonce -> nonce + rowCount <= 2 ^ 53 ->
  exists r1 r2 b1 b2,
    calculateGameResult serverSeed clientSeed (Float.of_Z nonce)
      (typed_options rowCount risk)
    = Returns r1
    /\ calculateGameResult serverSeed clientSeed
         (Float.add (Float.of_Z nonce) (Float.of_Z 1))
         (typed_options rowCount risk) = Returns r2
    /\ gameResult r1 = Float.of_Z b1
    /\ gameResult r2 = Float.of_Z b2
    /\ Z.abs (b2 - b1) <= 2
    /\ (rowCount = 16 -> Z.abs (b2 - b1) <= 1).
Proof.
  intros Hrows Hlo Hhi.
  assert (Hr : 1 <= rowCount <= max_array_length)
    by (unfold max_array_length; destruct Hrows as [E|[E|E]]; lia).
  rewrite FloatFacts.add_of_Z by lia.
  destruct (calculateGameResult_typed serverSeed clientSeed (Float.of_Z nonce)
              rowCount risk Hr) as (b1 & q1 & E1 & _).
  destruct (calculateGameResult_typed serverSeed clientSeed
              (Float.of_Z (nonce + 1)) rowCount risk Hr) as (b2 & q2 & E2 & _).
  destruct (calculateGameResult_bin _ _ _ _ _ E1) as (_ & B1 & _).
  destruct (calculateGameResult_bin _ _ _ _ _ E2) as (_ & B2 & _).
  cbn [gameResult path] in B1, B2.
  destruct (path_of_next serverSeed clientSeed nonce rowCount ltac:(lia) Hlo Hhi)
    as (first & rest & last & P1 & P2).
  pose proof (path_of_length serverSeed clientSeed (Float.of_Z nonce) rowCount
                ltac:(lia)) as L1.
  pose proof (path_of_length serverSeed clientSeed (Float.of_Z (nonce + 1))
                rowCount ltac:(lia)) as L2.
  rewrite calculateFinalBin_scaled, L1 in B1.
  rewrite calculateFinalBin_scaled, L2 in B2.
  pose proof (rights_bounds (path_of serverSeed clientSeed (Float.of_Z nonce)
                               rowCount)) as K1.
  pose proof (rights_bounds (path_of serverSeed clientSeed
                               (Float.of_Z (nonce + 1)) rowCount)) as K2.
  rewrite L1 in K1. rewrite L2 in K2.
  rewrite scaled_bin_offered in B1, B2 by assumption.
  assert (Hd : Z.abs (rights (path_of serverSeed clientSeed
                                (Float.of_Z (nonce + 1)) rowCount)
                      - rights (path_of serverSeed clientSeed (Float.of_Z nonce)
                                  rowCount))
               <= 1).
  { rewrite P1, P2, rights_app, !rights_cons.
    change (rights []) with 0.
    destruct (first =? 0), (last =? 0); lia. }
  destruct (min16_step rowCount _ _ Hrows K1 K2 Hd) as [H2 H16].
  injection B1 as B1. injection B2 as B2.
  eexists _, _, b1, b2. split; [exact E1|]. split; [exact E2|].
  cbn [gameResult]. split; [reflexivity|]. split; [reflexivity|].
  rewrite B1, B2. split; assumption.
Qed.

(** ** Edge and error behaviour of the derivation *)

Lemma resolveMultiplier_NaN (risk : RiskMode) :
  resolveMultiplier (risk_key risk) NaN = Returns None.
Proof. destruct risk; reflexivity. Qed.

(** Beyond [2^53] the counters of the rows are rounded and the bins of
    consecutive nonces may be further apart: with 16 rows, bins 10 and 8
    at the nonce [2^53 + 2] and the one after it. *)
Example bins_two_apart_beyond_2_53 :
  List.map
    (fun nonce =>
       match calculateGameResult zeros64 "h" nonce (typed_options 16 medium) with
       | Returns r => Some (gameResult r)
       | Throws _ => None
       end)
    [Float.of_Z (2 ^ 53 + 2);
     Float.add (Float.of_Z (2 ^ 53 + 2)) (Float.of_Z 1)]
  = [Some (Float.of_Z 10); Some (Float.of_Z 8)].
Proof. vm_compute. reflexivity. Qed.

(** X8.  With a row count that is [NaN], zero or negative the loop of
    [calculatePath] does not run: [calculateGameResult] returns an empty
    path, the bin [NaN] and an undefined multiplier, and
    [verifyGameResult] answers false whatever is reported. *)
Theorem X8_no_rows_no_bin
    (serverSeed clientSeed : string) (nonce : number) (rowCount : number)
    (risk : RiskMode) :
  rowCount = NaN \/ (exists z, z <= 0 /\ rowCount = Float.of_Z z) ->
  calculateGameResult serverSeed clientSeed nonce
    {| rows := rowCount; riskMode := risk_key risk |}
  = Returns {| clientSeed := clientSeed;
               serverSeed := serverSeed;
               hashedServerSeed := hashServerSeed serverSeed;
               nonce := nonce;
               gameResult := NaN;
               path := [];
               finalMultiplier := None |}
  /\ forall reported,
       verifyGameResult serverSeed clientSeed nonce
         {| rows := rowCount; riskMode := risk_key risk |} reported
       = Returns false.
Proof.
  intros Hrows.
  assert (Ep : calculatePath serverSeed clientSeed nonce rowCount = Returns []).
  { destruct Hrows as [-> | (z & Hz & ->)]; [reflexivity|].
    rewrite calculatePath_of_Z by (unfold max_array_length; lia).
    unfold path_of. replace (Z.to_nat z) with O by lia. reflexivity. }
  assert (E : calculateGameResult serverSeed clientSeed nonce
                {| rows := rowCount; riskMode := risk_key risk |}
              = Returns {| clientSeed := clientSeed;
                           serverSeed := serverSeed;
                           hashedServerSeed := hashServerSeed serverSeed;
                           nonce := nonce;
                           gameResult := NaN;
                           path := [];
                           finalMultiplier := None |}).
  { unfold calculateGameResult. cbn [rows riskMode]. rewrite Ep.
    cbn [mbind completion_bind].
    change (calculateFinalBin []) with NaN. rewrite resolveMultiplier_NaN.
    reflexivity. }
  split; [exact E|]. intros reported. unfold verifyGameResult. rewrite E.
  reflexivity.
Qed.





(** ** The hashed message *)

Lemma split_at_first_delimiter {A : Type} (d : A) (x y t1 t2 : list A) :
  ~ In d x -> ~ In d y ->
  (x ++ d :: t1 = y ++ d :: t2)%list -> x = y /\ t1 = t2.
Proof.
  revert y. induction x as [|a x IH]; intros [|b y] Hx Hy E; simpl in *.
  - now injection E.
  - injection E as <- _. tauto.
  - injection E as -> _. tauto.
  - injection E as -> E. destruct (IH y) as [-> ->]; tauto.
Qed.

Lemma split_at_last_delimiter {A : Type} (d : A) (x y t1 t2 : list A) :
  ~ In d t1 -> ~ In d t2 ->
  (x ++ d :: t1 = y ++ d :: t2)%list -> x = y /\ t1 = t2.
Proof.
  intros H1 H2 E. apply (f_equal (@rev A)) in E.
  rewrite !rev_app_distr in E. cbn [rev] in E. rewrite <- !app_assoc in E.
  cbn [app] in E.
  apply split_at_first_delimiter in E as [E1 E2];
    try (rewrite <- in_rev; assumption).
  apply (f_equal (@rev A)) in E1, E2. rewrite !rev_involutive in E1, E2.
  now split.
Qed.

Lemma list_ascii_inj (s t : string) :
  list_ascii_of_string s = list_ascii_of_string t -> s = t.
Proof.
  intros E. rewrite <- (string_of_list_ascii_of_string s),
              <- (string_of_list_ascii_of_string t). now rewrite E.
Qed.

Lemma colon_free_not_in (s : string) :
  colon_free s -> ~ In ":"%char (list_ascii_of_string s).
Proof.
  unfold colon_free. rewrite Forall_forall. intros H Hin. now apply (H _ Hin).
Qed.

Lemma colon_free_uint (d : Decimal.uint) :
  colon_free (NilEmpty.string_of_uint d).
Proof.
  unfold colon_free.
  induction d; simpl; constructor; (discriminate || assumption).
Qed.

Lemma string_of_Z_colon_free (z : Z) : colon_free (string_of_Z z).
Proof.
  unfold string_of_Z, NilZero.string_of_int, NilZero.string_of_uint.
  destruct (Z.to_int z) as [d|d]; destruct d;
    try apply colon_free_uint;
    unfold colon_free; simpl; repeat constructor; try discriminate;
    apply colon_free_uint.
Qed.

Lemma seedData_chars (serverSeed clientSeed : string) (nonce : number) :
  list_ascii_of_string (seedData serverSeed clientSeed nonce)
  = (list_ascii_of_string serverSeed
     ++ ":"%char :: (list_ascii_of_string clientSeed
                     ++ ":"%char
                        :: list_ascii_of_string (Number_toString nonce)))%list.
Proof.
  unfold seedData.
  now rewrite list_ascii_append, (list_ascii_append ":"),
    list_ascii_append, (list_ascii_append ":").
Qed.

(** X10.  Under server seeds that contain no colon (every generated seed
    is hexadecimal) and whole nonces within [2^53] (those of a session:
    the counter starts at 0 and grows by 1), the message hashed by
    [deterministicRandom] determines the server seed, the client seed and
    the nonce: two different (client seed, nonce) pairs are never hashed
    as the same text, even when the client seed itself contains
    colons. *)
Theorem X10_hashed_message_is_unambiguous
    (serverSeed clientSeed serverSeed' clientSeed' : string) (nonce nonce' : Z) :
  colon_free serverSeed -> colon_free serverSeed' ->
  Z.abs nonce <= 2 ^ 53 -> Z.abs nonce' <= 2 ^ 53 ->
  seedData serverSeed clientSeed (Float.of_Z nonce)
  = seedData serverSeed' clientSeed' (Float.of_Z nonce') ->
  serverSeed = serverSeed' /\ clientSeed = clientSeed' /\ nonce = nonce'.
Proof.
  intros Hs Hs' Hn Hn' E. apply (f_equal list_ascii_of_string) in E.
  rewrite !seedData_chars, !Number_toString_whole in E by assumption.
  apply split_at_first_delimiter in E as [E1 E2];
    try (apply colon_free_not_in; assumption).
  apply split_at_last_delimiter in E2 as [E2 E3];
    try (apply colon_free_not_in, string_of_Z_colon_free).
  split; [now apply list_ascii_inj|]. split; [now apply list_ascii_inj|].
  now apply string_of_Z_inj, list_ascii_inj.
Qed.

(** * Further properties of the session handlers                         *)
(* ===================================================================== *)

Lemma calculateGameResult_commitment (serverSeed clientSeed : string)
    (nonce : number) (options : GameOptions) (result : ProvablyFairResult) :
  calculateGameResult serverSeed clientSeed nonce options = Returns result ->
  hashedServerSeed result = hashServerSeed serverSeed.
Proof.
  unfold calculateGameResult.
  destruct (calculatePath _ _ _ _) as [p|e]; [|discriminate].
  cbn [mbind completion_bind].
  destruct (resolveMultiplier _ _) as [m|e]; [|discriminate].
  cbn [mbind completion_bind]. now intros [= <-].
Qed.




Section SessionTraces.

Import Server.

Variable StringToNumber : string -> number.

(** A handler writes no entry but that of its own connection. *)
Lemma handle_others (id : string) (r : request)
    (states : gmap string UserState) (id' : string) :
  id' <> id ->
  userStates (handle StringToNumber id r states) !! id' = states !! id'.
Proof.
  intros Hne.
  destruct r as [s|[d|] g|[data|]]; cbn [handle];
    unfold on_new_server_seed, on_new_client_seed,
      on_new_client_seed_without_payload, on_play, on_play_without_payload;
    destruct (states !! id) as [st|] eqn:Hs; cbn [userStates];
    rewrite ?lookup_insert_ne by congruence; try reflexivity.
  destruct (bet_rejected StringToNumber (betAmount data) st);
    [reflexivity|].
  destruct (calculateGameResult _ _ _ _); cbn [userStates];
    rewrite ?lookup_insert_ne by congruence; reflexivity.
Qed.

Lemma serve_others (id : string) (rs : list request) :
  forall (states final : gmap string UserState) (id' : string),
    fst (serve StringToNumber id rs states) = Some final ->
    id' <> id -> final !! id' = states !! id'.
Proof.
  induction rs as [|r rs IH]; intros states final id' Hf Hne.
  - cbn in Hf. now injection Hf as <-.
  - rewrite serve_cons in Hf.
    destruct (thrown (handle StringToNumber id r states)); [discriminate|].
    cbn [fst] in Hf. rewrite (IH _ _ _ Hf Hne). now apply handle_others.
Qed.

(** X11.  Connections are isolated while the process lives: a request
    that returns leaves the state of every other connection as it was;
    what a request emits, throws and stores for its own connection does
    not depend on the others; after any requests of one connection that
    the process survives, the states of the others are what they were.
    A request that throws ends the process, and with it every
    session. *)
Theorem X11_connections_are_isolated
    (id : string) (r : request) (states others : gmap string UserState) :
  (thrown (handle StringToNumber id r states) = None ->
   forall id', id' <> id ->
     userStates (handle StringToNumber id r states) !! id' = states !! id')
  /\ (others !! id = states !! id ->
      emitted (handle StringToNumber id r others)
      = emitted (handle StringToNumber id r states)
      /\ thrown (handle StringToNumber id r others)
         = thrown (handle StringToNumber id r states)
      /\ userStates (handle StringToNumber id r others) !! id
         = userStates (handle StringToNumber id r states) !! id)
  /\ (forall rs final,
        fst (serve StringToNumber id rs states) = Some final ->
        forall id', id' <> id -> final !! id' = states !! id')
  /\ (forall e rest,
        thrown (handle StringToNumber id r states) = Some e ->
        fst (serve StringToNumber id (r :: rest) states) = None).
Proof.
  split; [|split; [|split]].
  - intros _ id' Hne. now apply handle_others.
  - intros Hsame.
    destruct r as [s|[d|] g|[data|]]; cbn [handle];
      unfold on_new_server_seed, on_new_client_seed,
        on_new_client_seed_without_payload, on_play, on_play_without_payload;
      rewrite Hsame; destruct (states !! id) as [st|] eqn:Hs;
      cbn [emitted thrown userStates]; rewrite ?lookup_insert_eq;
      try (repeat split; congruence).
    destruct (bet_rejected StringToNumber (betAmount data) st);
      [cbn [emitted thrown userStates]; repeat split; congruence|].
    destruct (calculateGameResult _ _ _ _);
      cbn [emitted thrown userStates]; rewrite ?lookup_insert_eq;
      repeat split; congruence.
  - intros rs final Hf id' Hne. now apply (serve_others id rs states final).
  - intros e rest He. rewrite serve_cons, He. reflexivity.
Qed.

(** The events of a connection that has a state honour the commitment
    to its current server seed. *)
Lemma serve_commitments (id : string) (rs : list request) :
  forall (states : gmap string UserState) (st : UserState),
    states !! id = Some st ->
    commitments_honoured (Some (hashServerSeed (serverSeed st)))
      (snd (serve StringToNumber id rs states)).
Proof.
  induction rs as [|r rs IH]; intros states st Hs; [exact I|].
  rewrite serve_cons.
  destruct r as [s|[d|] g|[data|]]; cbn [handle].
  - unfold on_new_server_seed. rewrite Hs. cbn [userStates emitted thrown snd].
    set (next := {| serverSeed := s; clientSeed := clientSeed st;
                    nonce := Float.of_Z 0; balance := balance st |}).
    specialize (IH (<[id := next]> states) next (lookup_insert_eq _ _ _)).
    cbn [app commitments_honoured]. split; [reflexivity|exact IH].
  - unfold on_new_client_seed. rewrite Hs. cbn [userStates emitted thrown snd].
    match goal with |- context [<[id := ?n]> states] => set (next := n) end.
    specialize (IH (<[id := next]> states) next (lookup_insert_eq _ _ _)).
    cbn [app commitments_honoured]. exact IH.
  - unfold on_new_client_seed_without_payload. rewrite Hs.
    cbn [emitted thrown snd]. exact I.
  - destruct (on_play_cases StringToNumber id data states st Hs)
      as [[_ E]|[[_ (e & _ & E)]|[_ (res & w & b & Er & E)]]];
      rewrite E; cbn [userStates emitted thrown snd].
    + cbn [app commitments_honoured]. now apply IH.
    + exact I.
    + match goal with |- context [<[id := ?n]> states] => set (next := n) end.
      specialize (IH (<[id := next]> states) next (lookup_insert_eq _ _ _)).
      cbn [app commitments_honoured].
      pose proof (calculateGameResult_commitment _ _ _ _ _ Er) as Hc.
      destruct (calculateGameResult_fields _ _ _ _ _ Er) as (Hf & _ & _).
      rewrite Hc, Hf. auto.
  - unfold on_play_without_payload. rewrite Hs.
    cbn [emitted thrown snd]. exact I.
Qed.

(** X12.  From the connection on, whatever the client requests, the
    events it receives honour the commitments: every server seed that is
    revealed hashes to the commitment published before it, and every
    result carries the commitment in force and was derived from a server
    seed that hashes to it. *)
Theorem X12_every_event_honours_the_commitment
    (id serverSeed clientSeed : string) (rs : list request)
    (states : gmap string UserState) :
  commitments_honoured None
    (emitted (on_connection id serverSeed clientSeed states)
     ++ snd (serve StringToNumber id rs
               (userStates (on_connection id serverSeed clientSeed states)))).
Proof.
  cbn [on_connection emitted userStates app commitments_honoured].
  match goal with |- context [<[id := ?n]> states] => set (first := n) end.
  exact (serve_commitments id rs (<[id := first]> states) first
           (lookup_insert_eq _ _ _)).
Qed.

(** What a resolved play stores and emits. *)
Lemma on_play_resolved (id : string) (data : PlayData)
    (states : gmap string UserState) (result : ProvablyFairResult)
    (bet : jsval) (win newBalance : number) :
  emitted (on_play StringToNumber id data states)
  = [game_result result bet win newBalance] ->
  exists st,
    states !! id = Some st
    /\ bet_rejected StringToNumber (betAmount data) st = false
    /\ calculateGameResult (serverSeed st) (clientSeed st) (nonce st)
         (gameOptions StringToNumber data) = Returns result
    /\ bet = betAmount data
    /\ win = Float.mul (ToNumber StringToNumber (betAmount data))
                       (default NaN (finalMultiplier result))
    /\ newBalance
       = Float.add (Float.sub (balance st)
                      (ToNumber StringToNumber (betAmount data))) win
    /\ userStates (on_play StringToNumber id data states)
       = <[id := {| serverSeed := serverSeed st; clientSeed := clientSeed st;
                    nonce := Float.add (nonce st) (Float.of_Z 1);
                    balance := newBalance |}]> states.
Proof.
  unfold on_play. destruct (states !! id) as [st|]; [|discriminate].
  destruct (bet_rejected StringToNumber _ _) eqn:Eb; [discriminate|].
  destruct (calculateGameResult _ _ _ _) as [res|e] eqn:Er; [|discriminate].
  cbn [emitted userStates]. intros [= <- <- <- <-].
  exists st. repeat split; try reflexivity; assumption.
Qed.

(** X13.  A result event discloses the server seed in use, so the next
    play under the same seeds is computable by its receiver before it is
    requested: whatever the next request, the result it gets is the one
    [calculateGameResult] gives on the seeds of the event just received
    and its counter plus 1, and the bet is screened against the balance
    of that event. *)
Theorem X13_result_event_determines_next_result
    (id : string) (first next : PlayData) (states : gmap string UserState)
    (r1 r2 : ProvablyFairResult) (bet1 bet2 : jsval)
    (win1 win2 balance1 balance2 : number) :
  emitted (on_play StringToNumber id first states)
  = [game_result r1 bet1 win1 balance1] ->
  emitted (on_play StringToNumber id next
             (userStates (on_play StringToNumber id first states)))
  = [game_result r2 bet2 win2 balance2] ->
  calculateGameResult (ProvableFairness.serverSeed r1)
    (ProvableFairness.clientSeed r1)
    (Float.add (ProvableFairness.nonce r1) (Float.of_Z 1))
    (gameOptions StringToNumber next) = Returns r2
  /\ Float.gtb (ToNumber StringToNumber (betAmount next)) balance1 = false
  /\ balance2
     = Float.add (Float.sub balance1 (ToNumber StringToNumber (betAmount next)))
         (Float.mul (ToNumber StringToNumber (betAmount next))
            (default NaN (finalMultiplier r2))).
Proof.
  intros H1 H2.
  destruct (on_play_resolved _ _ _ _ _ _ _ H1)
    as (st & Hs & _ & Er1 & _ & _ & _ & Eu).
  destruct (on_play_resolved _ _ _ _ _ _ _ H2)
    as (st2 & Hs2 & Eb2 & Er2 & _ & Ew2 & Ebal2 & _).
  rewrite Eu, lookup_insert_eq in Hs2. injection Hs2 as <-.
  cbn [serverSeed clientSeed nonce balance] in *.
  destruct (calculateGameResult_fields _ _ _ _ _ Er1) as (-> & -> & ->).
  split; [exact Er2|]. split.
  - unfold bet_rejected in Eb2. cbn [balance] in Eb2.
    now apply orb_false_iff in Eb2.
  - now rewrite Ebal2, Ew2.
Qed.

Lemma gameOptions_typed (data : PlayData) :
  well_typed_play data ->
  exists rowCount risk,
    1 <= rowCount
    /\ (rows_fit data -> rowCount <= max_array_length)
    /\ gameOptions StringToNumber data = typed_options rowCount risk.
Proof.
  intros (_ & Hrows & Hrisk).
  assert (exists rowCount, 1 <= rowCount /\
            (rows_fit data -> rowCount <= max_array_length) /\
            ToNumber StringToNumber (or_else (rows data) (JNum (Float.of_Z 16)))
            = Float.of_Z rowCount) as (rowCount & Hr & Hfit & Er).
  { destruct Hrows as [->|(r & Hr & Erows)].
    - exists 16. split; [lia|]. split; [intros _; unfold max_array_length; lia|].
      reflexivity.
    - exists r. split; [exact Hr|]. split; [intros Hf; now apply Hf|].
      rewrite Erows.
      unfold or_else, truthy, Float.of_Z.
      change 0%Q with (inject_Z 0). rewrite FloatFacts.Qeq_bool_inject_Z.
      destruct (Z.eqb_spec r 0); [lia|reflexivity]. }
  assert (exists risk,
            match riskMode data with
            | Some s => if String.eqb s "" then "medium"%string else s
            | None => "medium"%string
            end = risk_key risk) as (risk & Ek).
  { destruct Hrisk as [->|(risk & ->)].
    - exists medium. reflexivity.
    - exists risk. now destruct risk. }
  exists rowCount, risk. split; [exact Hr|]. split; [exact Hfit|].
  unfold gameOptions, typed_options. now rewrite Er, Ek.
Qed.





(** X15.  After the disconnect of a connection its state is gone: a play
    is answered with the error about the missing state and seed requests
    do nothing, all leaving the map as it is; and a connection followed by
    its disconnect leaves the map of the other sessions as it was. *)
Theorem X15_disconnect_removes_the_session
    (id : string) (states : gmap string UserState) :
  let after := userStates (on_disconnect id states) in
  after !! id = None
  /\ (forall data,
        on_play StringToNumber id data after
        = {| userStates := after;
             emitted := [game_error "User state not found"];
             thrown := None |})
  /\ (forall r, match r with Play _ => False | _ => True end ->
        handle StringToNumber id r after
        = {| userStates := after; emitted := []; thrown := None |})
  /\ (forall serverSeed clientSeed,
        states !! id = None ->
        userStates
          (on_disconnect id
             (userStates (on_connection id serverSeed clientSeed states)))
        = states).
Proof.
  cbn zeta. cbn [on_disconnect userStates].
  assert (Hnone : delete id states !! id = None) by apply lookup_delete_eq.
  split; [exact Hnone|]. split; [|split].
  - intros data. unfold on_play. now rewrite Hnone.
  - intros [s|[d|] g|data] Hr; [| | |contradiction]; cbn [handle];
      unfold on_new_server_seed, on_new_client_seed,
        on_new_client_seed_without_payload; now rewrite Hnone.
  - intros s c Hs. cbn [on_connection userStates].
    rewrite delete_insert_eq. now apply delete_id.
Qed.

End SessionTraces.

(* ===================================================================== *)
(** * The client: listener registry and state handlers                   *)
(* ===================================================================== *)

Section ListenerFacts.

Import PlinkoService.

Context {callback : Type} `{EqDecision callback}.

Lemma indexOf_absent (x : callback) (l : list callback) :
  ~ In x l -> indexOf x l = -1.
Proof.
  induction l as [|y l IH]; intros Hn; [reflexivity|].
  cbn [indexOf]. destruct (decide (y = x)) as [->|Hne].
  - exfalso. apply Hn. now left.
  - rewrite IH; [reflexivity|]. intros Hin. apply Hn. now right.
Qed.

Lemma indexOf_first (x : callback) (before after : list callback) :
  ~ In x before ->
  indexOf x (before ++ x :: after) = Z.of_nat (List.length before).
Proof.
  induction before as [|y l IH]; intros Hn; cbn [indexOf app List.length].
  - now rewrite decide_True.
  - rewrite decide_False by (intros ->; apply Hn; now left).
    rewrite IH by (intros Hin; apply Hn; now right).
    destruct (Z.eqb_spec (Z.of_nat (List.length l)) (-1)); lia.
Qed.

Lemma In_first (x : callback) (l : list callback) :
  In x l -> exists before after, l = before ++ x :: after /\ ~ In x before.
Proof.
  induction l as [|y l IH]; intros Hin; [contradiction|].
  destruct (decide (y = x)) as [->|Hne].
  - exists [], l. split; [reflexivity|intros []].
  - destruct Hin as [->|Hin]; [contradiction|].
    destruct (IH Hin) as (b & a & -> & Hb).
    exists (y :: b), a. split; [reflexivity|].
    intros [->|H']; [contradiction|now apply Hb].
Qed.

Lemma splice1_first (x : callback) (before after : list callback) :
  splice1 (Z.of_nat (List.length before)) (before ++ x :: after)
  = before ++ after.
Proof.
  unfold splice1. rewrite Nat2Z.id.
  induction before as [|y l IH]; [reflexivity|].
  cbn [List.length firstn skipn app] in *. now rewrite IH.
Qed.

Lemma notify_off_first (event : string) (cb : callback)
    (listeners : gmap string (list callback)) (before after : list callback) :
  registered event listeners = before ++ cb :: after ->
  ~ In cb before ->
  registered event (off event cb listeners) = before ++ after.
Proof.
  unfold registered, off. intros -> Hb.
  rewrite indexOf_first by exact Hb.
  destruct (Z.eqb_spec (Z.of_nat (List.length before)) (-1)); [lia|].
  cbn [negb]. rewrite lookup_insert_eq. cbn [default].
  apply splice1_first.
Qed.

Lemma notify_off_other (event other : string) (cb : callback)
    (listeners : gmap string (list callback)) :
  other <> event ->
  registered other (off event cb listeners)
  = registered other listeners.
Proof.
  intros Hne. unfold registered, off.
  destruct (negb _); [|reflexivity].
  now rewrite lookup_insert_ne by congruence.
Qed.

Lemma notify_on (event other : string) (cb : callback)
    (listeners : gmap string (list callback)) :
  registered other (on event cb listeners)
  = if decide (other = event) then registered other listeners ++ [cb]
    else registered other listeners.
Proof.
  unfold registered, on.
  destruct (decide (other = event)) as [->|Hne].
  - now rewrite lookup_insert_eq.
  - now rewrite lookup_insert_ne by congruence.
Qed.

Lemma nth_error_skipn (k : nat) (l : list callback) (x : callback) :
  nth_error l k = Some x -> skipn k l = x :: skipn (S k) l.
Proof.
  revert l. induction k as [|k IH]; intros [|y l] H; try discriminate.
  - now injection H as ->.
  - cbn in H. specialize (IH l H). cbn [skipn] in *. exact IH.
Qed.

Lemma forEach_from_quiet (event : string) (does : callback -> list call)
    (listeners : gmap string (list callback)) :
  (forall c, In c (registered event listeners) -> does c = []) ->
  forall steps k,
    forEach_from event does steps k listeners
    = (firstn steps (skipn k (registered event listeners)), listeners).
Proof.
  intros Hq. induction steps as [|steps IH]; intros k; [reflexivity|].
  cbn [forEach_from].
  destruct (nth_error (registered event listeners) k) as [c|] eqn:E.
  - rewrite (Hq c) by (eapply nth_error_In; exact E).
    cbn [run_calls fold_left]. rewrite IH.
    now rewrite (nth_error_skipn _ _ _ E).
  - rewrite IH. apply nth_error_None in E.
    rewrite !skipn_all2 by lia. now rewrite !firstn_nil.
Qed.

(** X17.  The callbacks of an event are registered in the order of the
    calls of [on]: [on] appends to the event's list; [off] of a callback
    that is not registered changes nothing, and otherwise removes its
    first registration only, keeping the others in order; neither touches
    the list of another event.  [notifyListeners] calls the registered
    callbacks of its event in that order, each once, and leaves the
    registry as it is, when none of them calls [on] or [off] while it
    runs. *)
Theorem X17_listeners_are_called_in_registration_order
    (event : string) (cb : callback) (does : callback -> list call)
    (listeners : gmap string (list callback)) :
  registered event (on event cb listeners)
  = registered event listeners ++ [cb]
  /\ (~ In cb (registered event listeners) ->
      off event cb listeners = listeners)
  /\ (forall before after,
        registered event listeners = before ++ cb :: after ->
        ~ In cb before ->
        registered event (off event cb listeners) = before ++ after)
  /\ (forall other, other <> event ->
        registered other (on event cb listeners)
        = registered other listeners
        /\ registered other (off event cb listeners)
           = registered other listeners)
  /\ ((forall c, In c (registered event listeners) -> does c = []) ->
      notifyListeners event does listeners
      = (registered event listeners, listeners)).
Proof.
  split; [|split; [|split; [|split]]].
  - rewrite notify_on. now rewrite decide_True.
  - intros Hn. unfold off. fold (registered event listeners).
    now rewrite indexOf_absent.
  - intros before after. apply notify_off_first.
  - intros other Hne. split.
    + rewrite notify_on. now rewrite decide_False.
    + now apply notify_off_other.
  - intros Hq. unfold notifyListeners.
    rewrite (forEach_from_quiet event does listeners Hq).
    cbn [skipn]. now rewrite firstn_all.
Qed.

Lemma on_all_cons (e : string) (cb : callback) (regs : list (string * callback))
    (listeners : gmap string (list callback)) :
  on_all ((e, cb) :: regs) listeners = on_all regs (on e cb listeners).
Proof. reflexivity. Qed.

Lemma off_all_cons (e : string) (cb : callback) (regs : list (string * callback))
    (listeners : gmap string (list callback)) :
  off_all ((e, cb) :: regs) listeners = off_all regs (off e cb listeners).
Proof. reflexivity. Qed.

(** The callbacks a list of registrations holds for one event. *)
Lemma notify_on_all (event : string) (regs : list (string * callback)) :
  forall listeners,
    registered event (on_all regs listeners)
    = registered event listeners
      ++ List.map snd (List.filter (fun r => bool_decide (fst r = event)) regs).
Proof.
  induction regs as [|[e cb] regs IH]; intros listeners.
  - cbn. now rewrite app_nil_r.
  - rewrite on_all_cons, IH, notify_on.
    cbn [List.filter fst snd].
    destruct (decide (event = e)) as [->|Hne].
    + rewrite bool_decide_true by reflexivity. cbn [List.map snd].
      now rewrite <- app_assoc.
    + rewrite bool_decide_false by congruence. reflexivity.
Qed.

Lemma notify_off_all (event : string) (regs : list (string * callback)) :
  forall listeners before after,
    registered event listeners
    = before
      ++ List.map snd (List.filter (fun r => bool_decide (fst r = event)) regs)
      ++ after ->
    (forall r, In r regs -> fst r = event -> ~ In (snd r) before) ->
    registered event (off_all regs listeners) = before ++ after.
Proof.
  induction regs as [|[e cb] regs IH]; intros listeners before after Hl Hfresh.
  - exact Hl.
  - rewrite off_all_cons.
    apply IH; [|intros r Hr; apply Hfresh; now right].
    cbn [List.filter fst snd] in Hl.
    destruct (decide (e = event)) as [->|Hne].
    + rewrite bool_decide_true in Hl by reflexivity. cbn [List.map snd app] in Hl.
      apply (notify_off_first _ _ _ _ _ Hl).
      apply (Hfresh (event, cb)); [now left|reflexivity].
    + rewrite bool_decide_false in Hl by exact Hne.
      rewrite notify_off_other by congruence. exact Hl.
Qed.

(** X18.  Unregistering, in the same order, the handlers that were just
    registered restores what every event calls, provided none of them
    was registered for its event before: the cleanup of the component's
    effect leaves no handler of the effect behind. *)
Theorem X18_cleanup_unregisters_what_the_effect_registered
    (regs : list (string * callback))
    (listeners : gmap string (list callback)) (event : string) :
  (forall r, In r regs -> ~ In (snd r) (registered (fst r) listeners)) ->
  registered event (off_all regs (on_all regs listeners))
  = registered event listeners.
Proof.
  intros Hfresh.
  transitivity (registered event listeners ++ []); [|apply app_nil_r].
  apply notify_off_all.
  - rewrite app_nil_r. apply notify_on_all.
  - intros r Hr <-. now apply Hfresh.
Qed.

End ListenerFacts.

(** A callback that unregisters itself while [notifyListeners] runs
    makes it pass over the callback registered after it: of the callbacks
    0, 1 and 2, registered in this order, the first of which calls [off]
    on itself, 0 and 2 are called. *)
Example callback_that_unregisters_itself :
  let listeners : gmap string (list nat) :=
    PlinkoService.on "game:result" 2%nat
      (PlinkoService.on "game:result" 1%nat
         (PlinkoService.on "game:result" 0%nat ∅)) in
  let does (c : nat) :=
    match c with
    | O => [PlinkoService.call_off "game:result" 0%nat]
    | _ => []
    end in
  PlinkoService.registered "game:result" listeners = [0; 1; 2]%nat
  /\ fst (PlinkoService.notifyListeners "game:result" does listeners)
     = [0; 2]%nat
  /\ PlinkoService.registered "game:result"
       (snd (PlinkoService.notifyListeners "game:result" does listeners))
     = [1; 2]%nat.
Proof. cbn zeta. repeat split; vm_compute; reflexivity. Qed.

Section ClientFacts.

Import PlinkoGameClient.

Lemma slice_last_short {A : Type} (n : nat) (l : list A) :
  (List.length l <= n)%nat -> slice_last n l = l.
Proof.
  intros H. unfold slice_last.
  replace (List.length l - n)%nat with 0%nat by lia. reflexivity.
Qed.

Lemma slice_last_length {A : Type} (n : nat) (l : list A) :
  List.length (slice_last n l) = Nat.min n (List.length l).
Proof. unfold slice_last. rewrite length_skipn. lia. Qed.

(** Keeping the last 99 of the last 100 and appending one entry keeps
    the last 100 of the extended log. *)
Lemma slice_last_snoc {A : Type} (log : list A) (x : A) :
  slice_last 99 (slice_last 100 log) ++ [x] = slice_last 100 (log ++ [x]).
Proof.
  unfold slice_last at 1. rewrite slice_last_length.
  unfold slice_last. rewrite skipn_skipn, length_app. cbn [List.length].
  destruct (le_lt_dec (List.length log) 99) as [Hs|Hl].
  - replace (Nat.min 100 (List.length log) - 99 + (List.length log - 100))%nat
      with 0%nat by lia.
    replace (List.length log + 1 - 100)%nat with 0%nat by lia. reflexivity.
  - replace (Nat.min 100 (List.length log) - 99 + (List.length log - 100))%nat
      with (List.length log - 99)%nat by lia.
    replace (List.length log + 1 - 100)%nat with (List.length log - 99)%nat by lia.
    rewrite skipn_app.
    replace (List.length log - 99 - List.length log)%nat with 0%nat by lia.
    reflexivity.
Qed.

Lemma entries_cons (timed : Z * Server.emit) (feed : list (Z * Server.emit)) :
  omap entry_of (timed :: feed)
  = match entry_of timed with
    | Some entry => entry :: omap entry_of feed
    | None => omap entry_of feed
    end.
Proof. reflexivity. Qed.

Lemma deliver_log (feed : list (Z * Server.emit)) :
  forall (st : GameState) (log : list HistoryEntry),
    gameHistory st = slice_last 100 log ->
    gameHistory (deliver feed st) = slice_last 100 (log ++ omap entry_of feed).
Proof.
  induction feed as [|[now e] feed IH]; intros st log Hst.
  - cbn. now rewrite app_nil_r.
  - change (deliver ((now, e) :: feed) st) with (deliver feed (receive now e st)).
    rewrite entries_cons.
    destruct e as [h c b|s|h|c|m|r bet win bal];
      try (apply IH; exact Hst).
    cbn [receive]. unfold handleGameResult, entry_of. cbn [fst snd].
    destruct (path r) as [|d p]; [apply IH; exact Hst|].
    match goal with
    | |- _ = slice_last 100 (log ++ ?x :: ?t) =>
        change (log ++ x :: t) with (log ++ [x] ++ t)
    end.
    rewrite app_assoc.
    apply IH. cbn [gameHistory]. rewrite Hst. apply slice_last_snoc.
Qed.

(** X19.  The game history holds the last 100 results received with a
    path that is not empty, oldest first, each with its time of receipt:
    starting from at most 100 entries, after any events it is the last
    100 of the old entries followed by those of the events, and so never
    longer than 100. *)
Theorem X19_history_is_the_last_100_results
    (feed : list (Z * Server.emit)) (st : GameState) :
  (List.length (gameHistory st) <= 100)%nat ->
  gameHistory (deliver feed st)
  = slice_last 100 (gameHistory st ++ omap entry_of feed)
  /\ (List.length (gameHistory (deliver feed st)) <= 100)%nat.
Proof.
  intros Hlen.
  assert (E : gameHistory (deliver feed st)
              = slice_last 100 (gameHistory st ++ omap entry_of feed)).
  { apply deliver_log. symmetry. now apply slice_last_short. }
  split; [exact E|]. rewrite E, slice_last_length. lia.
Qed.

End ClientFacts.

(* ===================================================================== *)
(** * The session and the client together                                *)
(* ===================================================================== *)


Lemma client_MULTIPLIERS_same (risk : RiskMode) :
  PlinkoService.MULTIPLIERS risk = MULTIPLIERS risk.
Proof. destruct risk; reflexivity. Qed.

Section SessionAndClient.

Import Server.

Variable StringToNumber : string -> number.

(** What a resolved play of the declared types emits. *)
Lemma typed_play_result (id : string) (data : PlayData)
    (states : gmap string UserState) (result : ProvablyFairResult)
    (bet : jsval) (win newBalance : number) :
  well_typed_play data ->
  emitted (on_play StringToNumber id data states)
  = [game_result result bet win newBalance] ->
  exists st rowCount risk bin q,
    states !! id = Some st
    /\ 1 <= rowCount
    /\ gameOptions StringToNumber data = typed_options rowCount risk
    /\ calculateGameResult (serverSeed st) (clientSeed st) (nonce st)
         (gameOptions StringToNumber data) = Returns result
    /\ result = {| ProvableFairness.clientSeed := clientSeed st;
                   ProvableFairness.serverSeed := serverSeed st;
                   hashedServerSeed := hashServerSeed (serverSeed st);
                   ProvableFairness.nonce := nonce st;
                   gameResult := Float.of_Z bin;
                   path := path_of (serverSeed st) (clientSeed st) (nonce st)
                             rowCount;
                   finalMultiplier := Some (Fin q) |}
    /\ 0 <= bin <= 16 /\ (0 < q)%Q
    /\ nth_error (MULTIPLIERS risk) (Z.to_nat bin) = Some (Fin q).
Proof.
  intros Ht Hem.
  destruct (on_play_resolved StringToNumber _ _ _ _ _ _ _ Hem)
    as (st & Hs & _ & Er & _).
  destruct (gameOptions_typed StringToNumber data Ht)
    as (rowCount & risk & Hr & _ & Eo).
  assert (Hmax : rowCount <= max_array_length).
  { destruct (Z.le_gt_cases rowCount max_array_length) as [H|H]; [exact H|].
    exfalso. rewrite Eo in Er. unfold calculateGameResult, typed_options in Er.
    cbn [ProvableFairness.rows] in Er.
    rewrite calculatePath_too_long in Er by exact H.
    discriminate. }
  destruct (calculateGameResult_typed (serverSeed st) (clientSeed st) (nonce st)
              rowCount risk (conj Hr Hmax)) as (bin & q & E & Hb & Hq & Hn).
  exists st, rowCount, risk, bin, q.
  split; [exact Hs|]. split; [exact Hr|]. split; [exact Eo|].
  split; [exact Er|].
  rewrite Eo, E in Er. injection Er as <-. auto.
Qed.

(** X16.  For a resolved play of the declared types, the entry that the
    client's copy of the tables holds at the bin of the result, in the
    row of the request's risk mode, is the multiplier the server paid:
    the payout the board shows under the ball's bin is the one
    applied. *)
Theorem X16_client_table_shows_the_paid_multiplier
    (id : string) (data : PlayData) (states : gmap string UserState)
    (result : ProvablyFairResult) (bet : jsval) (win newBalance : number) :
  well_typed_play data ->
  emitted (on_play StringToNumber id data states)
  = [game_result result bet win newBalance] ->
  exists risk bin,
    ProvableFairness.riskMode (gameOptions StringToNumber data) = risk_key risk
    /\ gameResult result = Float.of_Z bin
    /\ 0 <= bin <= 16
    /\ nth_error (PlinkoService.MULTIPLIERS risk) (Z.to_nat bin)
       = finalMultiplier result.
Proof.
  intros Ht Hem.
  destruct (typed_play_result _ _ _ _ _ _ _ Ht Hem)
    as (st & rowCount & risk & bin & q & _ & _ & Eo & _ & -> & Hb & _ & Hn).
  exists risk, bin. rewrite Eo, client_MULTIPLIERS_same.
  cbn [typed_options ProvableFairness.riskMode gameResult finalMultiplier]. auto.
Qed.

(** X21.  Every result the server emits for a play of the declared
    types passes [verifyGameResult] with the seeds and the counter it
    carries and the options of the request. *)
Theorem X21_emitted_results_verify
    (id : string) (data : PlayData) (states : gmap string UserState)
    (result : ProvablyFairResult) (bet : jsval) (win newBalance : number) :
  well_typed_play data ->
  emitted (on_play StringToNumber id data states)
  = [game_result result bet win newBalance] ->
  verifyGameResult (ProvableFairness.serverSeed result)
    (ProvableFairness.clientSeed result) (ProvableFairness.nonce result)
    (gameOptions StringToNumber data) result = Returns true.
Proof.
  intros Ht Hem.
  destruct (typed_play_result _ _ _ _ _ _ _ Ht Hem)
    as (st & rowCount & risk & bin & q & _ & _ & _ & Er & E & _).
  unfold verifyGameResult.
  replace (ProvableFairness.serverSeed result) with (serverSeed st)
    by now rewrite E.
  replace (ProvableFairness.clientSeed result) with (clientSeed st)
    by now rewrite E.
  replace (ProvableFairness.nonce result) with (nonce st) by now rewrite E.
  rewrite Er. cbn [mbind completion_bind]. f_equal.
  rewrite E. cbn [gameResult finalMultiplier path strict_eq_opt].
  rewrite !andb_true_iff. split; [split|].
  - rewrite FloatFacts.eqb_of_Z. apply Z.eqb_refl.
  - cbn [Float.eqb]. apply Qeq_bool_iff. reflexivity.
  - now apply JSON_stringify_eqb.
Qed.





End SessionAndClient.

(* ===================================================================== *)
(** * The further properties at sample inputs                            *)
(* ===================================================================== *)

Lemma X2_witness :
  random_bytes 32 (List.repeat 0 32)
  /\ random_bytes 16 (List.repeat 255 16)
  /\ (String.length (generateServerSeed (List.repeat 0 32)) = 64%nat
      /\ lower_hex_text (generateServerSeed (List.repeat 0 32))
      /\ forall drawn', random_bytes 32 drawn' ->
           generateServerSeed (List.repeat 0 32) = generateServerSeed drawn' ->
           List.repeat 0 32 = drawn')
  /\ (String.length (generateClientSeed (List.repeat 255 16)) = 32%nat
      /\ lower_hex_text (generateClientSeed (List.repeat 255 16))
      /\ forall other', random_bytes 16 other' ->
           generateClientSeed (List.repeat 255 16) = generateClientSeed other' ->
           List.repeat 255 16 = other').
Proof.
  assert (H32 : random_bytes 32 (List.repeat 0 32))
    by (split; [reflexivity|repeat constructor; lia]).
  assert (H16 : random_bytes 16 (List.repeat 255 16))
    by (split; [reflexivity|repeat constructor; lia]).
  split; [exact H32|]. split; [exact H16|].
  apply (X2_generated_seeds_are_hex_and_distinct _ _ H32 H16).
Defined.


Lemma X5_witness :
  offered_rows (Z.of_nat (List.length (path scenario_result)))
  /\ calculateFinalBin (path scenario_result)
     = Float.of_Z (Z.min 16 (17 * rights (path scenario_result)
                             / Z.of_nat (List.length (path scenario_result))))
  /\ (List.length (path scenario_result) = 16%nat ->
      calculateFinalBin (path scenario_result)
      = Float.of_Z (rights (path scenario_result)))
  /\ (List.length (path scenario_result) = 8%nat ->
      calculateFinalBin (path scenario_result)
      = Float.of_Z (2 * rights (path scenario_result))).
Proof.
  assert (H : offered_rows (Z.of_nat (List.length (path scenario_result))))
    by (left; reflexivity).
  split; [exact H|].
  apply (X5_bin_is_exact_for_offered_rows (path scenario_result) H).
Defined.

Lemma X6_witness :
  offered_rows (Z.of_nat (List.length (path scenario_result)))
  /\ exists b,
       0 <= b <= 16
       /\ calculateFinalBin (path scenario_result) = Float.of_Z b
       /\ calculateFinalBin (mirror (path scenario_result)) = Float.of_Z (16 - b)
       /\ resolveMultiplier (risk_key high)
            (calculateFinalBin (mirror (path scenario_result)))
          = resolveMultiplier (risk_key high)
              (calculateFinalBin (path scenario_result)).
Proof.
  assert (H : offered_rows (Z.of_nat (List.length (path scenario_result))))
    by (left; reflexivity).
  split; [exact H|].
  apply (X6_mirrored_path_pays_the_same (path scenario_result) high H).
Defined.

Lemma X7_witness :
  offered_rows 16 /\ - 2 ^ 53 <= 0 /\ 0 + 16 <= 2 ^ 53
  /\ exists r1 r2 b1 b2,
       calculateGameResult zeros64 ones32 (Float.of_Z 0) (typed_options 16 medium)
       = Returns r1
       /\ calculateGameResult zeros64 ones32
            (Float.add (Float.of_Z 0) (Float.of_Z 1)) (typed_options 16 medium)
          = Returns r2
       /\ gameResult r1 = Float.of_Z b1
       /\ gameResult r2 = Float.of_Z b2
       /\ Z.abs (b2 - b1) <= 2
       /\ (16 = 16 -> Z.abs (b2 - b1) <= 1).
Proof.
  assert (H : offered_rows 16) by (right; right; reflexivity).
  assert (Hlo : - 2 ^ 53 <= 0) by lia.
  assert (Hhi : 0 + 16 <= 2 ^ 53) by lia.
  split; [exact H|]. split; [exact Hlo|]. split; [exact Hhi|].
  apply (X7_next_nonce_lands_nearby zeros64 ones32 0 16 medium H Hlo Hhi).
Defined.

Lemma X8_witness :
  (Float.of_Z 0 = NaN \/ exists z, z <= 0 /\ Float.of_Z 0 = Float.of_Z z)
  /\ calculateGameResult zeros64 ones32 (Float.of_Z 0)
       {| rows := Float.of_Z 0; riskMode := risk_key medium |}
     = Returns zero_rows_result
  /\ forall reported,
       verifyGameResult zeros64 ones32 (Float.of_Z 0)
         {| rows := Float.of_Z 0; riskMode := risk_key medium |} reported
       = Returns false.
Proof.
  assert (H : Float.of_Z 0 = NaN \/ exists z, z <= 0 /\ Float.of_Z 0 = Float.of_Z z)
    by (right; exists 0; split; [lia|reflexivity]).
  split; [exact H|].
  apply (X8_no_rows_no_bin zeros64 ones32 (Float.of_Z 0) (Float.of_Z 0) medium H).
Defined.

Lemma X10_witness :
  colon_free zeros64 /\ Z.abs 7 <= 2 ^ 53
  /\ seedData zeros64 ones32 (Float.of_Z 7) = seedData zeros64 ones32 (Float.of_Z 7)
  /\ zeros64 = zeros64 /\ ones32 = ones32 /\ 7 = 7.
Proof.
  assert (H : colon_free zeros64) by (repeat constructor; discriminate).
  assert (Hn : Z.abs 7 <= 2 ^ 53) by (cbn; lia).
  split; [exact H|]. split; [exact Hn|]. split; [reflexivity|].
  apply (X10_hashed_message_is_unambiguous zeros64 ones32 zeros64 ones32 7 7
           H H Hn Hn eq_refl).
Defined.

Lemma bet_10_well_typed : well_typed_play bet_10.
Proof.
  split; [exists (inject_Z 10); reflexivity|].
  split; right; [exists 8; split; [lia|reflexivity]|exists medium; reflexivity].
Defined.


Lemma first_play_events :
  Server.emitted (Server.on_play StringToNumber_unused "socket-1" bet_10 one_session)
  = [Server.game_result scenario_result (JNum (Float.of_Z 10))
       (Float.of_Z 10) (Float.of_Z 1000)].
Proof. vm_compute. reflexivity. Defined.

Lemma second_play_events :
  Server.emitted
    (Server.on_play StringToNumber_unused "socket-1" bet_10
       (Server.userStates
          (Server.on_play StringToNumber_unused "socket-1" bet_10 one_session)))
  = [Server.game_result second_result (JNum (Float.of_Z 10))
       (Float.of_Z 3) (Float.of_Z 993)].
Proof. vm_compute. reflexivity. Defined.

Lemma X13_witness :
  Server.emitted (Server.on_play StringToNumber_unused "socket-1" bet_10 one_session)
  = [Server.game_result scenario_result (JNum (Float.of_Z 10))
       (Float.of_Z 10) (Float.of_Z 1000)]
  /\ Server.emitted
       (Server.on_play StringToNumber_unused "socket-1" bet_10
          (Server.userStates
             (Server.on_play StringToNumber_unused "socket-1" bet_10 one_session)))
     = [Server.game_result second_result (JNum (Float.of_Z 10))
          (Float.of_Z 3) (Float.of_Z 993)]
  /\ calculateGameResult (serverSeed scenario_result) (clientSeed scenario_result)
       (Float.add (nonce scenario_result) (Float.of_Z 1))
       (Server.gameOptions StringToNumber_unused bet_10)
     = Returns second_result
  /\ Float.gtb (Server.ToNumber StringToNumber_unused (Server.betAmount bet_10))
       (Float.of_Z 1000) = false
  /\ Float.of_Z 993
     = Float.add
         (Float.sub (Float.of_Z 1000)
            (Server.ToNumber StringToNumber_unused (Server.betAmount bet_10)))
         (Float.mul (Server.ToNumber StringToNumber_unused (Server.betAmount bet_10))
            (default NaN (finalMultiplier second_result))).
Proof.
  split; [exact first_play_events|]. split; [exact second_play_events|].
  apply (X13_result_event_determines_next_result StringToNumber_unused
           "socket-1" bet_10 bet_10 one_session _ _ _ _ _ _ _ _
           first_play_events second_play_events).
Defined.


Lemma X16_witness :
  well_typed_play bet_10
  /\ Server.emitted
       (Server.on_play StringToNumber_unused "socket-1" bet_10 one_session)
     = [Server.game_result scenario_result (JNum (Float.of_Z 10))
          (Float.of_Z 10) (Float.of_Z 1000)]
  /\ exists risk bin,
       riskMode (Server.gameOptions StringToNumber_unused bet_10) = risk_key risk
       /\ gameResult scenario_result = Float.of_Z bin
       /\ 0 <= bin <= 16
       /\ nth_error (PlinkoService.MULTIPLIERS risk) (Z.to_nat bin)
          = finalMultiplier scenario_result.
Proof.
  split; [exact bet_10_well_typed|]. split; [exact first_play_events|].
  apply (X16_client_table_shows_the_paid_multiplier StringToNumber_unused
           "socket-1" bet_10 one_session _ _ _ _
           bet_10_well_typed first_play_events).
Defined.

Lemma X18_witness :
  (forall r, In r effect_registrations ->
     ~ In (snd r) (PlinkoService.registered (fst r) ∅))
  /\ PlinkoService.registered "game:result"
       (PlinkoService.off_all effect_registrations
          (PlinkoService.on_all effect_registrations ∅))
     = PlinkoService.registered "game:result" ∅.
Proof.
  assert (H : forall r, In r effect_registrations ->
                ~ In (snd r) (PlinkoService.registered (fst r) ∅)).
  { intros r _. unfold PlinkoService.registered.
    rewrite lookup_empty. intros []. }
  split; [exact H|].
  apply (X18_cleanup_unregisters_what_the_effect_registered
           effect_registrations ∅ "game:result" H).
Defined.

Lemma X19_witness :
  (List.length (PlinkoGameClient.gameHistory
                  (PlinkoGameClient.initialState
                     (hashedServerSeed scenario_result) ones32
                     (Float.of_Z 1000))) <= 100)%nat
  /\ PlinkoGameClient.gameHistory
       (PlinkoGameClient.deliver scenario_feed
          (PlinkoGameClient.initialState (hashedServerSeed scenario_result)
             ones32 (Float.of_Z 1000)))
     = PlinkoGameClient.slice_last 100
         (PlinkoGameClient.gameHistory
            (PlinkoGameClient.initialState (hashedServerSeed scenario_result)
               ones32 (Float.of_Z 1000))
          ++ omap PlinkoGameClient.entry_of scenario_feed)
  /\ (List.length
        (PlinkoGameClient.gameHistory
           (PlinkoGameClient.deliver scenario_feed
              (PlinkoGameClient.initialState (hashedServerSeed scenario_result)
                 ones32 (Float.of_Z 1000)))) <= 100)%nat.
Proof.
  assert (H : (List.length (PlinkoGameClient.gameHistory
                              (PlinkoGameClient.initialState
                                 (hashedServerSeed scenario_result) ones32
                                 (Float.of_Z 1000))) <= 100)%nat)
    by (cbn; lia).
  split; [exact H|].
  apply (X19_history_is_the_last_100_results scenario_feed _ H).
Defined.




Lemma X21_witness :
  well_typed_play bet_10
  /\ Server.emitted
       (Server.on_play StringToNumber_unused "socket-1" bet_10 one_session)
     = [Server.game_result scenario_result (JNum (Float.of_Z 10))
          (Float.of_Z 10) (Float.of_Z 1000)]
  /\ verifyGameResult (serverSeed scenario_result) (clientSeed scenario_result)
       (nonce scenario_result)
       (Server.gameOptions StringToNumber_unused bet_10) scenario_result
     = Returns true.
Proof.
  split; [exact bet_10_well_typed|]. split; [exact first_play_events|].
  apply (X21_emitted_results_verify StringToNumber_unused "socket-1" bet_10
           one_session _ _ _ _ bet_10_well_typed first_play_events).
Defined.

